(** * Kashf backend: scan orchestration, risk scoring and retention

    A shallow embedding of the Python backend
    ([ai/threat_scorer.py], [ai/risk_categories.py], [scrapers/base.py],
    [scrapers/manager.py], the start of every scraper's [check],
    [utils/secure_wipe.py], [database.py], [main.py], [schemas.py],
    [api/search.py]) and the properties its specification states about
    it, with further properties of the same code.

    Part I holds the embedding, one module per source file.
    Part II holds the lemmas and theorems. *)

From Stdlib Require Import ZArith QArith Qround Qpower Lia Lqa.
From Stdlib Require Import Ascii String DecimalString.
From stdpp Require Import base option list gmap strings.

Local Open Scope Q_scope.

(* ===================================================================== *)
(** * Part I: the embedding                                               *)
(* ===================================================================== *)

(** ** Python [float]

    A Python float is an IEEE-754 binary64 number.  Every finite binary64
    value is a rational, so a float is modelled by the rational it denotes
    (kept in lowest terms), and every arithmetic operation is the exact
    operation followed by rounding to the nearest 53-bit significand, ties
    to even, written out in [fl].  The exponent range is left unbounded:
    no value the scorer computes is subnormal, and none reaches the
    overflow threshold. *)
Module Float64.

(** Nearest integer, ties to the even one. *)
Definition rne (q : Q) : Z :=
  let f := Qfloor q in
  match Qcompare (q - inject_Z f) (1 # 2) with
  | Lt => f
  | Gt => (f + 1)%Z
  | Eq => if Z.even f then f else (f + 1)%Z
  end.

(** For [0 < x], the exponent [e] with [2^e <= x < 2^(e+1)]. *)
Definition ilog2 (x : Q) : Z :=
  let e := (Z.log2 (Qnum x) - Z.log2 (Zpos (Qden x)))%Z in
  if Qle_bool (2 ^ e) x then e else (e - 1)%Z.

(** The unit in the last place of the binade of [x]. *)
Definition ulp (x : Q) : Q := 2 ^ (ilog2 x - 52).

Definition fl_pos (x : Q) : Q :=
  Qred (inject_Z (rne (x / ulp x)) * ulp x).

(** Rounding of a rational to binary64. *)
Definition fl (x : Q) : Q :=
  match Qcompare x 0 with
  | Eq => 0
  | Gt => fl_pos x
  | Lt => Qred (- fl_pos (- x))
  end.

(** A decimal literal of the source, such as [0.3]. *)
Definition lit (d : Q) : Q := fl d.

(** [float(n)] for a Python [int]. *)
Definition of_int (n : Z) : Q := fl (inject_Z n).

Definition fadd (a b : Q) : Q := fl (a + b).
Definition fmul (a b : Q) : Q := fl (a * b).
Definition fdiv (a b : Q) : Q := fl (a / b).

(** Python's [min(a, b)]: [b] only when [b < a]. *)
Definition fmin (a b : Q) : Q := if Qle_bool a b then a else b.

(** [a >= b] and [a > b] on floats. *)
Definition fge (a b : Q) : bool := Qle_bool b a.
Definition fgt (a b : Q) : bool := negb (Qle_bool a b).

(** [round(x, 1)]: CPython rounds the exact value of [x] to one decimal,
    ties to even, and returns the float nearest to that decimal. *)
Definition round1_tenths (x : Q) : Z := rne (10 * x).
Definition round1 (x : Q) : Q := fl (inject_Z (round1_tenths x) / 10).

(** [int(x)] for a float: truncation towards zero. *)
Definition trunc (x : Q) : Z :=
  if Qle_bool 0 x then Qfloor x else Qceiling x.

End Float64.

(** ** Python [str] helpers *)
Module PyStr.

Local Open Scope string_scope.

(** [str(n)] for an [int]. *)
Definition str_nat (n : nat) : string := NilZero.string_of_uint (Nat.to_uint n).
Definition str_int (z : Z) : string := NilZero.string_of_int (Z.to_int z).

(** [str(x)] for a float that [round(_, 1)] returned: the shortest decimal
    that reads back as [x] is the one-decimal numeral nearest to it. *)
Definition str_float1 (x : Q) : string :=
  let t := Float64.round1_tenths x in
  (if (t <? 0)%Z then "-" else "")
    ++ str_nat (Z.to_nat (Z.abs t / 10)) ++ "." ++ str_nat (Z.to_nat (Z.abs t mod 10)).

Definition upper_ascii (c : ascii) : ascii :=
  let n := nat_of_ascii c in
  if (andb (97 <=? n) (n <=? 122))%nat then ascii_of_nat (n - 32) else c.

(** [s.upper()], on the ASCII letters the risk levels are made of. *)
Fixpoint upper (s : string) : string :=
  match s with
  | EmptyString => EmptyString
  | String c r => String (upper_ascii c) (upper r)
  end.

(** [sep.join(parts)]. *)
Definition join (sep : string) (parts : list string) : string :=
  String.concat sep parts.

End PyStr.

(** ** [ai/risk_categories.py] *)
Module RiskCategories.

Local Open Scope string_scope.

(** [class RiskCategory(str, Enum)], in declaration order. *)
Inductive RiskCategory :=
| IMPERSONATION
| PHISHING
| STALKING
| REPUTATIONAL
| DATA_BREACH
| INFRASTRUCTURE.

Definition value (c : RiskCategory) : string :=
  match c with
  | IMPERSONATION => "IMPERSONATION"
  | PHISHING => "PHISHING"
  | STALKING => "STALKING"
  | REPUTATIONAL => "REPUTATIONAL"
  | DATA_BREACH => "DATA_BREACH"
  | INFRASTRUCTURE => "INFRASTRUCTURE"
  end.

(** Iterating over the enum class yields its members in declaration order. *)
Definition all_categories : list RiskCategory :=
  [IMPERSONATION; PHISHING; STALKING; REPUTATIONAL; DATA_BREACH; INFRASTRUCTURE].

Definition CATEGORY_DESCRIPTIONS : gmap string string :=
  list_to_map
    [ (value IMPERSONATION,
       "Risk of identity theft or impersonation. Your public profiles could be "
       ++ "cloned to create fake accounts for social engineering attacks.");
      (value PHISHING,
       "Risk of targeted phishing. Professional information can be used to craft "
       ++ "convincing spear-phishing emails targeting you or your organization.");
      (value STALKING,
       "Risk of physical or cyber stalking. Location data, daily routines, or "
       ++ "personal photos could be exploited for harassment.");
      (value REPUTATIONAL,
       "Risk of reputational damage. Public posts, comments, or associated accounts "
       ++ "could be used to damage your professional or personal reputation.");
      (value DATA_BREACH,
       "Your credentials have been exposed in known data breaches. Compromised "
       ++ "passwords may give attackers access to your accounts.");
      (value INFRASTRUCTURE,
       "Internet-facing services or devices associated with you have been detected. "
       ++ "Misconfigured services could be exploited for unauthorized access.") ].

(** Base risk score of a finding on each platform (0-10 scale). *)
Definition PLATFORM_BASE_SCORES : gmap string Q :=
  list_to_map
    [ ("Facebook", Float64.lit 7.0);
      ("Instagram", Float64.lit 6.5);
      ("Twitter/X", Float64.lit 5.0);
      ("TikTok", Float64.lit 5.5);
      ("Snapchat", Float64.lit 6.0);
      ("Pinterest", Float64.lit 3.0);
      ("LinkedIn", Float64.lit 8.0);
      ("GitHub", Float64.lit 4.0);
      ("GitLab", Float64.lit 3.5);
      ("Behance", Float64.lit 3.0);
      ("HaveIBeenPwned", Float64.lit 9.5);
      ("Dehashed", Float64.lit 8.5);
      ("Shodan", Float64.lit 9.0);
      ("Gravatar", Float64.lit 4.0);
      ("Keybase", Float64.lit 3.0);
      ("About.me", Float64.lit 3.5);
      ("Reddit", Float64.lit 4.5);
      ("StackOverflow", Float64.lit 3.0);
      ("Medium", Float64.lit 3.0);
      ("HackerNews", Float64.lit 3.0) ].

Definition PLATFORM_WARNINGS : gmap string string :=
  list_to_map
    [ ("Facebook",
       "⚠️ SOCIAL ENGINEERING RISK: Your Facebook profile exposes personal details "
       ++ "that attackers can use for social engineering, pretexting, and impersonation.");
      ("LinkedIn",
       "⚠️ TARGETED PHISHING RISK: Your LinkedIn profile reveals professional details "
       ++ "that enable highly convincing spear-phishing campaigns targeting you or colleagues.");
      ("HaveIBeenPwned",
       "🚨 CREDENTIAL BREACH DETECTED: Your email was found in known data breaches. "
       ++ "PRIORITY: Update all passwords immediately and enable Multi-Factor Authentication (MFA).");
      ("Shodan",
       "🚨 INFRASTRUCTURE EXPOSURE: Internet-facing services associated with your domain "
       ++ "were detected on Shodan. Review for misconfigured services and open ports.");
      ("Instagram",
       "⚠️ STALKING RISK: Your Instagram activity may reveal location patterns, "
       ++ "daily routines, and personal relationships.");
      ("Twitter/X",
       "⚠️ REPUTATIONAL RISK: Public tweets and interactions can be scraped and "
       ++ "used for profiling or reputational attacks.");
      ("Dehashed",
       "🚨 CREDENTIAL LEAK: Your information appeared in leaked/breached databases. "
       ++ "Change passwords on all affected services and enable MFA.") ].

End RiskCategories.

(** ** [scrapers/base.py]: the result type *)
Module Base.

(** A value of the open [data] mapping of a result. *)
#[warnings="-register-all"]
Inductive DataValue :=
| DNone
| DBool (b : bool)
| DInt (n : Z)
| DStr (s : string)
| DList (l : list DataValue).

(** [@dataclass class ScraperResult], with its field defaults. *)
Record ScraperResult := {
  platform : string;
  url : option string;
  found : bool;
  data : gmap string DataValue;
  risk_category : string;
  risk_score : Q;
  error : option string
}.

End Base.

(** ** [ai/threat_scorer.py] *)
Module ThreatScorer.

Import RiskCategories Base Float64.
Local Open Scope string_scope.
Local Open Scope list_scope.

(** One entry of the report's [category_scores] list. *)
Record CategoryScore := {
  category : string;
  score : Q;
  description : string;
  platforms_found : list string;
  warnings : list string
}.

(** The dict [analyze_findings] returns. *)
Record Report := {
  overall_score : Q;
  risk_level : string;
  summary : string;
  recommendations : list string;
  category_scores : list CategoryScore
}.

Definition _category_weight (cat : RiskCategory) : Q :=
  match cat with
  | DATA_BREACH => lit 0.30
  | INFRASTRUCTURE => lit 0.20
  | PHISHING => lit 0.20
  | IMPERSONATION => lit 0.15
  | STALKING => lit 0.10
  | REPUTATIONAL => lit 0.05
  end.

Definition _risk_level (score : Q) : string :=
  if fge score 75 then "critical"
  else if fge score 50 then "high"
  else if fge score 25 then "medium"
  else "low".

(** [key in category_hits]. *)
Definition has_key (category_hits : gmap string (list ScraperResult)) (key : string) : bool :=
  bool_decide (is_Some (category_hits !! key)).

Definition _generate_summary (exposed total : nat) (score : Q) (level : string)
    (category_hits : gmap string (list ScraperResult)) : string :=
  let parts :=
    [ "Scan complete. Your digital footprint was detected on " +:+ PyStr.str_nat exposed
        +:+ " out of " +:+ PyStr.str_nat total +:+ " platforms checked.";
      "Overall Privacy Threat Score: " +:+ PyStr.str_float1 score +:+ "/100 ("
        +:+ PyStr.upper level +:+ ")." ] in
  let parts :=
    if has_key category_hits (value DATA_BREACH) then
      let breaches := default [] (category_hits !! value DATA_BREACH) in
      parts ++ [ "🚨 CRITICAL: Your credentials were found in "
                 +:+ PyStr.str_nat (length breaches) +:+ " breach "
                 +:+ "database(s). Immediate action required." ]
    else parts in
  let parts :=
    if has_key category_hits (value INFRASTRUCTURE) then
      parts ++ [ "⚠️ Infrastructure exposure detected. Internet-facing services linked to "
                 +:+ "your identity may have misconfigurations." ]
    else parts in
  let parts :=
    if (exposed =? 0)%nat then
      [ "✅ Great news! Your digital footprint appears minimal across the "
        +:+ PyStr.str_nat total +:+ " platforms we checked. Privacy Threat Score: "
        +:+ PyStr.str_float1 score +:+ "/100." ]
    else parts in
  PyStr.join " " parts.

Definition breach_recs : list string :=
  [ "🔑 CHANGE ALL PASSWORDS IMMEDIATELY on accounts associated with breached emails.";
    "🛡️ ENABLE MFA (Multi-Factor Authentication) on every account that supports it.";
    "📧 Consider using a password manager to generate unique passwords per site.";
    "🔍 Review the specific breaches listed and check what data types were exposed." ].

Definition infrastructure_recs : list string :=
  [ "🔒 Audit all internet-facing services for misconfigurations and open ports.";
    "🛡️ Ensure firewalls and access controls are properly configured.";
    "📡 Close or restrict any unnecessary publicly-exposed services." ].

Definition phishing_recs : list string :=
  [ "📧 Be vigilant against spear-phishing emails referencing your professional details.";
    "🔐 Enable email filtering and anti-phishing protections.";
    "👥 Limit the professional information publicly visible on LinkedIn." ].

Definition impersonation_recs : list string :=
  [ "👤 Review your Facebook privacy settings — restrict profile visibility to friends only.";
    "🔍 Search for impersonation accounts using your name and photos.";
    "📱 Enable login alerts on all social media accounts." ].

Definition stalking_recs : list string :=
  [ "📍 Disable location tagging on photos and posts.";
    "🔒 Set social media profiles to private where possible.";
    "🚫 Review and remove old posts that reveal personal routines or locations." ].

Definition reputational_recs : list string :=
  [ "📝 Audit public posts and comments across forums for potentially damaging content." ].

Definition general_recs : list string :=
  [ "📋 Use the Takedown feature to generate GDPR/CCPA data deletion requests.";
    "🔄 Schedule regular privacy audits (recommended: quarterly)." ].

Definition no_action_rec : string :=
  "✅ No immediate actions required. Keep monitoring your digital footprint periodically.".

(** [if key in category_hits: recs.extend(block)]. *)
Definition extend_if (category_hits : gmap string (list ScraperResult))
    (cat : RiskCategory) (block recs : list string) : list string :=
  if has_key category_hits (value cat) then recs ++ block else recs.

Definition _generate_recommendations (category_hits : gmap string (list ScraperResult))
    (found_results : list ScraperResult) : list string :=
  let recs := [] in
  let recs := extend_if category_hits DATA_BREACH breach_recs recs in
  let recs := extend_if category_hits INFRASTRUCTURE infrastructure_recs recs in
  let recs := extend_if category_hits PHISHING phishing_recs recs in
  let recs := extend_if category_hits IMPERSONATION impersonation_recs recs in
  let recs := extend_if category_hits STALKING stalking_recs recs in
  let recs := extend_if category_hits REPUTATIONAL reputational_recs recs in
  let recs := match found_results with [] => recs | _ :: _ => recs ++ general_recs end in
  match recs with [] => [no_action_rec] | _ :: _ => recs end.

(** [r.risk_category or RiskCategory.REPUTATIONAL]: the enum member is a
    [str] equal to its value, so it is the same dict key. *)
Definition hit_category (r : ScraperResult) : string :=
  if decide (risk_category r = "") then value REPUTATIONAL else risk_category r.

(** [category_hits.setdefault(cat, []).append(r)] *)
Definition add_hit (category_hits : gmap string (list ScraperResult)) (r : ScraperResult)
    : gmap string (list ScraperResult) :=
  let cat := hit_category r in
  <[cat := default [] (category_hits !! cat) ++ [r]]> category_hits.

Definition group_hits (found_results : list ScraperResult)
    : gmap string (list ScraperResult) :=
  fold_left add_hit found_results ∅.

(** [min(len(hit.data) * 0.3, 2.0) if hit.data else 0.0] *)
Definition data_bonus (hit : ScraperResult) : Q :=
  if decide (size (data hit) = 0%nat) then lit 0.0
  else fmin (fmul (of_int (Z.of_nat (size (data hit)))) (lit 0.3)) (lit 2.0).

Definition platform_score (hit : ScraperResult) : Q :=
  let base := default (lit 5.0) (PLATFORM_BASE_SCORES !! platform hit) in
  fmin (fadd base (data_bonus hit)) (lit 10.0).

(** The inner loop's [cat_score]. *)
Definition cat_score_of (hits : list ScraperResult) : Q :=
  fold_left (fun cat_score hit => fadd cat_score (platform_score hit)) hits (lit 0.0).

(** The inner loop's [warnings]. *)
Definition warnings_of (hits : list ScraperResult) : list string :=
  omap (fun hit => PLATFORM_WARNINGS !! platform hit) hits.

Definition normalized_of (hits : list ScraperResult) : Q :=
  match hits with
  | [] => lit 0.0
  | _ :: _ => fmin (fmul (fdiv (cat_score_of hits) (lit 30.0)) (lit 100.0)) (lit 100.0)
  end.

(** The state the loop over [RiskCategory] carries. *)
Record Acc := {
  acc_scores : list CategoryScore;
  total_weighted_score : Q;
  max_possible_score : Q
}.

(** The dict appended to [category_scores] for one category. *)
Definition category_entry (cat : RiskCategory) (hits : list ScraperResult) : CategoryScore :=
  {| category := value cat;
     score := round1 (normalized_of hits);
     description := default "" (CATEGORY_DESCRIPTIONS !! value cat);
     platforms_found := map platform hits;
     warnings := warnings_of hits |}.

Definition category_step (category_hits : gmap string (list ScraperResult))
    (a : Acc) (cat : RiskCategory) : Acc :=
  let hits := default [] (category_hits !! value cat) in
  let normalized := normalized_of hits in
  let weight := _category_weight cat in
  {| acc_scores := acc_scores a ++ [category_entry cat hits];
     total_weighted_score := fadd (total_weighted_score a) (fmul normalized weight);
     max_possible_score := fadd (max_possible_score a) (fmul (lit 100.0) weight) |}.

Definition category_loop (category_hits : gmap string (list ScraperResult)) : Acc :=
  fold_left (category_step category_hits) all_categories
    {| acc_scores := []; total_weighted_score := lit 0.0; max_possible_score := lit 0.0 |}.

(** [round((total / max) * 100.0 if max > 0 else 0.0, 1)] *)
Definition overall_of (total max : Q) : Q :=
  round1 (if fgt max 0 then fmul (fdiv total max) (lit 100.0) else lit 0.0).

Definition analyze_findings (results : list ScraperResult) : Report :=
  let found_results := List.filter found results in
  let total_platforms := length results in
  let exposed_platforms := length found_results in
  let category_hits := group_hits found_results in
  let a := category_loop category_hits in
  let overall := overall_of (total_weighted_score a) (max_possible_score a) in
  let level := _risk_level overall in
  {| overall_score := overall;
     risk_level := level;
     summary := _generate_summary exposed_platforms total_platforms overall level category_hits;
     recommendations := _generate_recommendations category_hits found_results;
     category_scores := acc_scores a |}.

End ThreatScorer.


(** ** [config.py]: the settings the orchestration reads *)
Module Config.

Record Settings := {
  DATA_TTL_HOURS : Z;
  SCRAPER_TIMEOUT : Z;
  MAX_CONCURRENT_SCRAPERS : Z
}.

(** The defaults of [class Settings]. *)
Definition settings : Settings :=
  {| DATA_TTL_HOURS := 24; SCRAPER_TIMEOUT := 30; MAX_CONCURRENT_SCRAPERS := 10 |}.

End Config.

(** ** [database.py]: the tables, and the session the code talks to

    Timestamps are seconds on the UTC clock.  The surrogate key [id] and
    the [checked_at] / [generated_at] defaults of [Finding] and
    [ThreatReport] are produced by the storage layer and carry nothing of
    the scan; they are left out.  A [Text] column that holds
    [json.dumps(v)] is modelled by [v] itself. *)
Module Database.

Record ScanTask := {
  id : string;
  query : string;
  query_type : string;
  status : string;
  progress : Z;
  created_at : Z;
  completed_at : option Z
}.

(** [task.status = s], [task.progress = p], [task.completed_at = t] *)
Definition set_status (s : string) (t : ScanTask) : ScanTask :=
  {| id := id t; query := query t; query_type := query_type t; status := s;
     progress := progress t; created_at := created_at t; completed_at := completed_at t |}.

Definition set_progress (p : Z) (t : ScanTask) : ScanTask :=
  {| id := id t; query := query t; query_type := query_type t; status := status t;
     progress := p; created_at := created_at t; completed_at := completed_at t |}.

Definition set_completed_at (c : Z) (t : ScanTask) : ScanTask :=
  {| id := id t; query := query t; query_type := query_type t; status := status t;
     progress := progress t; created_at := created_at t; completed_at := Some c |}.

Record Finding := {
  task_id : string;
  platform : string;
  url : option string;
  found : Z;
  data_found : option (gmap string Base.DataValue);
  risk_category : string;
  risk_score : Q
}.

Record ThreatReport := {
  report_task_id : string;
  overall_score : Q;
  risk_level : string;
  summary : string;
  recommendations : list string;
  category_scores : list ThreatScorer.CategoryScore
}.

(** The three tables, rows in insertion order. *)
Record DB := {
  scan_tasks : list ScanTask;
  findings : list Finding;
  threat_reports : list ThreatReport
}.

(** What Python can raise here: [asyncio.TimeoutError], or any other
    [Exception] with its [str(exc)]. *)
Inductive exn :=
| TimeoutError
| Exception (msg : string).

(** Outcome of awaiting a coroutine: a value, an exception, or no
    return at all. *)
Inductive outcome (A : Type) :=
| Ok (a : A)
| Raise (e : exn)
| Hang.
Arguments Ok {A} a.
Arguments Raise {A} e.
Arguments Hang {A}.

(** The statements sent to the database, in the order they are sent. *)
Inductive Event :=
| EGet (tid : string)
| ESelectExpired (cutoff : Z)
| EDeleteFindings (tid : string)
| EDeleteReport (tid : string)
| EDeleteTask (tid : string)
| ECommit.

(** The world a coroutine runs in.  [committed] is the durable database;
    [session] is the view of the session that is open (its transaction);
    [faults] scripts the storage layer: the n-th database round trip
    raises when the n-th entry is [true], and an exhausted script means
    no more faults. *)
Record World := {
  committed : DB;
  session : DB;
  clock : Z;
  faults : list bool;
  trace : list Event
}.

Definition Async (A : Type) : Type := World -> outcome A * World.

Definition ret {A} (a : A) : Async A := fun w => (Ok a, w).

Definition bind {A B} (c : Async A) (k : A -> Async B) : Async B :=
  fun w =>
    match c w with
    | (Ok a, w') => k a w'
    | (Raise e, w') => (Raise e, w')
    | (Hang, w') => (Hang, w')
    end.

Definition raise {A} (e : exn) : Async A := fun w => (Raise e, w).

(** [try: body  except Exception as exc: handler(exc)] *)
Definition try_except {A} (body : Async A) (handler : exn -> Async A) : Async A :=
  fun w =>
    match body w with
    | (Raise e, w') => handler e w'
    | r => r
    end.

Declare Scope async_scope.
Delimit Scope async_scope with async.
Notation "'let*' x ':=' c 'in' k" := (bind c (fun x => k))
  (at level 10, x name, c at level 100, k at level 200, only parsing) : async_scope.
Local Open Scope async_scope.

(** [for x in xs: body(x)] *)
Fixpoint for_each {A} (xs : list A) (body : A -> Async unit) : Async unit :=
  match xs with
  | [] => ret tt
  | x :: rest => let* _ := body x in for_each rest body
  end.

Definition set_session (d : DB) : Async unit :=
  fun w => (Ok tt, {| committed := committed w; session := d; clock := clock w;
                      faults := faults w; trace := trace w |}).

Definition get_session : Async DB := fun w => (Ok (session w), w).

Definition now : Async Z := fun w => (Ok (clock w), w).

(** One round trip to the database: the statement is recorded, and the
    script decides whether the storage layer raises. *)
Definition round_trip (ev : Event) : Async unit :=
  fun w =>
    let w' := {| committed := committed w; session := session w; clock := clock w;
                 faults := tl (faults w); trace := trace w ++ [ev] |} in
    match faults w with
    | true :: _ => (Raise (Exception "database error"), w')
    | _ => (Ok tt, w')
    end.

(** [async with AsyncSessionLocal() as session: body]: the session starts
    from the durable state; whatever was not committed when the block is
    left, normally or by an exception, is discarded. *)
Definition with_session {A} (body : Async A) : Async A :=
  fun w =>
    let w0 := {| committed := committed w; session := committed w; clock := clock w;
                 faults := faults w; trace := trace w |} in
    let '(r, w1) := body w0 in
    (r, {| committed := committed w1; session := committed w1; clock := clock w1;
           faults := faults w1; trace := trace w1 |}).

(** [await session.commit()] *)
Definition commit : Async unit :=
  let* _ := round_trip ECommit in
  fun w => (Ok tt, {| committed := session w; session := session w; clock := clock w;
                      faults := faults w; trace := trace w |}).

(** [await session.get(ScanTask, task_id)] *)
Definition get_task (tid : string) : Async (option ScanTask) :=
  let* _ := round_trip (EGet tid) in
  let* d := get_session in
  ret (List.find (fun t => bool_decide (id t = tid)) (scan_tasks d)).

(** What the statements do to the tables. *)
Definition tasks_updated (tid : string) (f : ScanTask -> ScanTask) (d : DB) : DB :=
  {| scan_tasks := map (fun t => if bool_decide (id t = tid) then f t else t) (scan_tasks d);
     findings := findings d;
     threat_reports := threat_reports d |}.

Definition finding_added (f : Finding) (d : DB) : DB :=
  {| scan_tasks := scan_tasks d; findings := findings d ++ [f];
     threat_reports := threat_reports d |}.

Definition report_added (r : ThreatReport) (d : DB) : DB :=
  {| scan_tasks := scan_tasks d; findings := findings d;
     threat_reports := threat_reports d ++ [r] |}.

Definition findings_deleted (tid : string) (d : DB) : DB :=
  {| scan_tasks := scan_tasks d;
     findings := List.filter (fun f => negb (bool_decide (task_id f = tid))) (findings d);
     threat_reports := threat_reports d |}.

Definition report_deleted (tid : string) (d : DB) : DB :=
  {| scan_tasks := scan_tasks d;
     findings := findings d;
     threat_reports :=
       List.filter (fun r => negb (bool_decide (report_task_id r = tid))) (threat_reports d) |}.

Definition task_deleted (tid : string) (d : DB) : DB :=
  {| scan_tasks := List.filter (fun t => negb (bool_decide (id t = tid))) (scan_tasks d);
     findings := findings d;
     threat_reports := threat_reports d |}.

Definition modify_session (f : DB -> DB) : Async unit :=
  let* d := get_session in set_session (f d).

(** Assignments to the attributes of a loaded [ScanTask]. *)
Definition update_task (tid : string) (f : ScanTask -> ScanTask) : Async unit :=
  modify_session (tasks_updated tid f).

(** [session.add(finding)] *)
Definition add_finding (f : Finding) : Async unit :=
  modify_session (finding_added f).

(** [session.add(report)] *)
Definition add_report (r : ThreatReport) : Async unit :=
  modify_session (report_added r).

(** [await session.execute(delete(Finding).where(Finding.task_id == tid))] *)
Definition delete_findings (tid : string) : Async unit :=
  let* _ := round_trip (EDeleteFindings tid) in
  modify_session (findings_deleted tid).

(** [await session.execute(delete(ThreatReport).where(ThreatReport.task_id == tid))] *)
Definition delete_report (tid : string) : Async unit :=
  let* _ := round_trip (EDeleteReport tid) in
  modify_session (report_deleted tid).

(** [await session.execute(delete(ScanTask).where(ScanTask.id == tid))] *)
Definition delete_task (tid : string) : Async unit :=
  let* _ := round_trip (EDeleteTask tid) in
  modify_session (task_deleted tid).

(** [(await session.execute(select(ScanTask).where(ScanTask.created_at < cutoff))).scalars().all()] *)
Definition select_expired (cutoff : Z) : Async (list ScanTask) :=
  let* _ := round_trip (ESelectExpired cutoff) in
  let* d := get_session in
  ret (List.filter (fun t => (created_at t <? cutoff)%Z) (scan_tasks d)).

End Database.

(** ** [utils/secure_wipe.py] *)
Module SecureWipe.

Import Database.
Local Open Scope async_scope.
Local Open Scope Z_scope.

Definition wipe_task_data (task_id : string) : Async bool :=
  with_session
    (let* task := get_task task_id in
     match task with
     | None => ret false
     | Some _ =>
         let* _ := delete_findings task_id in
         let* _ := delete_report task_id in
         let* _ := delete_task task_id in
         let* _ := commit in
         ret true
     end).

(** The loop of [wipe_expired_tasks], carrying [wiped_count]. *)
Fixpoint wipe_each (expired_tasks : list ScanTask) (wiped_count : nat) : Async nat :=
  match expired_tasks with
  | [] => ret wiped_count
  | task :: rest =>
      let* _ := delete_findings (id task) in
      let* _ := delete_report (id task) in
      let* _ := delete_task (id task) in
      wipe_each rest (S wiped_count)
  end.

(** [timedelta(hours=h)], in seconds.  The number of days, [h // 24],
    has to fit a C [int] and to be at most 999999999 in magnitude;
    otherwise the constructor raises [OverflowError]. *)
Definition timedelta_hours (h : Z) : outcome Z :=
  let days := h / 24 in
  if (days <? - 2 ^ 31) || (2 ^ 31 - 1 <? days)
  then Raise (Exception "Python int too large to convert to C int")
  else if 999999999 <? Z.abs days
  then Raise (Exception ("days=" +:+ PyStr.str_int days
                         +:+ "; must have magnitude <= 999999999"))
  else Ok (h * 3600).

(** [t - delta] on datetimes.  The clock counts the seconds since
    1970-01-01T00:00:00Z; a [datetime] lies between 0001-01-01T00:00:00
    and 9999-12-31T23:59:59, and a difference outside raises
    [OverflowError]. *)
Definition datetime_min : Z := -62135596800.
Definition datetime_max : Z := 253402300799.

Definition datetime_sub (t delta : Z) : outcome Z :=
  let r := t - delta in
  if (r <? datetime_min) || (datetime_max <? r)
  then Raise (Exception "date value out of range")
  else Ok r.

(** [datetime.now(timezone.utc) - timedelta(hours=ttl)] at time [t]. *)
Definition cutoff_at (t ttl : Z) : outcome Z :=
  match timedelta_hours ttl with
  | Ok delta => datetime_sub t delta
  | Raise e => Raise e
  | Hang => Hang
  end.

(** An expression that is evaluated without touching the database. *)
Definition evaluated {A} (o : outcome A) : Async A := fun w => (o, w).

Definition wipe_expired_tasks (cfg : Config.Settings) (ttl_hours : option Z) : Async nat :=
  let ttl := match ttl_hours with Some h => h | None => Config.DATA_TTL_HOURS cfg end in
  let* t := now in
  let* cutoff := evaluated (cutoff_at t ttl) in
  with_session
    (let* expired_tasks := select_expired cutoff in
     let* wiped_count := wipe_each expired_tasks 0%nat in
     let* _ := commit in
     ret wiped_count).

End SecureWipe.

(** ** [main.py]: the background auto-wipe task *)
Module Main.

Import Database.
Local Open Scope async_scope.

(** [await asyncio.sleep(seconds)] *)
Definition sleep (seconds : Z) : Async unit :=
  fun w => (Ok tt, {| committed := committed w; session := session w;
                      clock := (clock w + seconds)%Z;
                      faults := faults w; trace := trace w |}).

(** One turn of the [while True] loop of [_auto_wipe_loop]. *)
Definition _auto_wipe_turn (cfg : Config.Settings) : Async unit :=
  let* _ := try_except
    (let* _ := SecureWipe.wipe_expired_tasks cfg None in ret tt)
    (fun exc => ret tt) in
  sleep 3600.

(** The first [n] turns of [_auto_wipe_loop]; the loop itself never ends. *)
Fixpoint _auto_wipe_loop (cfg : Config.Settings) (n : nat) : Async unit :=
  match n with
  | O => ret tt
  | S m => let* _ := _auto_wipe_turn cfg in _auto_wipe_loop cfg m
  end.

End Main.

(** ** [scrapers/base.py]: the scraper interface, and [scrapers/manager.py] *)
Module Manager.

Import Database.
Local Open Scope async_scope.
Local Open Scope string_scope.
Local Open Scope list_scope.

(** The static properties every [BaseScraper] subclass declares. *)
Record BaseScraper := {
  platform_name : string;
  base_url : string;
  scraper_category : string
}.

(** [self._ok(url, data)] *)
Definition _ok (self : BaseScraper) (url : string) (data : gmap string Base.DataValue)
    : Base.ScraperResult :=
  {| Base.platform := platform_name self; Base.url := Some url; Base.found := true;
     Base.data := data; Base.risk_category := scraper_category self;
     Base.risk_score := Float64.lit 0.0; Base.error := None |}.

(** [self._not_found()] *)
Definition _not_found (self : BaseScraper) : Base.ScraperResult :=
  {| Base.platform := platform_name self; Base.url := None; Base.found := false;
     Base.data := ∅; Base.risk_category := scraper_category self;
     Base.risk_score := Float64.lit 0.0; Base.error := None |}.

(** [self._error(msg)] *)
Definition _error (self : BaseScraper) (msg : string) : Base.ScraperResult :=
  {| Base.platform := platform_name self; Base.url := None; Base.found := false;
     Base.data := ∅; Base.risk_category := scraper_category self;
     Base.risk_score := Float64.lit 0.0; Base.error := Some msg |}.

(** What the [check] coroutine of a scraper does on a query: every
    [check] of the repository returns through [_ok], [_not_found] or
    [_error]; otherwise it is still running when the timeout expires, or
    it raises. *)
Inductive CheckBehaviour :=
| ReturnsOk (url : string) (data : gmap string Base.DataValue)
| ReturnsNotFound
| ReturnsError (msg : string)
| TimesOut
| Fails (msg : string).

(** The outside world of the scrapers: how each one behaves on a query. *)
Definition Network : Type := BaseScraper -> string -> string -> CheckBehaviour.

(** [await asyncio.wait_for(scraper.check(query, query_type), timeout=...)] *)
Definition wait_for_check (net : Network) (scraper : BaseScraper) (query query_type : string)
    : outcome Base.ScraperResult :=
  match net scraper query query_type with
  | ReturnsOk url data => Ok (_ok scraper url data)
  | ReturnsNotFound => Ok (_not_found scraper)
  | ReturnsError msg => Ok (_error scraper msg)
  | TimesOut => Raise TimeoutError
  | Fails msg => Raise (Exception msg)
  end.

(** [_run_single_scraper]; the [finally] clause closes the scraper's HTTP
    client on every path and leaves the result as it is. *)
Definition _run_single_scraper (cfg : Config.Settings) (net : Network)
    (scraper : BaseScraper) (query query_type : string) : outcome Base.ScraperResult :=
  match wait_for_check net scraper query query_type with
  | Raise TimeoutError =>
      Ok {| Base.platform := platform_name scraper; Base.url := None; Base.found := false;
            Base.data := ∅; Base.risk_category := scraper_category scraper;
            Base.risk_score := Float64.lit 0.0;
            Base.error := Some ("Timeout after " +:+ PyStr.str_int (Config.SCRAPER_TIMEOUT cfg)
                                +:+ "s") |}
  | Raise (Exception msg) =>
      Ok {| Base.platform := platform_name scraper; Base.url := None; Base.found := false;
            Base.data := ∅; Base.risk_category := scraper_category scraper;
            Base.risk_score := Float64.lit 0.0;
            Base.error := Some msg |}
  | r => r
  end.

(** [asyncio.Semaphore(value)] *)
Definition Semaphore (value : Z) : outcome nat :=
  if (value <? 0)%Z then Raise (Exception "Semaphore initial value must be >= 0")
  else Ok (Z.to_nat value).

(** The tasks [asyncio.gather] drives: those still waiting for the
    semaphore (in submission order), those holding a permit, and one slot
    per submitted task for its result. *)
Record Pool := {
  waiting : list (nat * BaseScraper);
  running : list (nat * BaseScraper);
  slots : list (option Base.ScraperResult)
}.

(** Waiting tasks enter [async with semaphore] while permits are free. *)
Definition acquire (permits : nat) (p : Pool) : Pool :=
  let k := (permits - length (running p))%nat in
  {| waiting := drop k (waiting p);
     running := running p ++ take k (waiting p);
     slots := slots p |}.

(** All results, once every slot is filled. *)
Fixpoint collect {A} (l : list (option A)) : option (list A) :=
  match l with
  | [] => Some []
  | None :: _ => None
  | Some a :: rest => match collect rest with Some r => Some (a :: r) | None => None end
  end.

(** The event loop: waiting tasks take the free permits, then let one running task finish; which one is
    the scheduler's choice ([sched]), so any completion order is
    covered.  One task finishes per turn, so as many turns as there are
    tasks is all the loop can use. *)
Fixpoint gather_loop (run : BaseScraper -> outcome Base.ScraperResult) (permits : nat)
    (turns : nat) (sched : list nat) (p : Pool) : outcome Pool :=
  match turns with
  | O => Ok p
  | S turns' =>
      let p := acquire permits p in
      let i := (hd 0%nat sched mod length (running p))%nat in
      match running p !! i with
      | None => Ok p
      | Some (idx, scraper) =>
          match run scraper with
          | Ok r =>
              gather_loop run permits turns' (tl sched)
                {| waiting := waiting p;
                   running := delete i (running p);
                   slots := <[idx := Some r]> (slots p) |}
          | Raise e => Raise e
          | Hang => Hang
          end
      end
  end.

(** [await asyncio.gather] over [_limited(s) for s in scrapers], with
    [return_exceptions=False]: the results in submission order; a task
    that is never admitted leaves the caller waiting for ever. *)
Definition gather (run : BaseScraper -> outcome Base.ScraperResult) (permits : nat)
    (sched : list nat) (scrapers : list BaseScraper) : outcome (list Base.ScraperResult) :=
  let p0 := {| waiting := imap (fun i s => (i, s)) scrapers;
               running := [];
               slots := replicate (length scrapers) None |} in
  match gather_loop run permits (length scrapers) sched p0 with
  | Ok p =>
      match waiting p, running p, collect (slots p) with
      | [], [], Some results => Ok results
      | _, _, _ => Hang
      end
  | Raise e => Raise e
  | Hang => Hang
  end.

(** A coroutine that does not touch the database. *)
Definition lift {A} (o : outcome A) : Async A := fun w => (o, w).

(** The [Finding] row [run_scan] builds from a result. *)
Definition to_finding (task_id : string) (result : Base.ScraperResult) : Finding :=
  {| Database.task_id := task_id;
     Database.platform := Base.platform result;
     Database.url := Base.url result;
     Database.found := if Base.found result then 1%Z else 0%Z;
     Database.data_found :=
       if decide (size (Base.data result) = 0%nat) then None else Some (Base.data result);
     Database.risk_category := Base.risk_category result;
     Database.risk_score := Base.risk_score result |}.

(** [int(((i + 1) / total) * 100)] *)
Definition progress_of (i total : nat) : Z :=
  Float64.trunc
    (Float64.fmul (Float64.fdiv (inject_Z (Z.of_nat (i + 1))) (inject_Z (Z.of_nat total)))
                  (Float64.of_int 100)).

(** [for i, result in enumerate(results): ...], from index [i] on. *)
Fixpoint store_findings (task_id : string) (total : nat) (i : nat)
    (results : list Base.ScraperResult) : Async unit :=
  match results with
  | [] => ret tt
  | result :: rest =>
      let* _ := add_finding (to_finding task_id result) in
      let progress := progress_of i total in
      let* task := get_task task_id in
      let* _ := match task with
                | Some _ =>
                    update_task task_id (set_progress progress)
                | None => ret tt
                end in
      store_findings task_id total (S i) rest
  end.

Definition _generate_threat_report (task_id : string) (results : list Base.ScraperResult)
    : Async unit :=
  let report_data := ThreatScorer.analyze_findings results in
  with_session
    (let* _ := add_report
       {| report_task_id := task_id;
          overall_score := ThreatScorer.overall_score report_data;
          risk_level := ThreatScorer.risk_level report_data;
          summary := ThreatScorer.summary report_data;
          recommendations := ThreatScorer.recommendations report_data;
          category_scores := ThreatScorer.category_scores report_data |} in
     commit).

(** [run_scan], over the scrapers [_all_scrapers()] returned. *)
Definition run_scan_with (cfg : Config.Settings) (net : Network) (sched : list nat)
    (scrapers : list BaseScraper) (task_id query query_type : string) : Async unit :=
  let total := length scrapers in
  (* Mark task as running *)
  let* _ := with_session
    (let* task := get_task task_id in
     match task with
     | Some _ =>
         let* _ := update_task task_id (fun t => set_progress 0 (set_status "running" t)) in
         commit
     | None => ret tt
     end) in
  (* Run all scrapers concurrently, under the semaphore *)
  let* permits := lift (Semaphore (Config.MAX_CONCURRENT_SCRAPERS cfg)) in
  let* results :=
    lift (gather (fun s => _run_single_scraper cfg net s query query_type)
                 permits sched scrapers) in
  (* Store findings in DB *)
  let* _ := with_session
    (let* _ := store_findings task_id total 0 results in
     commit) in
  (* Generate threat report *)
  let* _ := _generate_threat_report task_id results in
  (* Mark task as completed *)
  with_session
    (let* task := get_task task_id in
     match task with
     | Some _ =>
         let* t_now := now in
         let* _ := update_task task_id
           (fun t => set_completed_at t_now (set_progress 100 (set_status "completed" t))) in
         commit
     | None => ret tt
     end).

Definition scraper (name url category : string) : BaseScraper :=
  {| platform_name := name; base_url := url; scraper_category := category |}.

(** [_all_scrapers()]: one of every scraper class, in this order. *)
Definition _all_scrapers : list BaseScraper :=
  [ scraper "Facebook" "https://www.facebook.com" "IMPERSONATION";
    scraper "Instagram" "https://www.instagram.com" "STALKING";
    scraper "Twitter/X" "https://x.com" "REPUTATIONAL";
    scraper "TikTok" "https://www.tiktok.com" "STALKING";
    scraper "Snapchat" "https://www.snapchat.com/add" "STALKING";
    scraper "Pinterest" "https://www.pinterest.com" "REPUTATIONAL";
    scraper "LinkedIn" "https://www.linkedin.com/in" "PHISHING";
    scraper "GitHub" "https://api.github.com/users" "REPUTATIONAL";
    scraper "GitLab" "https://gitlab.com" "REPUTATIONAL";
    scraper "Behance" "https://www.behance.net" "REPUTATIONAL";
    scraper "HaveIBeenPwned" "https://haveibeenpwned.com/api/v3" "DATA_BREACH";
    scraper "Dehashed" "https://www.dehashed.com" "DATA_BREACH";
    scraper "Shodan" "https://api.shodan.io" "INFRASTRUCTURE";
    scraper "Gravatar" "https://www.gravatar.com" "REPUTATIONAL";
    scraper "Keybase" "https://keybase.io" "REPUTATIONAL";
    scraper "About.me" "https://about.me" "REPUTATIONAL";
    scraper "Reddit" "https://www.reddit.com" "REPUTATIONAL";
    scraper "StackOverflow" "https://api.stackexchange.com/2.3" "REPUTATIONAL";
    scraper "Medium" "https://medium.com" "REPUTATIONAL";
    scraper "HackerNews" "https://hacker-news.firebaseio.com/v0" "REPUTATIONAL" ].

Definition run_scan (cfg : Config.Settings) (net : Network) (sched : list nat)
    (task_id query query_type : string) : Async unit :=
  run_scan_with cfg net sched _all_scrapers task_id query query_type.

End Manager.

(** ** [scrapers/social.py], [professional.py], [breach.py],
       [public_records.py], [forums.py]: how each [check] starts

    Every [check] decides from the query type, the configured keys and
    the query whether it answers at once or sends its first request; what
    it makes of the response is the behaviour of the outside world. *)
Module Scrapers.

Import Manager.
Local Open Scope string_scope.
Local Open Scope list_scope.

(** The API keys of [class Settings]. *)
Record Keys := {
  HIBP_API_KEY : string;
  SHODAN_API_KEY : string
}.

(** The scraper classes, in the order [_all_scrapers] instantiates them. *)
Inductive ScraperClass :=
| FacebookScraper | InstagramScraper | TwitterScraper | TikTokScraper
| SnapchatScraper | PinterestScraper
| LinkedInScraper | GitHubScraper | GitLabScraper | BehanceScraper
| HIBPScraper | DehashedScraper
| ShodanScraper | GravatarScraper | KeybaseScraper | AboutMeScraper
| RedditScraper | StackOverflowScraper | MediumScraper | HackerNewsScraper.

Definition all_classes : list ScraperClass :=
  [ FacebookScraper; InstagramScraper; TwitterScraper; TikTokScraper;
    SnapchatScraper; PinterestScraper;
    LinkedInScraper; GitHubScraper; GitLabScraper; BehanceScraper;
    HIBPScraper; DehashedScraper;
    ShodanScraper; GravatarScraper; KeybaseScraper; AboutMeScraper;
    RedditScraper; StackOverflowScraper; MediumScraper; HackerNewsScraper ].

(** The class attributes [platform_name], [base_url], [risk_category]. *)
Definition instance (c : ScraperClass) : BaseScraper :=
  match c with
  | FacebookScraper => scraper "Facebook" "https://www.facebook.com" "IMPERSONATION"
  | InstagramScraper => scraper "Instagram" "https://www.instagram.com" "STALKING"
  | TwitterScraper => scraper "Twitter/X" "https://x.com" "REPUTATIONAL"
  | TikTokScraper => scraper "TikTok" "https://www.tiktok.com" "STALKING"
  | SnapchatScraper => scraper "Snapchat" "https://www.snapchat.com/add" "STALKING"
  | PinterestScraper => scraper "Pinterest" "https://www.pinterest.com" "REPUTATIONAL"
  | LinkedInScraper => scraper "LinkedIn" "https://www.linkedin.com/in" "PHISHING"
  | GitHubScraper => scraper "GitHub" "https://api.github.com/users" "REPUTATIONAL"
  | GitLabScraper => scraper "GitLab" "https://gitlab.com" "REPUTATIONAL"
  | BehanceScraper => scraper "Behance" "https://www.behance.net" "REPUTATIONAL"
  | HIBPScraper => scraper "HaveIBeenPwned" "https://haveibeenpwned.com/api/v3" "DATA_BREACH"
  | DehashedScraper => scraper "Dehashed" "https://www.dehashed.com" "DATA_BREACH"
  | ShodanScraper => scraper "Shodan" "https://api.shodan.io" "INFRASTRUCTURE"
  | GravatarScraper => scraper "Gravatar" "https://www.gravatar.com" "REPUTATIONAL"
  | KeybaseScraper => scraper "Keybase" "https://keybase.io" "REPUTATIONAL"
  | AboutMeScraper => scraper "About.me" "https://about.me" "REPUTATIONAL"
  | RedditScraper => scraper "Reddit" "https://www.reddit.com" "REPUTATIONAL"
  | StackOverflowScraper =>
      scraper "StackOverflow" "https://api.stackexchange.com/2.3" "REPUTATIONAL"
  | MediumScraper => scraper "Medium" "https://medium.com" "REPUTATIONAL"
  | HackerNewsScraper =>
      scraper "HackerNews" "https://hacker-news.firebaseio.com/v0" "REPUTATIONAL"
  end.

(** The arguments of a call of [self._http_get]. *)
Record Request := {
  req_url : string;
  req_params : list (string * string);
  req_headers : list (string * string)
}.

Definition get (url : string) : Request :=
  {| req_url := url; req_params := []; req_headers := [] |}.

(** How a [check] starts: it returns through [_not_found] or [_error]
    before any request, or it awaits its first request. *)
Inductive Start :=
| Answers (b : CheckBehaviour)
| Awaits (req : Request).

(** [sep in s], and [s.split(sep)[-1]], for a one-character [sep]. *)
Fixpoint contains_char (sep : ascii) (s : string) : bool :=
  match s with
  | EmptyString => false
  | String c r => if Ascii.eqb c sep then true else contains_char sep r
  end.

Fixpoint last_part (sep : ascii) (s : string) : string :=
  match s with
  | EmptyString => EmptyString
  | String c r =>
      if contains_char sep r then last_part sep r
      else if Ascii.eqb c sep then r
      else s
  end.

Definition is_email (query_type : string) : bool := String.eqb query_type "email".

(** The statements of each [check] up to its first [await]; [email_hash q]
    stands for [hashlib.md5(q.strip().lower().encode()).hexdigest()]. *)
Definition check_start (keys : Keys) (email_hash : string -> string)
    (c : ScraperClass) (query query_type : string) : Start :=
  let base := base_url (instance c) in
  match c with
  | FacebookScraper | TwitterScraper | SnapchatScraper | LinkedInScraper
  | BehanceScraper | AboutMeScraper =>
      if is_email query_type then Answers ReturnsNotFound
      else Awaits (get (base +:+ "/" +:+ query))
  | InstagramScraper | PinterestScraper =>
      if is_email query_type then Answers ReturnsNotFound
      else Awaits (get (base +:+ "/" +:+ query +:+ "/"))
  | TikTokScraper | MediumScraper =>
      if is_email query_type then Answers ReturnsNotFound
      else Awaits (get (base +:+ "/@" +:+ query))
  | GitHubScraper =>
      if is_email query_type
      then Awaits (get ("https://api.github.com/search/users?q=" +:+ query +:+ "+in:email"))
      else Awaits (get (base +:+ "/" +:+ query))
  | GitLabScraper =>
      if is_email query_type then Answers ReturnsNotFound
      else Awaits (get (base +:+ "/api/v4/users?username=" +:+ query))
  | HIBPScraper =>
      if negb (is_email query_type) then Answers ReturnsNotFound
      else if String.eqb (HIBP_API_KEY keys) ""
      then Answers (ReturnsError "HIBP API key not configured")
      else Awaits {| req_url := base +:+ "/breachedaccount/" +:+ query;
                     req_params := [("truncateResponse", "false")];
                     req_headers := [("hibp-api-key", HIBP_API_KEY keys);
                                     ("User-Agent", "Kashf-Privacy-Dashboard")] |}
  | DehashedScraper =>
      let search_param := if is_email query_type then "email" else "username" in
      Awaits (get (base +:+ "/search?query=" +:+ search_param +:+ ":" +:+ query))
  | ShodanScraper =>
      if String.eqb (SHODAN_API_KEY keys) ""
      then Answers (ReturnsError "Shodan API key not configured")
      else
        let send search_query :=
          Awaits {| req_url := base +:+ "/shodan/host/search";
                    req_params := [("key", SHODAN_API_KEY keys); ("query", search_query);
                                   ("page", "1")];
                    req_headers := [] |} in
        if is_email query_type then
          if contains_char "@" query then
            let domain := last_part "@" query in
            if String.eqb domain ""
               || existsb (String.eqb domain)
                          ["gmail.com"; "yahoo.com"; "hotmail.com"; "outlook.com"]
            then Answers ReturnsNotFound
            else send ("hostname:" +:+ domain)
          else Answers ReturnsNotFound
        else send query
  | GravatarScraper =>
      if negb (is_email query_type) then Answers ReturnsNotFound
      else Awaits (get (base +:+ "/" +:+ email_hash query +:+ ".json"))
  | KeybaseScraper =>
      if is_email query_type then Answers ReturnsNotFound
      else Awaits (get (base +:+ "/_/api/1.0/user/lookup.json?usernames=" +:+ query))
  | RedditScraper =>
      if is_email query_type then Answers ReturnsNotFound
      else Awaits (get (base +:+ "/user/" +:+ query +:+ "/about.json"))
  | StackOverflowScraper =>
      if is_email query_type then Answers ReturnsNotFound
      else Awaits {| req_url := base +:+ "/users";
                     req_params := [("inname", query); ("site", "stackoverflow");
                                    ("pagesize", "5"); ("order", "desc");
                                    ("sort", "reputation")];
                     req_headers := [] |}
  | HackerNewsScraper =>
      if is_email query_type then Answers ReturnsNotFound
      else Awaits (get (base +:+ "/user/" +:+ query +:+ ".json"))
  end.

(** A [check] as a whole: [rest] is what it does once the response to
    its first request is in (a result, a timeout or an exception). *)
Definition check (keys : Keys) (email_hash : string -> string)
    (rest : ScraperClass -> Request -> CheckBehaviour)
    (c : ScraperClass) (query query_type : string) : CheckBehaviour :=
  match check_start keys email_hash c query query_type with
  | Answers b => b
  | Awaits req => rest c req
  end.

(** The class of a scraper object, by its platform name. *)
Definition class_of (s : BaseScraper) : option ScraperClass :=
  List.find (fun c => String.eqb (platform_name (instance c)) (platform_name s)) all_classes.

(** The outside world of a scan whose scrapers run the code above; an
    object of no registered class does not occur in a scan. *)
Definition live_net (keys : Keys) (email_hash : string -> string)
    (rest : ScraperClass -> Request -> CheckBehaviour) : Network :=
  fun s query query_type =>
    match class_of s with
    | Some c => check keys email_hash rest c query query_type
    | None => ReturnsNotFound
    end.

End Scrapers.

(** ** [str.strip()] and [len] on UTF-8 text *)
Module PyText.

Local Open Scope string_scope.
Local Open Scope list_scope.

(** The strings of the model are the UTF-8 encodings of Python's.  The
    characters [str.strip()] removes are U+0009..U+000D, U+001C..U+0020,
    U+0085, U+00A0, U+1680, U+2000..U+200A, U+2028, U+2029, U+202F,
    U+205F and U+3000; in well-formed UTF-8 their encodings at either end
    of a string are recognised byte-wise. *)
Definition space1 (a : ascii) : bool :=
  let n := nat_of_ascii a in
  ((9 <=? n) && (n <=? 13) || (28 <=? n) && (n <=? 32))%nat.

Definition space2 (a b : ascii) : bool :=
  let m := nat_of_ascii a in
  let n := nat_of_ascii b in
  ((m =? 194) && ((n =? 133) || (n =? 160)))%nat.

Definition space3 (a b c : ascii) : bool :=
  let l := nat_of_ascii a in
  let m := nat_of_ascii b in
  let n := nat_of_ascii c in
  ((l =? 225) && (m =? 154) && (n =? 128)
   || (l =? 226) && (m =? 128)
      && ((128 <=? n) && (n <=? 138) || (n =? 168) || (n =? 169) || (n =? 175))
   || (l =? 226) && (m =? 129) && (n =? 159)
   || (l =? 227) && (m =? 128) && (n =? 128))%nat.

(** [s.lstrip()] on the bytes of [s]. *)
Fixpoint lstrip_bytes (s : list ascii) : list ascii :=
  match s with
  | a :: r =>
      if space1 a then lstrip_bytes r
      else match r with
           | b :: r2 =>
               if space2 a b then lstrip_bytes r2
               else match r2 with
                    | c :: r3 => if space3 a b c then lstrip_bytes r3 else s
                    | [] => s
                    end
           | [] => s
           end
  | [] => []
  end.

(** The same from the end, on the reversed bytes. *)
Fixpoint rstrip_reversed (s : list ascii) : list ascii :=
  match s with
  | c :: r =>
      if space1 c then rstrip_reversed r
      else match r with
           | b :: r2 =>
               if space2 b c then rstrip_reversed r2
               else match r2 with
                    | a :: r3 => if space3 a b c then rstrip_reversed r3 else s
                    | [] => s
                    end
           | [] => s
           end
  | [] => []
  end.

(** [s.strip()] *)
Definition strip (s : string) : string :=
  string_of_list_ascii
    (rev (rstrip_reversed (rev (lstrip_bytes (list_ascii_of_string s))))).

(** [len(s)]: the number of characters, that is of bytes that do not
    continue a character. *)
Definition len (s : string) : nat :=
  length (List.filter (fun a => negb ((128 <=? nat_of_ascii a) && (nat_of_ascii a <=? 191))%nat)
                      (list_ascii_of_string s)).

End PyText.

(** ** [schemas.py]: the models of the search endpoint *)
Module Schemas.

Local Open Scope string_scope.

(** [class SearchRequest(BaseModel)] *)
Record SearchRequest := {
  query : string;
  query_type : string
}.

(** The constraints of [SearchRequest]: [min_length=1], [max_length=255]
    on [query], and [Literal["email", "username"]] on [query_type]. *)
Definition SearchRequest_valid (request : SearchRequest) : bool :=
  (1 <=? PyText.len (query request))%nat
  && (PyText.len (query request) <=? 255)%nat
  && (String.eqb (query_type request) "email"
      || String.eqb (query_type request) "username").

(** [class SearchResponse(BaseModel)] *)
Record SearchResponse := {
  task_id : string;
  status : string;
  message : string
}.

End Schemas.

(** ** [api/search.py] *)
Module Api.

Import Database.
Local Open Scope async_scope.
Local Open Scope string_scope.
Local Open Scope list_scope.

(** A call [background_tasks.add_task(run_scan, task_id, query, query_type)]
    has queued. *)
Record ScanCall := {
  call_task_id : string;
  call_query : string;
  call_query_type : string
}.

Definition task_added (t : ScanTask) (d : DB) : DB :=
  {| scan_tasks := scan_tasks d ++ [t]; findings := findings d;
     threat_reports := threat_reports d |}.

(** [session.add(task)] *)
Definition add_task (t : ScanTask) : Async unit := modify_session (task_added t).

(** [await session.refresh(task)] *)
Definition refresh (t : ScanTask) : Async unit := round_trip (EGet (id t)).

(** [start_search], in the session [get_session] yields.  [new_id] is the
    value [uuid.uuid4()] gives the row's [id] default; [created_at] takes
    the clock.  The queue of background tasks goes in and comes out. *)
Definition start_search (new_id : string) (request : Schemas.SearchRequest)
    (background_tasks : list ScanCall)
    : Async (Schemas.SearchResponse * list ScanCall) :=
  with_session
    (let* t_now := now in
     let task := {| id := new_id;
                    query := PyText.strip (Schemas.query request);
                    query_type := Schemas.query_type request;
                    status := "pending";
                    progress := 0;
                    created_at := t_now;
                    completed_at := None |} in
     let* _ := add_task task in
     let* _ := commit in
     let* _ := refresh task in
     let background_tasks :=
       background_tasks ++ [ {| call_task_id := id task; call_query := query task;
                                call_query_type := query_type task |} ] in
     ret ({| Schemas.task_id := id task;
             Schemas.status := "pending";
             Schemas.message :=
               "Scan initiated for " +:+ Schemas.query_type request +:+ " '"
                 +:+ Schemas.query request +:+ "'. "
                 +:+ "Poll GET /results/" +:+ id task +:+ " for progress and results." |},
          background_tasks)).

(** The background task a queued call stands for. *)
Definition run_call (cfg : Config.Settings) (net : Manager.Network) (sched : list nat)
    (call : ScanCall) : Async unit :=
  Manager.run_scan cfg net sched (call_task_id call) (call_query call) (call_query_type call).

End Api.

(** ** Reference definitions the properties are stated with *)
Module Spec.

Import RiskCategories Base ThreatScorer Float64.

(** The found results one category key collects, in input order. *)
Definition hits_for (key : string) (found_results : list ScraperResult)
    : list ScraperResult :=
  List.filter (fun r => bool_decide (hit_category r = key)) found_results.

(** The inner loop over the hits of one category, from any starting
    value of [cat_score]. *)
Definition sum_from (s : Q) (hits : list ScraperResult) : Q :=
  fold_left (fun cat_score hit => fadd cat_score (platform_score hit)) hits s.

(** The normalized score of a category on an input. *)
Definition cat_normalized (results : list ScraperResult) (cat : RiskCategory) : Q :=
  normalized_of (hits_for (value cat) (List.filter found results)).

(** The float sum of [n(cat) * weight(cat)] over the six categories, in
    the order of the enumeration. *)
Definition weighted_total (n : RiskCategory -> Q) : Q :=
  fold_left (fun t cat => fadd t (fmul (n cat) (_category_weight cat)))
            all_categories (lit 0.0).

(** The weights as the specification lists them. *)
Definition spec_weight (cat : RiskCategory) : Q :=
  match cat with
  | DATA_BREACH => 0.30
  | INFRASTRUCTURE => 0.20
  | PHISHING => 0.20
  | IMPERSONATION => 0.15
  | STALKING => 0.10
  | REPUTATIONAL => 0.05
  end.

Definition Qsum (f : RiskCategory -> Q) : Q :=
  fold_right (fun cat acc => f cat + acc) 0 all_categories.

(** The overall score in the specification's words:
    [100 * (sum of cat_normalized_i * weight_i) / (sum of weight_i)],
    and [0] when the denominator is [0]. *)
Definition spec_overall (results : list ScraperResult) : Q :=
  let den := Qsum spec_weight in
  if Qeq_bool den 0 then 0
  else 100 * Qsum (fun cat => cat_normalized results cat * spec_weight cat) / den.

(** A result with its [found] flag replaced. *)
Definition with_found (b : bool) (r : ScraperResult) : ScraperResult :=
  {| platform := platform r; url := url r; found := b; data := data r;
     risk_category := risk_category r; risk_score := risk_score r; error := error r |}.

(** A result with its [risk_score] replaced. *)
Definition with_risk_score (s : Q) (r : ScraperResult) : ScraperResult :=
  {| platform := platform r; url := url r; found := found r; data := data r;
     risk_category := risk_category r; risk_score := s; error := error r |}.

(** Two results that differ at most in [risk_score]. *)
Definition same_but_risk_score (r r' : ScraperResult) : Prop :=
  platform r = platform r' /\ url r = url r' /\ found r = found r' /\
  data r = data r' /\ risk_category r = risk_category r' /\ error r = error r'.

(** Sample results: a breach hit as [HIBPScraper._ok] builds it with no
    data fields, and a miss as [_not_found] builds it. *)
Definition hibp_hit : ScraperResult :=
  {| platform := "HaveIBeenPwned";
     url := Some "https://haveibeenpwned.com/account/a@b.c"%string;
     found := true; data := ∅; risk_category := "DATA_BREACH";
     risk_score := lit 0.0; error := None |}.

Definition miss (name category : string) : ScraperResult :=
  {| platform := name; url := None; found := false; data := ∅;
     risk_category := category; risk_score := lit 0.0; error := None |}.

End Spec.

(** Reference definitions for the store. *)
Module StoreSpec.

Import Database.

(** The world after fault-free statements [evs] that left the open
    session at [s]. *)
Definition world_after (w : World) (s : DB) (evs : list Event) : World :=
  {| committed := committed w; session := s; clock := clock w;
     faults := []; trace := trace w ++ evs |}.

(** The world after a session block that ended fault-free in state [d],
    committed. *)
Definition world_committed (w : World) (d : DB) (evs : list Event) : World :=
  {| committed := d; session := d; clock := clock w;
     faults := []; trace := trace w ++ evs |}.

(** Referential integrity: every finding and every report belongs to a
    task that exists ([ForeignKey("scan_tasks.id")], not nullable). *)
Definition has_task (d : DB) (tid : string) : Prop :=
  exists t, In t (scan_tasks d) /\ id t = tid.



(** The three statements the sweeper sends for one task. *)
Definition wipe_events (tid : string) : list Event :=
  [EDeleteFindings tid; EDeleteReport tid; EDeleteTask tid].

(** The tables without the rows of the tasks [ids]. *)
Definition listed (ids : list string) (x : string) : bool :=
  bool_decide (x ∈ ids).

Definition purged (ids : list string) (d : DB) : DB :=
  {| scan_tasks := List.filter (fun t => negb (listed ids (id t))) (scan_tasks d);
     findings := List.filter (fun f => negb (listed ids (task_id f))) (findings d);
     threat_reports :=
       List.filter (fun r => negb (listed ids (report_task_id r))) (threat_reports d) |}.

(** The tasks a sweep at time [t] with a TTL of [ttl] hours selects. *)
Definition expired_at (t ttl : Z) (d : DB) : list ScanTask :=
  List.filter (fun task => (created_at task <? t - ttl * 3600)%Z) (scan_tasks d).

(** Sample rows and worlds. *)
Definition sample_task (tid : string) (created : Z) : ScanTask :=
  {| id := tid; query := "a@b.c"; query_type := "email"; status := "completed";
     progress := 100; created_at := created; completed_at := Some (created + 60)%Z |}.

Definition sample_finding (tid name : string) : Finding :=
  {| task_id := tid; platform := name; url := None; found := 0%Z; data_found := None;
     risk_category := "REPUTATIONAL"; risk_score := Float64.lit 0.0 |}.

Definition sample_report (tid : string) : ThreatReport :=
  {| report_task_id := tid; overall_score := Float64.lit 0.0; risk_level := "low";
     summary := ""; recommendations := []; category_scores := [] |}.

Definition sample_db : DB :=
  {| scan_tasks := [sample_task "t1" 0; sample_task "t2" 10];
     findings := [sample_finding "t1" "GitHub"; sample_finding "t2" "GitHub";
                  sample_finding "t1" "Reddit"];
     threat_reports := [sample_report "t1"; sample_report "t2"] |}.

(** A world at time [t] whose storage layer follows the script [fs]. *)
Definition world_of (d : DB) (t : Z) (fs : list bool) : World :=
  {| committed := d; session := d; clock := t; faults := fs; trace := [] |}.

(** A coroutine that returns or raises, and leaves the durable tables
    and the clock as they were. *)
Definition keeps {A} (c : Async A) : Prop :=
  forall w, (c w).1 <> Hang /\ committed (c w).2 = committed w /\ clock (c w).2 = clock w.

(** The world an hour later. *)
Definition slept (seconds : Z) (w : World) : World :=
  {| committed := committed w; session := session w; clock := (clock w + seconds)%Z;
     faults := faults w; trace := trace w |}.

End StoreSpec.

(** Reference definitions for the orchestrator. *)
Module ManagerSpec.

Import Manager.
Local Open Scope string_scope.

(** The result the per-probe runner hands to the orchestrator, by what
    the probe did. *)
Definition result_of (cfg : Config.Settings) (net : Network) (scraper : BaseScraper)
    (query query_type : string) : Base.ScraperResult :=
  match net scraper query query_type with
  | ReturnsOk url data => _ok scraper url data
  | ReturnsNotFound => _not_found scraper
  | ReturnsError msg => _error scraper msg
  | TimesOut =>
      _error scraper ("Timeout after " +:+ PyStr.str_int (Config.SCRAPER_TIMEOUT cfg) +:+ "s")
  | Fails msg => _error scraper msg
  end.

(** The tasks [gather] still has to finish. *)
Definition pending (p : Pool) : list (nat * BaseScraper) := running p ++ waiting p.

(** The state of the pool while the event loop runs: every unfinished
    task is a submitted one, listed once, and the slot of every other
    task holds its result. *)
Definition pool_ok (f : BaseScraper -> Base.ScraperResult) (scrapers : list BaseScraper)
    (p : Pool) : Prop :=
  length (slots p) = length scrapers /\
  NoDup (pending p).*1 /\
  (forall i s, (i, s) ∈ pending p -> scrapers !! i = Some s) /\
  (forall j s, scrapers !! j = Some s ->
     slots p !! j = Some (if bool_decide (j ∈ (pending p).*1) then None else Some (f s))).

(** A world whose storage layer answers every statement. *)
Definition quiet_world (c s : Database.DB) (k : Z) (tr : list Database.Event)
    : Database.World :=
  {| Database.committed := c; Database.session := s; Database.clock := k;
     Database.faults := []; Database.trace := tr |}.

Definition find_task (tid : string) (d : Database.DB) : option Database.ScanTask :=
  List.find (fun t => bool_decide (Database.id t = tid)) (Database.scan_tasks d).

(** What each block of [run_scan] leaves in the tables when the storage
    layer answers. *)
Definition scan_started (tid : string) (d : Database.DB) : Database.DB :=
  match find_task tid d with
  | Some _ =>
      Database.tasks_updated tid
        (fun t => Database.set_progress 0 (Database.set_status "running" t)) d
  | None => d
  end.

Fixpoint stored (tid : string) (total i : nat) (results : list Base.ScraperResult)
    (d : Database.DB) : Database.DB :=
  match results with
  | [] => d
  | result :: rest =>
      let d1 := Database.finding_added (to_finding tid result) d in
      let d2 := match find_task tid d1 with
                | Some _ => Database.tasks_updated tid
                              (Database.set_progress (progress_of i total)) d1
                | None => d1
                end in
      stored tid total (S i) rest d2
  end.

Definition report_of (tid : string) (results : list Base.ScraperResult)
    : Database.ThreatReport :=
  let report_data := ThreatScorer.analyze_findings results in
  {| Database.report_task_id := tid;
     Database.overall_score := ThreatScorer.overall_score report_data;
     Database.risk_level := ThreatScorer.risk_level report_data;
     Database.summary := ThreatScorer.summary report_data;
     Database.recommendations := ThreatScorer.recommendations report_data;
     Database.category_scores := ThreatScorer.category_scores report_data |}.

Definition scan_completed (tid : string) (k : Z) (d : Database.DB) : Database.DB :=
  match find_task tid d with
  | Some _ =>
      Database.tasks_updated tid
        (fun t => Database.set_completed_at k
                    (Database.set_progress 100 (Database.set_status "completed" t))) d
  | None => d
  end.

Definition scanned (tid : string) (k : Z) (results : list Base.ScraperResult)
    (d : Database.DB) : Database.DB :=
  scan_completed tid k
    (Database.report_added (report_of tid results)
       (stored tid (length results) 0 results (scan_started tid d))).

(** Probe worlds: nothing is found; every probe times out. *)
Definition quiet_net : Network := fun _ _ _ => ReturnsNotFound.

Definition timeout_net : Network := fun _ _ _ => TimesOut.

(** A probe world with one hit, one timeout and one failure. *)
Definition flaky_net : Network :=
  fun s _ _ =>
    if String.eqb (platform_name s) "Reddit"
    then ReturnsOk "https://www.reddit.com/user/someone" ∅
    else if String.eqb (platform_name s) "GitHub" then TimesOut
    else if String.eqb (platform_name s) "Shodan" then Fails "connection reset"
    else ReturnsNotFound.

Definition github : BaseScraper :=
  scraper "GitHub" "https://api.github.com/users" "REPUTATIONAL".

(** No task of the tables is in status "failed". *)
Definition no_failed (d : Database.DB) : Prop :=
  List.Forall (fun t => Database.status t <> "failed") (Database.scan_tasks d).

(** A coroutine that, whether it returns, raises or hangs, puts no task
    in status "failed", neither in the open session nor in the durable
    tables. *)
Definition marks_none_failed {A} (c : Database.Async A) : Prop :=
  forall w, no_failed (Database.committed w) -> no_failed (Database.session w) ->
            no_failed (Database.committed (c w).2) /\ no_failed (Database.session (c w).2).

(** The status of task [tid] in the durable tables. *)
Definition status_of (tid : string) (w : Database.World) : option string :=
  Database.status <$> find_task tid (Database.committed w).

Definition pending_task (tid : string) : Database.ScanTask :=
  {| Database.id := tid; Database.query := "a@b.c"; Database.query_type := "email";
     Database.status := "pending"; Database.progress := 0;
     Database.created_at := 1000; Database.completed_at := None |}.

Definition fresh_db (tid : string) : Database.DB :=
  {| Database.scan_tasks := [pending_task tid]; Database.findings := [];
     Database.threat_reports := [] |}.

End ManagerSpec.

(** Closes an order between two closed rationals by evaluation. *)
Ltac q_compute :=
  vm_compute;
  first [ exact eq_refl | let H := fresh in intro H; discriminate H ].

(** Reference definitions for further properties of the scorer. *)
Module ReportSpec.

Import RiskCategories Base ThreatScorer Float64.
Local Open Scope string_scope.
Local Open Scope list_scope.

(** What the scorer reads of a result: the platform, the found flag, the
    number of data fields, and the category it is filed under. *)
Definition scored_alike (r r' : ScraperResult) : Prop :=
  platform r = platform r' /\ found r = found r' /\
  size (data r) = size (data r') /\ hit_category r = hit_category r'.

(** The found results filed under a category, in input order. *)
Definition hits_of (cat : RiskCategory) (results : list ScraperResult)
    : list ScraperResult :=
  List.filter (fun r => found r && bool_decide (hit_category r = value cat)) results.

(** What the score of a hit is computed from. *)
Definition same_points (r r' : ScraperResult) : Prop :=
  platform r = platform r' /\ size (data r) = size (data r').

(** The block of recommendations of a category. *)
Definition rec_block (cat : RiskCategory) : list string :=
  match cat with
  | DATA_BREACH => breach_recs
  | INFRASTRUCTURE => infrastructure_recs
  | PHISHING => phishing_recs
  | IMPERSONATION => impersonation_recs
  | STALKING => stalking_recs
  | REPUTATIONAL => reputational_recs
  end.

(** The order in which [_generate_recommendations] goes through the
    categories. *)
Definition rec_order : list RiskCategory :=
  [DATA_BREACH; INFRASTRUCTURE; PHISHING; IMPERSONATION; STALKING; REPUTATIONAL].

(** The recommendations, from which categories have a hit ([hit]) and
    whether anything was found at all ([any]). *)
Definition recs_of (hit : RiskCategory -> bool) (any : bool) : list string :=
  let recs :=
    flat_map (fun cat => if hit cat then rec_block cat else []) rec_order
    ++ (if any then general_recs else []) in
  match recs with [] => [no_action_rec] | _ :: _ => recs end.

(** Whether every entry of [block] is in [recs]. *)
Definition has_block (block recs : list string) : bool :=
  forallb (fun x => existsb (String.eqb x) recs) block.

(** Whether a category has a hit, and whether anything was found. *)
Definition hit_in (results : list ScraperResult) (cat : RiskCategory) : bool :=
  match hits_of cat results with [] => false | _ :: _ => true end.

Definition any_found (results : list ScraperResult) : bool :=
  match List.filter found results with [] => false | _ :: _ => true end.

(** A result with its category replaced. *)
Definition with_category (c : string) (r : ScraperResult) : ScraperResult :=
  {| platform := platform r; url := url r; found := found r; data := data r;
     risk_category := c; risk_score := risk_score r; error := error r |}.

(** Sample results. *)
Definition github_hit : ScraperResult :=
  {| platform := "GitHub"; url := Some "https://github.com/someone";
     found := true; data := {[ "username" := DStr "someone" ]};
     risk_category := "REPUTATIONAL"; risk_score := lit 0.0; error := None |}.

Definition odd_hit : ScraperResult :=
  {| platform := "Mastodon"; url := None; found := true; data := ∅;
     risk_category := "SOCIAL"; risk_score := lit 0.0; error := None |}.

End ReportSpec.

(** Reference definitions for further properties of the store. *)
Module RetentionSpec.

Import Database.
Local Open Scope Z_scope.

(** The TTL a sweep uses: the explicit one when given. *)
Definition ttl_of (cfg : Config.Settings) (ttl_hours : option Z) : Z :=
  match ttl_hours with Some h => h | None => Config.DATA_TTL_HOURS cfg end.

(** Every row of [d'] is a row of [d]. *)
Definition sub_db (d' d : DB) : Prop :=
  incl (scan_tasks d') (scan_tasks d) /\
  incl (findings d') (findings d) /\
  incl (threat_reports d') (threat_reports d).

(** A coroutine that adds no row and alters none, in the open session
    and in the durable tables. *)
Definition adds_no_row {A} (c : Async A) : Prop :=
  forall w d, sub_db (committed w) d -> sub_db (session w) d ->
              sub_db (committed (c w).2) d /\ sub_db (session (c w).2) d.

(** The statements of a sweep that selected [expired], in the order
    they are sent. *)
Definition sweep_statements (cutoff : Z) (expired : list ScanTask) : list Event :=
  ESelectExpired cutoff
  :: flat_map (fun t => StoreSpec.wipe_events (id t)) expired ++ [ECommit].

(** The storage layer answers the first [n] round trips of the script. *)
Definition answers (n : nat) (fs : list bool) : Prop :=
  forall i, (i < n)%nat -> nth i fs false = false.


(** The world after [n] round trips [evs] of an open session that is now
    at [s]. *)
Definition world_at (w : World) (s : DB) (n : nat) (evs : list Event) : World :=
  {| committed := committed w; session := s; clock := clock w;
     faults := skipn n (faults w); trace := trace w ++ evs |}.

End RetentionSpec.

(** Reference definitions for further properties of the orchestrator. *)
Module ScanSpec.

Import Database Manager ManagerSpec Float64.
Local Open Scope string_scope.
Local Open Scope list_scope.

(** A task as the last block of [run_scan] leaves it at time [k]. *)
Definition finished (k : Z) (t : ScanTask) : ScanTask :=
  {| id := id t; query := query t; query_type := query_type t;
     status := "completed"; progress := 100; created_at := created_at t;
     completed_at := Some k |}.

(** A task some blocks of [run_scan] have written to. *)
Definition in_progress (tid : string) (t' t : ScanTask) : Prop :=
  t' = t \/
  (Database.id t = tid /\ Database.id t' = Database.id t /\
   Database.query t' = Database.query t /\
   Database.query_type t' = Database.query_type t /\
   created_at t' = created_at t).

(** The findings and reports in the durable tables and in the open
    session. *)
Definition rows_are (F : list Finding) (R : list ThreatReport) (w : World) : Prop :=
  findings (committed w) = F /\ findings (session w) = F /\
  threat_reports (committed w) = R /\ threat_reports (session w) = R.

(** The findings and reports in the durable tables. *)
Definition durable_rows (F : list Finding) (R : list ThreatReport) (w : World) : Prop :=
  findings (committed w) = F /\ threat_reports (committed w) = R.

(** A coroutine that leaves the findings and the reports alone. *)
Definition keeps_rows {A} (c : Async A) : Prop :=
  forall w F R, rows_are F R w -> rows_are F R (c w).2.

(** A coroutine that works on the open session only, leaves its reports
    alone and, when it returns, has added the findings [G] to it. *)
Definition appends {A} (G : list Finding) (c : Async A) : Prop :=
  forall w,
    committed (c w).2 = committed w /\
    threat_reports (session (c w).2) = threat_reports (session w) /\
    (forall a, (c w).1 = Ok a -> findings (session (c w).2) = findings (session w) ++ G).

(** The float sum of [k] platform scores of 10.0 each, from [s]. *)
Fixpoint tens_from (s : Q) (k : nat) : Q :=
  match k with
  | O => s
  | S k' => tens_from (fadd s (lit 10.0)) k'
  end.

(** The normalized score of a category whose hits sum to [s]. *)
Definition scaled (s : Q) : Q :=
  fmin (fmul (fdiv s (lit 30.0)) (lit 100.0)) (lit 100.0).

(** The number of registered scrapers of a category among those [may]
    selects. *)
Definition registered (may : BaseScraper -> bool) (cat : RiskCategories.RiskCategory) : nat :=
  length (List.filter
            (fun s => may s && bool_decide (scraper_category s = RiskCategories.value cat))
            _all_scrapers).

(** The most a category can score with [k] hits. *)
Definition most (k : nat) : Q :=
  match k with O => lit 0.0 | S _ => scaled (tens_from (lit 0.0) k) end.

End ScanSpec.

(** Reference definitions for the scrapers. *)
Module ScrapersSpec.

Import Manager Scrapers.
Local Open Scope string_scope.
Local Open Scope list_scope.

(** The classes whose [check] can send a request, for an email query
    ([email = true]) and for any other query. *)
Definition sends (email : bool) (c : ScraperClass) : bool :=
  match c with
  | GitHubScraper | DehashedScraper | ShodanScraper => true
  | HIBPScraper | GravatarScraper => email
  | _ => negb email
  end.

Definition may_find (email : bool) (s : BaseScraper) : bool :=
  match class_of s with
  | Some c => sends email c
  | None => false
  end.

(** The mail providers [ShodanScraper] skips. *)
Definition common_providers : list string :=
  ["gmail.com"; "yahoo.com"; "hotmail.com"; "outlook.com"].

(** Sample environment: both keys set, a stand-in for the hash, and a
    world in which every request finds a profile. *)
Definition both_keys : Keys := {| HIBP_API_KEY := "k1"; SHODAN_API_KEY := "k2" |}.

Definition sample_hash (q : string) : string := "0cc175b9c0f1b6a831c399e269772661".

Definition all_found : ScraperClass -> Request -> CheckBehaviour :=
  fun _ req => ReturnsOk (req_url req) ∅.

End ScrapersSpec.

(** Reference definitions for the search endpoint. *)
Module ApiSpec.

Import Database Api.
Local Open Scope string_scope.
Local Open Scope list_scope.

(** The row [start_search] adds at time [k]. *)
Definition new_task (new_id : string) (request : Schemas.SearchRequest) (k : Z) : ScanTask :=
  {| id := new_id;
     query := PyText.strip (Schemas.query request);
     query_type := Schemas.query_type request;
     status := "pending";
     progress := 0;
     created_at := k;
     completed_at := None |}.

(** The call it queues. *)
Definition new_call (new_id : string) (request : Schemas.SearchRequest) : ScanCall :=
  {| call_task_id := new_id;
     call_query := PyText.strip (Schemas.query request);
     call_query_type := Schemas.query_type request |}.

(** A query of [n] blanks. *)
Fixpoint blanks (n : nat) : string :=
  match n with
  | O => EmptyString
  | S k => String " " (blanks k)
  end.

Definition sample_request : Schemas.SearchRequest :=
  {| Schemas.query := "  someone "; Schemas.query_type := "username" |}.

End ApiSpec.

(* ===================================================================== *)
(** * Part II: properties                                                 *)
(* ===================================================================== *)

(** ** Rounding to binary64 is monotone and idempotent *)

Import Float64.

Section Pow2.

Lemma pow2_pos (e : Z) : 0 < 2 ^ e.
Proof. apply Qpower_0_lt. reflexivity. Qed.

Lemma pow2_plus (a b : Z) : 2 ^ (a + b) == 2 ^ a * 2 ^ b.
Proof. apply Qpower_plus. discriminate. Qed.

Lemma pow2_succ (e : Z) : 2 ^ (e + 1) == 2 * 2 ^ e.
Proof. rewrite pow2_plus. change (2 ^ 1) with 2. ring. Qed.

Lemma pow2_le (a b : Z) : (a <= b)%Z -> 2 ^ a <= 2 ^ b.
Proof. intros H. apply Qpower_le_compat_l; [exact H | discriminate]. Qed.

Lemma pow2_lt (a b : Z) : (a < b)%Z -> 2 ^ a < 2 ^ b.
Proof. intros H. apply Qpower_lt_compat_l; [exact H | reflexivity]. Qed.

Lemma pow2_lt_inv (a b : Z) : 2 ^ a < 2 ^ b -> (a < b)%Z.
Proof. intros H. apply (Qpower_lt_compat_l_inv 2); [exact H | reflexivity]. Qed.

Lemma pow2_inject (a : Z) : (0 <= a)%Z -> inject_Z (2 ^ a) == 2 ^ a.
Proof. intros H. apply (Zpower_Qpower 2 a H). Qed.

End Pow2.

Section Rne.

Lemma rne_bounds (q : Q) : (Qfloor q <= rne q <= Qfloor q + 1)%Z.
Proof.
  unfold rne. destruct (Qcompare _ _); [destruct (Z.even _) | |]; lia.
Qed.

Lemma rne_mono (p q : Q) : p <= q -> (rne p <= rne q)%Z.
Proof.
  intros Hpq.
  pose proof (Qfloor_resp_le _ _ Hpq) as Hf.
  destruct (Z.eq_dec (Qfloor p) (Qfloor q)) as [E | N].
  - unfold rne. rewrite <- E.
    destruct (Qcompare (p - inject_Z (Qfloor p)) (1 # 2)) eqn:Cp;
      destruct (Qcompare (q - inject_Z (Qfloor p)) (1 # 2)) eqn:Cq;
      try (destruct (Z.even (Qfloor p))); try lia; exfalso;
      repeat match goal with
      | H : Qcompare _ _ = Eq |- _ => apply Qeq_alt in H
      | H : Qcompare _ _ = Lt |- _ => apply Qlt_alt in H
      | H : Qcompare _ _ = Gt |- _ => apply Qgt_alt in H
      end; lra.
  - pose proof (rne_bounds p). pose proof (rne_bounds q). lia.
Qed.

Lemma rne_wd (p q : Q) : p == q -> rne p = rne q.
Proof.
  intros H. unfold rne.
  rewrite (Qfloor_comp _ _ H).
  rewrite (Qcompare_comp (p - inject_Z (Qfloor q)) (q - inject_Z (Qfloor q))
             ltac:(rewrite H; reflexivity) (1 # 2) (1 # 2) ltac:(reflexivity)).
  reflexivity.
Qed.

Lemma rne_Z (n : Z) : rne (inject_Z n) = n.
Proof.
  unfold rne. rewrite Qfloor_Z.
  assert (E : Qcompare (inject_Z n - inject_Z n) (1 # 2) = Lt).
  { apply Qlt_alt.
    assert (H : inject_Z n - inject_Z n == 0) by ring.
    rewrite H. reflexivity. }
  rewrite E. reflexivity.
Qed.

End Rne.

Section Ilog2.

Lemma ilog2_spec (x : Q) : 0 < x -> 2 ^ ilog2 x <= x /\ x < 2 ^ (ilog2 x + 1).
Proof.
  intros Hx. destruct x as [n d]. 
  assert (Hn : (0 < n)%Z).
  { unfold Qlt in Hx. simpl in Hx. lia. }
  unfold ilog2. cbn [Qnum Qden].
  set (a := Z.log2 n). set (b := Z.log2 (Z.pos d)).
  assert (Ha : (0 <= a)%Z) by apply Z.log2_nonneg.
  assert (Hb : (0 <= b)%Z) by apply Z.log2_nonneg.
  destruct (Z.log2_spec n Hn) as [Ha1 Ha2]. fold a in Ha1, Ha2.
  destruct (Z.log2_spec (Z.pos d) ltac:(lia)) as [Hb1 Hb2]. fold b in Hb1, Hb2.
  pose proof (pow2_pos (a - b)) as P0.
  pose proof (pow2_pos (a - b - 1)) as P1.
  pose proof (pow2_pos b) as Pb.
  assert (Ea : 2 ^ a == 2 ^ (a - b) * 2 ^ b).
  { rewrite <- pow2_plus. replace (a - b + b)%Z with a by lia. reflexivity. }
  assert (Es : 2 ^ (a - b) == 2 * 2 ^ (a - b - 1)).
  { rewrite <- pow2_succ. replace (a - b - 1 + 1)%Z with (a - b)%Z by lia. reflexivity. }
  assert (Es' : 2 ^ (a - b + 1) == 2 * 2 ^ (a - b)) by apply pow2_succ.
  (* the bounds of numerator and denominator, as rationals *)
  assert (Qa1 : 2 ^ a <= inject_Z n).
  { rewrite <- pow2_inject by lia. rewrite <- Zle_Qle. exact Ha1. }
  assert (Qa2 : inject_Z n < 2 * 2 ^ a).
  { apply Qlt_le_trans with (inject_Z (2 ^ (a + 1))).
    - rewrite <- Zlt_Qlt. exact Ha2.
    - rewrite pow2_inject by lia. rewrite pow2_succ. apply Qle_refl. }
  assert (Qb1 : 2 ^ b <= inject_Z (Z.pos d)).
  { rewrite <- pow2_inject by lia. rewrite <- Zle_Qle. exact Hb1. }
  assert (Qb2 : inject_Z (Z.pos d) < 2 * 2 ^ b).
  { apply Qlt_le_trans with (inject_Z (2 ^ (b + 1))).
    - unfold Qlt, inject_Z; cbn [Qnum Qden]. unfold Z.succ in Hb2. lia.
    - rewrite pow2_inject by lia. rewrite pow2_succ. apply Qle_refl. }
  assert (Ex : (n # d) * inject_Z (Z.pos d) == inject_Z n).
  { rewrite (Qmake_Qdiv n d). field. intros E. 
    assert (0 < inject_Z (Z.pos d)) by reflexivity. lra. }
  set (x := n # d) in *. set (N := inject_Z n) in *. set (D := inject_Z (Z.pos d)) in *.
  set (A := 2 ^ a) in *. set (B := 2 ^ b) in *.
  set (E0 := 2 ^ (a - b)) in *. set (E1 := 2 ^ (a - b - 1)) in *.
  destruct (Qle_bool E0 x) eqn:Hc.
  - apply Qle_bool_iff in Hc. split; [exact Hc |].
    rewrite Es'. nra.
  - assert (Hlt : x < E0).
    { apply Qnot_le_lt. intros H. apply Qle_bool_iff in H. congruence. }
    replace (a - b - 1 + 1)%Z with (a - b)%Z by lia. fold E0. fold E1.
    split; [| exact Hlt]. nra.
Qed.

Lemma ilog2_unique (x : Q) (e : Z) : 2 ^ e <= x -> x < 2 ^ (e + 1) -> ilog2 x = e.
Proof.
  intros H1 H2.
  assert (Hx : 0 < x) by (pose proof (pow2_pos e); lra).
  destruct (ilog2_spec x Hx) as [S1 S2].
  assert (ilog2 x < e + 1)%Z by (apply pow2_lt_inv; lra).
  assert (e < ilog2 x + 1)%Z by (apply pow2_lt_inv; lra).
  lia.
Qed.

Lemma ilog2_mono (x y : Q) : 0 < x -> x <= y -> (ilog2 x <= ilog2 y)%Z.
Proof.
  intros Hx Hxy.
  destruct (ilog2_spec x Hx) as [S1 _].
  destruct (ilog2_spec y ltac:(lra)) as [_ S2].
  assert (ilog2 x < ilog2 y + 1)%Z by (apply pow2_lt_inv; lra).
  lia.
Qed.

Lemma ilog2_wd (x y : Q) : 0 < x -> x == y -> ilog2 x = ilog2 y.
Proof.
  intros Hx E. symmetry.
  destruct (ilog2_spec x Hx) as [S1 S2].
  apply ilog2_unique; lra.
Qed.

End Ilog2.

Section Fl.

Lemma ulp_pos (x : Q) : 0 < ulp x.
Proof. apply pow2_pos. Qed.

Lemma ulp_scale (x : Q) :
  2 ^ ilog2 x == 2 ^ 52 * ulp x /\ 2 ^ (ilog2 x + 1) == 2 ^ 53 * ulp x.
Proof.
  unfold ulp. split; rewrite <- pow2_plus; apply Qpower_comp_eq || idtac.
  - replace (52 + (ilog2 x - 52))%Z with (ilog2 x) by lia. reflexivity.
  - replace (53 + (ilog2 x - 52))%Z with (ilog2 x + 1)%Z by lia. reflexivity.
Qed.

Lemma scaled_bounds (x : Q) : 0 < x -> 2 ^ 52 <= x / ulp x /\ x / ulp x < 2 ^ 53.
Proof.
  intros Hx. destruct (ilog2_spec x Hx) as [S1 S2].
  destruct (ulp_scale x) as [E1 E2]. pose proof (ulp_pos x) as Hu.
  split.
  - apply Qle_shift_div_l; [exact Hu | lra].
  - apply Qlt_shift_div_r; [exact Hu | lra].
Qed.

Lemma mant_bounds (x : Q) : 0 < x -> (2 ^ 52 <= rne (x / ulp x) <= 2 ^ 53)%Z.
Proof.
  intros Hx. destruct (scaled_bounds x Hx) as [B1 B2].
  split.
  - rewrite <- (rne_Z (2 ^ 52)%Z). apply rne_mono.
    rewrite pow2_inject by lia. exact B1.
  - rewrite <- (rne_Z (2 ^ 53)%Z). apply rne_mono.
    rewrite pow2_inject by lia. lra.
Qed.

Lemma fl_pos_eq (x : Q) : fl_pos x == inject_Z (rne (x / ulp x)) * ulp x.
Proof. apply Qred_correct. Qed.

Lemma fl_pos_bounds (x : Q) :
  0 < x -> 2 ^ ilog2 x <= fl_pos x /\ fl_pos x <= 2 ^ (ilog2 x + 1).
Proof.
  intros Hx. destruct (mant_bounds x Hx) as [M1 M2].
  destruct (ulp_scale x) as [E1 E2]. pose proof (ulp_pos x) as Hu.
  rewrite fl_pos_eq, E1, E2.
  rewrite Zle_Qle in M1, M2. rewrite pow2_inject in M1, M2 by lia.
  split; nra.
Qed.

Lemma fl_pos_pos (x : Q) : 0 < x -> 0 < fl_pos x.
Proof.
  intros Hx. destruct (fl_pos_bounds x Hx) as [B _].
  pose proof (pow2_pos (ilog2 x)). lra.
Qed.

Lemma fl_pos_mono (x y : Q) : 0 < x -> x <= y -> fl_pos x <= fl_pos y.
Proof.
  intros Hx Hxy. assert (Hy : 0 < y) by lra.
  pose proof (ilog2_mono x y Hx Hxy) as He.
  destruct (Z.eq_dec (ilog2 x) (ilog2 y)) as [E | N].
  - rewrite !fl_pos_eq. unfold ulp. rewrite <- E.
    pose proof (pow2_pos (ilog2 x - 52)) as Hu.
    assert (Hq : x / 2 ^ (ilog2 x - 52) <= y / 2 ^ (ilog2 x - 52)).
    { apply Qle_shift_div_l; [exact Hu |].
      assert (Ex : x / 2 ^ (ilog2 x - 52) * 2 ^ (ilog2 x - 52) == x) by (field; lra).
      lra. }
    apply rne_mono in Hq. rewrite Zle_Qle in Hq. nra.
  - destruct (fl_pos_bounds x Hx) as [_ Bx]. destruct (fl_pos_bounds y Hy) as [By _].
    assert (2 ^ (ilog2 x + 1) <= 2 ^ ilog2 y) by (apply pow2_le; lia).
    lra.
Qed.

Lemma fl_pos_wd (x y : Q) : 0 < x -> x == y -> fl_pos x = fl_pos y.
Proof.
  intros Hx E. unfold fl_pos, ulp. rewrite (ilog2_wd x y Hx E).
  apply Qred_complete.
  rewrite (rne_wd (x / 2 ^ (ilog2 y - 52)) (y / 2 ^ (ilog2 y - 52))).
  - reflexivity.
  - rewrite E. reflexivity.
Qed.

Lemma fl_pos_idem (x : Q) : 0 < x -> fl_pos (fl_pos x) = fl_pos x.
Proof.
  intros Hx. destruct (mant_bounds x Hx) as [M1 M2].
  destruct (ulp_scale x) as [E1 E2]. pose proof (ulp_pos x) as Hu.
  pose proof (fl_pos_eq x) as Ev.
  set (m := rne (x / ulp x)) in *.
  assert (Q1 : 2 ^ 52 <= inject_Z m).
  { rewrite Zle_Qle in M1. rewrite pow2_inject in M1 by lia. exact M1. }
  destruct (Z.eq_dec m (2 ^ 53)%Z) as [Top | Below].
  - (* the significand rounded up into the next binade *)
    assert (Ev' : fl_pos x == 2 ^ (ilog2 x + 1)).
    { rewrite Ev, E2, Top. rewrite pow2_inject by lia. reflexivity. }
    assert (El : ilog2 (fl_pos x) = (ilog2 x + 1)%Z).
    { apply ilog2_unique.
      - rewrite Ev'. apply Qle_refl.
      - rewrite Ev'. apply pow2_lt. lia. }
    unfold fl_pos at 1. unfold ulp at 1 2. rewrite El.
    unfold fl_pos at 2. apply Qred_complete. fold m.
    assert (Eu : 2 ^ (ilog2 x + 1 - 52) == 2 * ulp x).
    { unfold ulp. rewrite <- pow2_succ. 
      replace (ilog2 x - 52 + 1)%Z with (ilog2 x + 1 - 52)%Z by lia. reflexivity. }
    pose proof (pow2_pos (ilog2 x + 1 - 52)) as Hu'.
    rewrite (rne_wd _ (inject_Z (2 ^ 52)%Z)).
    + rewrite rne_Z, Top, Eu. 
      rewrite !pow2_inject by lia. change (2 ^ 53) with (2 * 2 ^ 52). ring.
    + rewrite Ev', Eu, E2, pow2_inject by lia.
      change (2 ^ 53) with (2 * 2 ^ 52). field. lra.
  - assert (Q2 : inject_Z m <= 2 ^ 53 - 1).
    { assert (m <= 2 ^ 53 - 1)%Z as H by lia. rewrite Zle_Qle in H.
      unfold Zminus in H. rewrite inject_Z_plus in H. rewrite pow2_inject in H by lia.
      exact H. }
    assert (El : ilog2 (fl_pos x) = ilog2 x).
    { apply ilog2_unique; rewrite Ev; [rewrite E1 | rewrite E2]; nra. }
    unfold fl_pos at 1. unfold ulp at 1 2. rewrite El.
    unfold fl_pos at 2. apply Qred_complete. fold (ulp x). fold m.
    rewrite (rne_wd _ (inject_Z m)).
    + rewrite rne_Z. reflexivity.
    + rewrite Ev. field. lra.
Qed.

Lemma fl_0 : fl 0 = 0.
Proof. reflexivity. Qed.

Lemma fl_gt (x : Q) : 0 < x -> fl x = fl_pos x.
Proof.
  intros Hx. unfold fl.
  destruct (Qcompare x 0) eqn:C; [apply Qeq_alt in C | apply Qlt_alt in C |];
    solve [reflexivity | lra].
Qed.

Lemma fl_lt (x : Q) : x < 0 -> fl x = Qred (- fl_pos (- x)).
Proof.
  intros Hx. unfold fl.
  destruct (Qcompare x 0) eqn:C; [apply Qeq_alt in C | | apply Qgt_alt in C];
    solve [reflexivity | lra].
Qed.

Lemma fl_eq0 (x : Q) : x == 0 -> fl x = 0.
Proof.
  intros Hx. unfold fl.
  destruct (Qcompare x 0) eqn:C; [| apply Qlt_alt in C | apply Qgt_alt in C];
    solve [reflexivity | lra].
Qed.

Lemma fl_nonneg (x : Q) : 0 <= x -> 0 <= fl x.
Proof.
  intros Hx. destruct (Qlt_le_dec 0 x) as [P | N].
  - rewrite (fl_gt x P). apply Qlt_le_weak, fl_pos_pos, P.
  - rewrite (fl_eq0 x); [apply Qle_refl | lra].
Qed.

Lemma fl_mono (x y : Q) : x <= y -> fl x <= fl y.
Proof.
  intros Hxy.
  destruct (Q_dec x 0) as [[Xn | Xp] | X0].
  - rewrite (fl_lt x Xn), Qred_correct.
    pose proof (fl_pos_pos (- x) ltac:(lra)) as Px.
    destruct (Q_dec y 0) as [[Yn | Yp] | Y0].
    + rewrite (fl_lt y Yn), Qred_correct.
      pose proof (fl_pos_mono (- y) (- x) ltac:(lra) ltac:(lra)). lra.
    + rewrite (fl_gt y Yp). pose proof (fl_pos_pos y Yp). lra.
    + rewrite (fl_eq0 y Y0). lra.
  - rewrite (fl_gt x Xp), (fl_gt y ltac:(lra)). apply fl_pos_mono; assumption.
  - rewrite (fl_eq0 x X0). apply fl_nonneg. lra.
Qed.

Lemma fl_wd (x y : Q) : x == y -> fl x = fl y.
Proof.
  intros E.
  destruct (Q_dec x 0) as [[Xn | Xp] | X0].
  - rewrite (fl_lt x Xn), (fl_lt y ltac:(lra)).
    f_equal. f_equal. apply fl_pos_wd; lra.
  - rewrite (fl_gt x Xp), (fl_gt y ltac:(lra)). apply fl_pos_wd; assumption.
  - rewrite (fl_eq0 x X0), (fl_eq0 y ltac:(lra)). reflexivity.
Qed.

Lemma fl_idem (x : Q) : fl (fl x) = fl x.
Proof.
  destruct (Q_dec x 0) as [[Xn | Xp] | X0].
  - pose proof (fl_pos_pos (- x) ltac:(lra)) as Px.
    rewrite (fl_lt x Xn).
    rewrite fl_lt by (rewrite Qred_correct; lra).
    f_equal. f_equal.
    rewrite (fl_pos_wd (- Qred (- fl_pos (- x))) (fl_pos (- x))).
    + apply fl_pos_idem. lra.
    + rewrite Qred_correct. lra.
    + rewrite Qred_correct. ring.
  - rewrite (fl_gt x Xp). rewrite (fl_gt _ (fl_pos_pos x Xp)).
    apply fl_pos_idem, Xp.
  - rewrite (fl_eq0 x X0). reflexivity.
Qed.

End Fl.

(** ** The float operations are monotone *)

Section FloatOps.

Lemma Qle_bool_false (a b : Q) : Qle_bool a b = false -> b < a.
Proof.
  intros H. apply Qnot_le_lt. intros L. apply Qle_bool_iff in L. congruence.
Qed.

Lemma lit_float (d : Q) : fl (lit d) = lit d.
Proof. apply fl_idem. Qed.

Lemma fadd_float (a b : Q) : fl (fadd a b) = fadd a b.
Proof. apply fl_idem. Qed.

Lemma fadd_mono (a a' b b' : Q) : a <= a' -> b <= b' -> fadd a b <= fadd a' b'.
Proof. intros Ha Hb. apply fl_mono. lra. Qed.

Lemma fadd_nonneg (a b : Q) : 0 <= a -> 0 <= b -> 0 <= fadd a b.
Proof. intros Ha Hb. apply fl_nonneg. lra. Qed.

(** Adding a non-negative float never goes below the float it is added to. *)
Lemma fadd_ge_l (a b : Q) : fl a = a -> 0 <= b -> a <= fadd a b.
Proof.
  intros Fa Hb. rewrite <- Fa at 1. apply fl_mono. lra.
Qed.

Lemma fmul_mono_l (a a' w : Q) : 0 <= w -> a <= a' -> fmul a w <= fmul a' w.
Proof. intros Hw Ha. apply fl_mono. nra. Qed.

Lemma fmul_nonneg (a b : Q) : 0 <= a -> 0 <= b -> 0 <= fmul a b.
Proof. intros Ha Hb. apply fl_nonneg. nra. Qed.

Lemma fdiv_mono_l (a a' d : Q) : 0 < d -> a <= a' -> fdiv a d <= fdiv a' d.
Proof.
  intros Hd Ha. apply fl_mono. unfold Qdiv.
  assert (0 < / d) by (apply Qinv_lt_0_compat; exact Hd). nra.
Qed.

Lemma fdiv_nonneg (a d : Q) : 0 <= a -> 0 < d -> 0 <= fdiv a d.
Proof.
  intros Ha Hd. apply fl_nonneg. unfold Qdiv.
  assert (0 < / d) by (apply Qinv_lt_0_compat; exact Hd). nra.
Qed.

Lemma fmin_mono_l (a a' c : Q) : a <= a' -> fmin a c <= fmin a' c.
Proof.
  intros Ha. unfold fmin.
  destruct (Qle_bool a c) eqn:E1; destruct (Qle_bool a' c) eqn:E2;
    try apply Qle_bool_iff in E1; try apply Qle_bool_iff in E2;
    try apply Qle_bool_false in E1; try apply Qle_bool_false in E2; lra.
Qed.

Lemma fmin_nonneg (a c : Q) : 0 <= a -> 0 <= c -> 0 <= fmin a c.
Proof. intros Ha Hc. unfold fmin. destruct (Qle_bool a c); assumption. Qed.

Lemma round1_mono (x y : Q) : x <= y -> round1 x <= round1 y.
Proof.
  intros H. unfold round1, round1_tenths. apply fl_mono.
  assert (R : (rne (10 * x) <= rne (10 * y))%Z) by (apply rne_mono; lra).
  rewrite Zle_Qle in R. unfold Qdiv.
  apply Qmult_le_compat_r; [exact R | discriminate].
Qed.

End FloatOps.

(** ** The scorer *)

Import RiskCategories Base ThreatScorer Spec.

Section Grouping.

Lemma group_hits_snoc (l : list ScraperResult) (r : ScraperResult) :
  group_hits (l ++ [r]) = add_hit (group_hits l) r.
Proof. unfold group_hits. rewrite fold_left_app. reflexivity. Qed.

Lemma hits_for_snoc (k : string) (l : list ScraperResult) (r : ScraperResult) :
  hits_for k (l ++ [r]) =
  hits_for k l ++ (if bool_decide (hit_category r = k) then [r] else []).
Proof. unfold hits_for. rewrite List.filter_app. reflexivity. Qed.

(** The dict built by [setdefault(...).append(...)] holds, under each key
    that occurs, the found results of that key in input order. *)
Lemma group_hits_lookup (l : list ScraperResult) (k : string) :
  group_hits l !! k = match hits_for k l with [] => None | h :: t => Some (h :: t) end.
Proof.
  induction l as [| r l IH] using rev_ind.
  - reflexivity.
  - rewrite group_hits_snoc, hits_for_snoc. unfold add_hit.
    rewrite lookup_insert. case_decide as E.
    + rewrite bool_decide_eq_true_2 by exact E. subst k.
      rewrite IH. destruct (hits_for (hit_category r) l); reflexivity.
    + rewrite bool_decide_eq_false_2 by exact E.
      rewrite app_nil_r. exact IH.
Qed.

Lemma group_hits_default (l : list ScraperResult) (k : string) :
  default [] (group_hits l !! k) = hits_for k l.
Proof. rewrite group_hits_lookup. destruct (hits_for k l); reflexivity. Qed.

Lemma group_hits_has_key (l : list ScraperResult) (k : string) :
  has_key (group_hits l) k = match hits_for k l with [] => false | _ :: _ => true end.
Proof.
  unfold has_key. rewrite group_hits_lookup.
  destruct (hits_for k l).
  - apply bool_decide_eq_false_2. intros [x Hx]. discriminate.
  - apply bool_decide_eq_true_2. eexists. reflexivity.
Qed.

End Grouping.

Section CategoryLoop.

Variable category_hits : gmap string (list ScraperResult).

Lemma loop_total (l : list RiskCategory) (a : Acc) :
  total_weighted_score (fold_left (category_step category_hits) l a) =
  fold_left (fun t cat =>
               fadd t (fmul (normalized_of (default [] (category_hits !! value cat)))
                            (_category_weight cat)))
            l (total_weighted_score a).
Proof.
  revert a. induction l as [| c l IH]; intros a; [reflexivity |].
  cbn [fold_left]. rewrite IH. reflexivity.
Qed.

Lemma loop_max (l : list RiskCategory) (a : Acc) :
  max_possible_score (fold_left (category_step category_hits) l a) =
  fold_left (fun m cat => fadd m (fmul (lit 100.0) (_category_weight cat)))
            l (max_possible_score a).
Proof.
  revert a. induction l as [| c l IH]; intros a; [reflexivity |].
  cbn [fold_left]. rewrite IH. reflexivity.
Qed.

Lemma loop_scores (l : list RiskCategory) (a : Acc) :
  acc_scores (fold_left (category_step category_hits) l a) =
  acc_scores a ++
  map (fun cat => category_entry cat (default [] (category_hits !! value cat))) l.
Proof.
  revert a. induction l as [| c l IH]; intros a.
  - cbn [fold_left map]. rewrite app_nil_r. reflexivity.
  - cbn [fold_left map]. rewrite IH. cbn [category_step acc_scores].
    rewrite <- app_assoc. reflexivity.
Qed.

End CategoryLoop.

(** With the fixed weights the denominator is the float [100.0]. *)
Lemma max_possible_100 (category_hits : gmap string (list ScraperResult)) :
  max_possible_score (category_loop category_hits) = 100.
Proof. unfold category_loop. rewrite loop_max. vm_compute. reflexivity. Qed.

Lemma total_closed (found_results : list ScraperResult) :
  total_weighted_score (category_loop (group_hits found_results)) =
  weighted_total (fun cat => normalized_of (hits_for (value cat) found_results)).
Proof.
  unfold category_loop, weighted_total. rewrite loop_total.
  cbn [total_weighted_score].
  unfold all_categories. cbn [fold_left].
  rewrite !group_hits_default. reflexivity.
Qed.

(** The report lists all six categories, in enumeration order. *)
Lemma scores_closed (found_results : list ScraperResult) :
  acc_scores (category_loop (group_hits found_results)) =
  map (fun cat => category_entry cat (hits_for (value cat) found_results)) all_categories.
Proof.
  unfold category_loop. rewrite loop_scores. cbn [acc_scores app].
  unfold all_categories. cbn [map].
  rewrite !group_hits_default. reflexivity.
Qed.

(** The overall score, free of the dict and of the loop state. *)
Lemma overall_closed (results : list ScraperResult) :
  ThreatScorer.overall_score (analyze_findings results) =
  overall_of (weighted_total (cat_normalized results)) 100.
Proof.
  unfold analyze_findings. cbn [ThreatScorer.overall_score].
  rewrite max_possible_100, total_closed. reflexivity.
Qed.

(** ** Scores only grow with more hits *)

Section Monotone.

Lemma lit_zero : lit 0.0 = 0.
Proof. reflexivity. Qed.

Lemma base_score_nonneg (p : string) :
  0 <= default (lit 5.0) (PLATFORM_BASE_SCORES !! p).
Proof.
  destruct (PLATFORM_BASE_SCORES !! p) as [b |] eqn:E; cbn [default]; [| q_compute].
  unfold PLATFORM_BASE_SCORES in E.
  match type of E with
  | list_to_map ?l !! _ = _ =>
      assert (F : Forall (fun pb : string * Q => 0 <= pb.2) l)
        by (repeat (apply List.Forall_cons; [q_compute |]); apply List.Forall_nil)
  end.
  apply elem_of_list_to_map_2 in E.
  rewrite Forall_forall in F. exact (F _ E).
Qed.

Lemma data_bonus_nonneg (hit : ScraperResult) : 0 <= data_bonus hit.
Proof.
  unfold data_bonus. case_decide; [q_compute |].
  apply fmin_nonneg; [| q_compute].
  apply fmul_nonneg; [| q_compute].
  unfold of_int. apply fl_nonneg. change 0 with (inject_Z 0).
  rewrite <- Zle_Qle. lia.
Qed.

Lemma platform_score_nonneg (hit : ScraperResult) : 0 <= platform_score hit.
Proof.
  unfold platform_score. apply fmin_nonneg; [| q_compute].
  apply fadd_nonneg; [apply base_score_nonneg | apply data_bonus_nonneg].
Qed.

Lemma weight_nonneg (cat : RiskCategory) : 0 <= _category_weight cat.
Proof. destruct cat; q_compute. Qed.

Lemma sum_from_mono (hits : list ScraperResult) (s s' : Q) :
  s <= s' -> sum_from s hits <= sum_from s' hits.
Proof.
  revert s s'. induction hits as [| h hits IH]; intros s s' H; [exact H |].
  apply IH. apply fadd_mono; [exact H | apply Qle_refl].
Qed.

Lemma sum_from_float (hits : list ScraperResult) (s : Q) :
  fl s = s -> fl (sum_from s hits) = sum_from s hits.
Proof.
  revert s. induction hits as [| h hits IH]; intros s H; [exact H |].
  apply IH. apply fadd_float.
Qed.

Lemma sum_from_nonneg (hits : list ScraperResult) (s : Q) :
  0 <= s -> 0 <= sum_from s hits.
Proof.
  revert s. induction hits as [| h hits IH]; intros s H; [exact H |].
  apply IH. apply fadd_nonneg; [exact H | apply platform_score_nonneg].
Qed.

Lemma cat_score_insert (h1 h2 : list ScraperResult) (b : ScraperResult) :
  cat_score_of (h1 ++ h2) <= cat_score_of (h1 ++ b :: h2).
Proof.
  unfold cat_score_of. rewrite !fold_left_app. cbn [fold_left].
  apply sum_from_mono. apply fadd_ge_l.
  - apply (sum_from_float h1). apply lit_float.
  - apply platform_score_nonneg.
Qed.

Lemma cat_score_nonneg (hits : list ScraperResult) : 0 <= cat_score_of hits.
Proof. apply sum_from_nonneg. q_compute. Qed.

Lemma scaled_mono (s s' : Q) :
  s <= s' ->
  fmin (fmul (fdiv s (lit 30.0)) (lit 100.0)) (lit 100.0) <=
  fmin (fmul (fdiv s' (lit 30.0)) (lit 100.0)) (lit 100.0).
Proof.
  intros H. apply fmin_mono_l. apply fmul_mono_l; [q_compute |].
  apply fdiv_mono_l; [q_compute | exact H].
Qed.

Lemma normalized_nonneg (hits : list ScraperResult) : 0 <= normalized_of hits.
Proof.
  unfold normalized_of. destruct hits as [| h t]; [q_compute |].
  apply fmin_nonneg; [| q_compute].
  apply fmul_nonneg; [| q_compute].
  apply fdiv_nonneg; [apply cat_score_nonneg | q_compute].
Qed.

Lemma normalized_insert (h1 h2 : list ScraperResult) (b : ScraperResult) :
  normalized_of (h1 ++ h2) <= normalized_of (h1 ++ b :: h2).
Proof.
  destruct (h1 ++ h2) as [| x t] eqn:E.
  - change (normalized_of []) with (lit 0.0). rewrite lit_zero. apply normalized_nonneg.
  - rewrite <- E. unfold normalized_of. rewrite E.
    destruct (h1 ++ b :: h2) as [| y u] eqn:E'.
    + destruct h1; discriminate.
    + rewrite <- E, <- E'. apply scaled_mono, cat_score_insert.
Qed.

Lemma weighted_total_mono (n n' : RiskCategory -> Q) :
  (forall cat, n cat <= n' cat) -> weighted_total n <= weighted_total n'.
Proof.
  intros H. unfold weighted_total.
  assert (G : forall l s s', s <= s' ->
            fold_left (fun t cat => fadd t (fmul (n cat) (_category_weight cat))) l s <=
            fold_left (fun t cat => fadd t (fmul (n' cat) (_category_weight cat))) l s').
  { induction l as [| c l IH]; intros a a' Ha; [exact Ha |].
    cbn [fold_left]. apply IH. apply fadd_mono; [exact Ha |].
    apply fmul_mono_l; [apply weight_nonneg | apply H]. }
  apply G, Qle_refl.
Qed.

Lemma overall_of_mono (t t' : Q) : t <= t' -> overall_of t 100 <= overall_of t' 100.
Proof.
  intros H. unfold overall_of.
  replace (fgt 100 0) with true by reflexivity.
  apply round1_mono. apply fmul_mono_l; [q_compute |].
  apply fdiv_mono_l; [q_compute | exact H].
Qed.

Lemma hits_for_app (k : string) (l1 l2 : list ScraperResult) :
  hits_for k (l1 ++ l2) = hits_for k l1 ++ hits_for k l2.
Proof. apply List.filter_app. Qed.

Lemma cat_normalized_flip (l1 l2 : list ScraperResult) (r : ScraperResult)
    (cat : RiskCategory) :
  cat_normalized (l1 ++ with_found false r :: l2) cat <=
  cat_normalized (l1 ++ with_found true r :: l2) cat.
Proof.
  unfold cat_normalized. rewrite !List.filter_app. cbn [List.filter with_found found].
  rewrite !hits_for_app.
  change (hits_for (value cat) (with_found true r :: List.filter found l2))
    with (if bool_decide (hit_category (with_found true r) = value cat)
          then with_found true r :: hits_for (value cat) (List.filter found l2)
          else hits_for (value cat) (List.filter found l2)).
  destruct (bool_decide _).
  - apply normalized_insert.
  - apply Qle_refl.
Qed.

End Monotone.

(** C7: switching the [found] flag of any one result from false to true,
    every other field of every result unchanged, never lowers the overall
    score: each platform score is non-negative, float addition, the
    division by 30, the multiplications, both [min] caps and [round] are
    monotone. *)
Theorem overall_score_monotone_in_found
    (l1 l2 : list ScraperResult) (r : ScraperResult) :
  ThreatScorer.overall_score (analyze_findings (l1 ++ with_found false r :: l2)) <=
  ThreatScorer.overall_score (analyze_findings (l1 ++ with_found true r :: l2)).
Proof.
  rewrite !overall_closed.
  apply overall_of_mono, weighted_total_mono.
  intros cat. apply cat_normalized_flip.
Qed.

(** ** The overall score *)

(** C1, as stated, fails: on the single breach hit the scorer returns
    9.5, while [100 * sum(normalized_i * weight_i) / sum(weight_i)] is
    about 950; the code divides by the sum of [100 * weight_i]. *)
Lemma overall_score_is_not_spec_formula :
  ThreatScorer.overall_score (analyze_findings [hibp_hit]) == 9.5 /\
  949 < spec_overall [hibp_hit] /\
  ~ ThreatScorer.overall_score (analyze_findings [hibp_hit]) == spec_overall [hibp_hit].
Proof.
  assert (E : ThreatScorer.overall_score (analyze_findings [hibp_hit]) = lit 9.5)
    by (vm_compute; reflexivity).
  assert (S : 949 < spec_overall [hibp_hit]) by q_compute.
  assert (L : lit 9.5 < 949) by q_compute.
  split; [rewrite E; reflexivity |]. split; [exact S |].
  intros H. rewrite E in H. rewrite <- H in S.
  exact (Qlt_irrefl _ (Qlt_trans _ _ _ L S)).
Qed.

(** C1, amended: the overall score is
    [round(total / max * 100, 1)], where [total] is the float sum over all
    six categories (hit or not, in enumeration order) of
    [normalized_i * weight_i] and [max] is the float sum of
    [100.0 * weight_i]; with the fixed weights [max] is [100.0]; and the
    score is [0.0] whenever [max] is not positive. *)
Theorem overall_score_formula (results : list ScraperResult) :
  let total := weighted_total (cat_normalized results) in
  let max := fold_left (fun m cat => fadd m (fmul (lit 100.0) (_category_weight cat)))
                       all_categories (lit 0.0) in
  ThreatScorer.overall_score (analyze_findings results) =
    round1 (fmul (fdiv total max) (lit 100.0)) /\
  max = 100 /\
  map _category_weight [DATA_BREACH; INFRASTRUCTURE; PHISHING; IMPERSONATION;
                        STALKING; REPUTATIONAL] =
    map lit [0.30; 0.20; 0.20; 0.15; 0.10; 0.05] /\
  (forall t m, m <= 0 -> overall_of t m = 0).
Proof.
  cbv zeta.
  assert (M : fold_left (fun m cat => fadd m (fmul (lit 100.0) (_category_weight cat)))
                        all_categories (lit 0.0) = 100) by (vm_compute; reflexivity).
  rewrite M. repeat split.
  - rewrite overall_closed. reflexivity.
  - intros t m Hm. unfold overall_of, fgt.
    apply Qle_bool_iff in Hm. rewrite Hm. reflexivity.
Qed.

Lemma overall_score_formula_witness : overall_of (lit 28.5) 0 = 0.
Proof.
  apply (overall_score_formula []). q_compute.
Defined.

(** ** Scenarios *)

Lemma filter_none_found (l : list ScraperResult) :
  Forall (fun x => found x = false) l -> List.filter found l = [].
Proof.
  induction 1 as [| x l Hx _ IH]; [reflexivity |].
  cbn [List.filter]. rewrite Hx. exact IH.
Qed.



(** C6: when no result is found, the summary is the minimal-footprint
    message alone, the recommendations are the single no-action entry,
    the score is 0.0 and the level is low. *)
Theorem zero_exposure_scenario (results : list ScraperResult) :
  Forall (fun x => found x = false) results ->
  let report := analyze_findings results in
  ThreatScorer.summary report =
    ("✅ Great news! Your digital footprint appears minimal across the "
     +:+ PyStr.str_nat (length results)
     +:+ " platforms we checked. Privacy Threat Score: 0.0/100.")%string /\
  ThreatScorer.recommendations report =
    ["✅ No immediate actions required. Keep monitoring your digital footprint periodically."%string] /\
  ThreatScorer.overall_score report = 0 /\
  ThreatScorer.risk_level report = "low"%string.
Proof.
  intros H report. subst report. unfold analyze_findings.
  rewrite (filter_none_found results H).
  repeat split; vm_compute; reflexivity.
Qed.

Lemma zero_exposure_scenario_witness :
  ThreatScorer.risk_level
    (analyze_findings [miss "Facebook" "IMPERSONATION"; miss "Shodan" "INFRASTRUCTURE"])
  = "low"%string.
Proof.
  apply (zero_exposure_scenario [miss "Facebook" "IMPERSONATION"; miss "Shodan" "INFRASTRUCTURE"]).
  repeat constructor.
Defined.

(** ** The report does not read [risk_score] *)

Section RiskScoreIndependence.

Local Abbreviation R := same_but_risk_score.

Lemma same_hit_category (r r' : ScraperResult) :
  R r r' -> hit_category r = hit_category r'.
Proof. intros (_ & _ & _ & _ & Hc & _). unfold hit_category. rewrite Hc. reflexivity. Qed.

Lemma same_platform_score (r r' : ScraperResult) :
  R r r' -> platform_score r = platform_score r'.
Proof.
  intros (Hp & _ & _ & Hd & _ & _). unfold platform_score, data_bonus.
  rewrite Hp, Hd. reflexivity.
Qed.

Lemma same_filter_found (l l' : list ScraperResult) :
  Forall2 R l l' -> Forall2 R (List.filter found l) (List.filter found l').
Proof.
  induction 1 as [| r r' l l' Hr _ IH]; [constructor |].
  cbn [List.filter].
  assert (Hf : found r = found r') by apply Hr. rewrite <- Hf.
  destruct (found r); [constructor; [exact Hr | exact IH] | exact IH].
Qed.

Lemma same_hits_for (k : string) (l l' : list ScraperResult) :
  Forall2 R l l' -> Forall2 R (hits_for k l) (hits_for k l').
Proof.
  induction 1 as [| r r' l l' Hr _ IH]; [constructor |].
  unfold hits_for in *. cbn [List.filter]. rewrite <- (same_hit_category r r' Hr).
  destruct (bool_decide (hit_category r = k)); [constructor; assumption | exact IH].
Qed.

Lemma same_sum_from (h h' : list ScraperResult) (s : Q) :
  Forall2 R h h' -> sum_from s h = sum_from s h'.
Proof.
  intros H. revert s. induction H as [| r r' h h' Hr _ IH]; intros s; [reflexivity |].
  cbn [sum_from fold_left]. rewrite (same_platform_score r r' Hr). apply IH.
Qed.

Lemma same_normalized (h h' : list ScraperResult) :
  Forall2 R h h' -> normalized_of h = normalized_of h'.
Proof.
  intros H. unfold normalized_of, cat_score_of.
  pose proof (same_sum_from h h' (lit 0.0) H) as E. unfold sum_from in E.
  destruct H; [reflexivity |]. rewrite E. reflexivity.
Qed.

Lemma same_platforms (h h' : list ScraperResult) :
  Forall2 R h h' -> map platform h = map platform h'.
Proof.
  induction 1 as [| r r' h h' Hr _ IH]; [reflexivity |].
  cbn [map]. destruct Hr as (Hp & _). rewrite Hp, IH. reflexivity.
Qed.

Lemma same_warnings (h h' : list ScraperResult) :
  Forall2 R h h' -> warnings_of h = warnings_of h'.
Proof.
  induction 1 as [| r r' h h' Hr _ IH]; [reflexivity |].
  unfold warnings_of in *.
  change (omap ?f (r :: h)) with
    (match PLATFORM_WARNINGS !! platform r with
     | Some y => y :: omap f h
     | None => omap f h
     end).
  change (omap ?f (r' :: h')) with
    (match PLATFORM_WARNINGS !! platform r' with
     | Some y => y :: omap f h'
     | None => omap f h'
     end).
  destruct Hr as (Hp & _). rewrite Hp, IH. reflexivity.
Qed.

Lemma same_entry (cat : RiskCategory) (h h' : list ScraperResult) :
  Forall2 R h h' -> category_entry cat h = category_entry cat h'.
Proof.
  intros H. unfold category_entry.
  rewrite (same_normalized h h' H), (same_platforms h h' H), (same_warnings h h' H).
  reflexivity.
Qed.

Lemma same_has_key (k : string) (l l' : list ScraperResult) :
  Forall2 R l l' -> has_key (group_hits l) k = has_key (group_hits l') k.
Proof.
  intros H. rewrite !group_hits_has_key.
  destruct (same_hits_for k l l' H); reflexivity.
Qed.

Lemma same_summary (exposed total : nat) (score : Q) (level : string)
    (l l' : list ScraperResult) :
  Forall2 R l l' ->
  _generate_summary exposed total score level (group_hits l) =
  _generate_summary exposed total score level (group_hits l').
Proof.
  intros H. unfold _generate_summary.
  rewrite !(same_has_key _ l l' H), !group_hits_default.
  rewrite (Forall2_length _ _ _ (same_hits_for (value DATA_BREACH) l l' H)).
  reflexivity.
Qed.

Lemma same_recommendations (l l' : list ScraperResult) :
  Forall2 R l l' ->
  _generate_recommendations (group_hits l) l = _generate_recommendations (group_hits l') l'.
Proof.
  intros H. unfold _generate_recommendations, extend_if.
  rewrite !(same_has_key _ l l' H).
  destruct H; reflexivity.
Qed.

End RiskScoreIndependence.

(** C10: two inputs that agree on every field but [risk_score] get the
    same report; platform scores come from [PLATFORM_BASE_SCORES] (5.0
    for a platform that is not listed) and the data bonus only. *)
Theorem report_independent_of_risk_score (results results' : list ScraperResult) :
  Forall2 same_but_risk_score results results' ->
  analyze_findings results = analyze_findings results'.
Proof.
  intros H.
  pose proof (same_filter_found _ _ H) as HF.
  assert (T : total_weighted_score (category_loop (group_hits (List.filter found results))) =
              total_weighted_score (category_loop (group_hits (List.filter found results')))).
  { rewrite !total_closed. unfold weighted_total, all_categories. cbn [fold_left].
    rewrite !(fun c => same_normalized _ _ (same_hits_for (value c) _ _ HF)).
    reflexivity. }
  assert (S : acc_scores (category_loop (group_hits (List.filter found results))) =
              acc_scores (category_loop (group_hits (List.filter found results')))).
  { rewrite !scores_closed. unfold all_categories. cbn [map].
    rewrite !(fun c => same_entry c _ _ (same_hits_for (value c) _ _ HF)).
    reflexivity. }
  unfold analyze_findings.
  rewrite !max_possible_100, T, S.
  rewrite (Forall2_length _ _ _ H), (Forall2_length _ _ _ HF).
  rewrite (same_summary _ _ _ _ _ _ HF), (same_recommendations _ _ HF).
  reflexivity.
Qed.

Lemma report_independent_of_risk_score_witness :
  analyze_findings [hibp_hit; miss "Shodan" "INFRASTRUCTURE"] =
  analyze_findings [with_risk_score 9.5 hibp_hit;
                    with_risk_score 7 (miss "Shodan" "INFRASTRUCTURE")].
Proof.
  apply (report_independent_of_risk_score
           [hibp_hit; miss "Shodan" "INFRASTRUCTURE"]
           [with_risk_score 9.5 hibp_hit; with_risk_score 7 (miss "Shodan" "INFRASTRUCTURE")]).
  repeat constructor.
Defined.

(** ** Further properties of the scorer *)

Import ReportSpec.

Section Bounds.

Lemma fmin_le_r (a c : Q) : fmin a c <= c.
Proof.
  unfold fmin. destruct (Qle_bool a c) eqn:E; [apply Qle_bool_iff; exact E | apply Qle_refl].
Qed.

Lemma fmin_le_l (a c : Q) : fmin a c <= a.
Proof.
  unfold fmin. destruct (Qle_bool a c) eqn:E; [apply Qle_refl |].
  apply Qlt_le_weak, Qle_bool_false. exact E.
Qed.

Lemma normalized_le_100 (hits : list ScraperResult) : normalized_of hits <= 100.
Proof.
  destruct hits as [| h t]; cbn [normalized_of]; [q_compute |].
  eapply Qle_trans; [apply fmin_le_r | q_compute].
Qed.

Lemma weighted_total_bounds (n : RiskCategory -> Q) :
  (forall cat, 0 <= n cat <= 100) -> 0 <= weighted_total n <= 100.
Proof.
  intros H. split.
  - apply Qle_trans with (weighted_total (fun _ => 0)); [q_compute |].
    apply weighted_total_mono. intros cat. apply H.
  - apply Qle_trans with (weighted_total (fun _ => 100)); [| q_compute].
    apply weighted_total_mono. intros cat. apply H.
Qed.

Lemma overall_of_bounds (t : Q) : 0 <= t <= 100 -> 0 <= overall_of t 100 <= 100.
Proof.
  intros [H0 H1]. split.
  - apply Qle_trans with (overall_of 0 100); [q_compute | apply overall_of_mono; exact H0].
  - apply Qle_trans with (overall_of 100 100); [apply overall_of_mono; exact H1 | q_compute].
Qed.

Lemma entry_score_bounds (cat : RiskCategory) (hits : list ScraperResult) :
  0 <= score (category_entry cat hits) <= 100.
Proof.
  cbn [score category_entry]. split.
  - apply Qle_trans with (round1 0); [q_compute | apply round1_mono, normalized_nonneg].
  - apply Qle_trans with (round1 100); [apply round1_mono, normalized_le_100 | q_compute].
Qed.

End Bounds.

(** X1: whatever the input, the overall score of the report lies between
    0 and 100, and so does the score of every category entry. *)
Theorem scores_within_0_100 (results : list ScraperResult) :
  0 <= ThreatScorer.overall_score (analyze_findings results) <= 100 /\
  Forall (fun c => 0 <= score c <= 100) (category_scores (analyze_findings results)).
Proof.
  split.
  - rewrite overall_closed. apply overall_of_bounds, weighted_total_bounds.
    intros cat. split; [apply normalized_nonneg | apply normalized_le_100].
  - cbn [category_scores analyze_findings]. rewrite scores_closed.
    apply Forall_forall. intros c Hc. apply list_elem_of_In, in_map_iff in Hc.
    destruct Hc as (cat & <- & _). apply entry_score_bounds.
Qed.

Section Shape.

Lemma hits_for_found (cat : RiskCategory) (results : list ScraperResult) :
  hits_for (value cat) (List.filter found results) = hits_of cat results.
Proof.
  unfold hits_for, hits_of. induction results as [| r l IH]; [reflexivity |].
  cbn [List.filter]. destruct (found r); cbn [List.filter andb]; rewrite IH; reflexivity.
Qed.

End Shape.

(** X2: the report lists one entry per category, in the order
    IMPERSONATION, PHISHING, STALKING, REPUTATIONAL, DATA_BREACH,
    INFRASTRUCTURE, whether the category was hit or not.  The entry of a
    category carries its description, the platforms of exactly the found
    results filed under it (a result with an empty category counts as
    REPUTATIONAL), in input order, the warnings of those platforms that
    have one, and the category score rounded to one decimal. *)
Theorem category_scores_shape (results : list ScraperResult) :
  category_scores (analyze_findings results) =
  map (fun cat =>
         let hits := hits_of cat results in
         {| category := value cat;
            score := round1 (normalized_of hits);
            description := default "" (CATEGORY_DESCRIPTIONS !! value cat);
            platforms_found := map platform hits;
            warnings := omap (fun hit => PLATFORM_WARNINGS !! platform hit) hits |})
      [IMPERSONATION; PHISHING; STALKING; REPUTATIONAL; DATA_BREACH; INFRASTRUCTURE].
Proof.
  cbn [category_scores analyze_findings]. rewrite scores_closed.
  unfold all_categories. cbn [map]. rewrite !hits_for_found. reflexivity.
Qed.

Section ReadFields.

Lemma points_platform_score (r r' : ScraperResult) :
  same_points r r' -> platform_score r = platform_score r'.
Proof.
  intros [Hp Hd]. unfold platform_score, data_bonus. rewrite Hp, Hd. reflexivity.
Qed.

Lemma points_sum_from (h h' : list ScraperResult) (s : Q) :
  Forall2 same_points h h' -> sum_from s h = sum_from s h'.
Proof.
  intros H. revert s. induction H as [| r r' h h' Hr _ IH]; intros s; [reflexivity |].
  cbn [sum_from fold_left]. rewrite (points_platform_score r r' Hr). apply IH.
Qed.

Lemma points_normalized (h h' : list ScraperResult) :
  Forall2 same_points h h' -> normalized_of h = normalized_of h'.
Proof.
  intros H. unfold normalized_of, cat_score_of.
  pose proof (points_sum_from h h' (lit 0.0) H) as E. unfold sum_from in E.
  destruct H; [reflexivity |]. rewrite E. reflexivity.
Qed.

Lemma points_platforms (h h' : list ScraperResult) :
  Forall2 same_points h h' -> map platform h = map platform h'.
Proof.
  induction 1 as [| r r' h h' Hr _ IH]; [reflexivity |].
  cbn [map]. destruct Hr as (Hp & _). rewrite Hp, IH. reflexivity.
Qed.

Lemma points_warnings (h h' : list ScraperResult) :
  Forall2 same_points h h' -> warnings_of h = warnings_of h'.
Proof.
  induction 1 as [| r r' h h' Hr _ IH]; [reflexivity |].
  unfold warnings_of in *.
  change (omap ?f (r :: h)) with
    (match PLATFORM_WARNINGS !! platform r with
     | Some y => y :: omap f h
     | None => omap f h
     end).
  change (omap ?f (r' :: h')) with
    (match PLATFORM_WARNINGS !! platform r' with
     | Some y => y :: omap f h'
     | None => omap f h'
     end).
  destruct Hr as (Hp & _). rewrite Hp, IH. reflexivity.
Qed.

Lemma points_entry (cat : RiskCategory) (h h' : list ScraperResult) :
  Forall2 same_points h h' -> category_entry cat h = category_entry cat h'.
Proof.
  intros H. unfold category_entry.
  rewrite (points_normalized h h' H), (points_platforms h h' H), (points_warnings h h' H).
  reflexivity.
Qed.

(** The category loop is a function of the hits of the six categories. *)
Lemma loop_from_hits (l l' : list ScraperResult) :
  (forall cat, Forall2 same_points (hits_of cat l) (hits_of cat l')) ->
  total_weighted_score (category_loop (group_hits (List.filter found l))) =
    total_weighted_score (category_loop (group_hits (List.filter found l'))) /\
  acc_scores (category_loop (group_hits (List.filter found l))) =
    acc_scores (category_loop (group_hits (List.filter found l'))).
Proof.
  intros H. split.
  - rewrite !total_closed. unfold weighted_total, all_categories. cbn [fold_left].
    rewrite !hits_for_found.
    rewrite !(fun c => points_normalized _ _ (H c)). reflexivity.
  - rewrite !scores_closed. unfold all_categories. cbn [map].
    rewrite !hits_for_found.
    rewrite !(fun c => points_entry c _ _ (H c)). reflexivity.
Qed.

Lemma scores_from_hits (l l' : list ScraperResult) :
  (forall cat, Forall2 same_points (hits_of cat l) (hits_of cat l')) ->
  ThreatScorer.overall_score (analyze_findings l) =
    ThreatScorer.overall_score (analyze_findings l') /\
  risk_level (analyze_findings l) = risk_level (analyze_findings l') /\
  category_scores (analyze_findings l) = category_scores (analyze_findings l').
Proof.
  intros H. destruct (loop_from_hits l l' H) as [T S].
  unfold analyze_findings. cbn [ThreatScorer.overall_score risk_level category_scores].
  rewrite !max_possible_100, T, S. repeat split; reflexivity.
Qed.

Lemma alike_hits_of (cat : RiskCategory) (l l' : list ScraperResult) :
  Forall2 scored_alike l l' -> Forall2 scored_alike (hits_of cat l) (hits_of cat l').
Proof.
  induction 1 as [| r r' l l' Hr _ IH]; [constructor |].
  unfold hits_of in *. cbn [List.filter].
  destruct Hr as (Hp & Hf & Hd & Hc). rewrite <- Hf, <- Hc.
  destruct (found r && bool_decide (hit_category r = value cat));
    [constructor; [repeat split; assumption | exact IH] | exact IH].
Qed.

Lemma alike_points (h h' : list ScraperResult) :
  Forall2 scored_alike h h' -> Forall2 same_points h h'.
Proof.
  intros H. apply (Forall2_impl _ _ _ _ H).
  intros r r' (Hp & _ & Hd & _). split; assumption.
Qed.

Lemma alike_filter_found (l l' : list ScraperResult) :
  Forall2 scored_alike l l' ->
  Forall2 scored_alike (List.filter found l) (List.filter found l').
Proof.
  induction 1 as [| r r' l l' Hr _ IH]; [constructor |].
  cbn [List.filter].
  assert (Hf : found r = found r') by apply Hr. rewrite <- Hf.
  destruct (found r); [constructor; [exact Hr | exact IH] | exact IH].
Qed.

Lemma has_key_hits_of (cat : RiskCategory) (l : list ScraperResult) :
  has_key (group_hits (List.filter found l)) (value cat) =
  match hits_of cat l with [] => false | _ :: _ => true end.
Proof. rewrite group_hits_has_key, hits_for_found. reflexivity. Qed.

End ReadFields.

(** X3: the report is a function of four things of each result: its
    platform, its found flag, the number of its data fields, and the
    category it is filed under (an empty category counting as
    REPUTATIONAL).  Two inputs that agree on these, result by result, get
    the same report: the url, the error, the risk score and the values of
    the data fields are never read. *)
Theorem report_reads_four_fields (results results' : list ScraperResult) :
  Forall2 scored_alike results results' ->
  analyze_findings results = analyze_findings results'.
Proof.
  intros H.
  destruct (loop_from_hits results results') as [T S].
  { intros cat. apply alike_points, alike_hits_of, H. }
  pose proof (alike_filter_found _ _ H) as HF.
  assert (K : forall cat, has_key (group_hits (List.filter found results)) (value cat) =
                          has_key (group_hits (List.filter found results')) (value cat)).
  { intros cat. rewrite !has_key_hits_of.
    destruct (alike_hits_of cat _ _ H); reflexivity. }
  assert (Sm : forall exposed total score level,
             _generate_summary exposed total score level
               (group_hits (List.filter found results)) =
             _generate_summary exposed total score level
               (group_hits (List.filter found results'))).
  { intros. unfold _generate_summary. rewrite !K, !group_hits_default, !hits_for_found.
    rewrite (Forall2_length _ _ _ (alike_hits_of DATA_BREACH _ _ H)). reflexivity. }
  assert (Rc : _generate_recommendations (group_hits (List.filter found results))
                 (List.filter found results) =
               _generate_recommendations (group_hits (List.filter found results'))
                 (List.filter found results')).
  { unfold _generate_recommendations, extend_if. rewrite !K. destruct HF; reflexivity. }
  unfold analyze_findings.
  rewrite !max_possible_100, T, S, Sm, Rc.
  rewrite (Forall2_length _ _ _ H), (Forall2_length _ _ _ HF).
  reflexivity.
Qed.

Lemma report_reads_four_fields_witness :
  analyze_findings [with_category "" github_hit; odd_hit] =
  analyze_findings [github_hit; with_risk_score 3 odd_hit].
Proof.
  apply (report_reads_four_fields [with_category "" github_hit; odd_hit]
           [github_hit; with_risk_score 3 odd_hit]).
  repeat constructor.
Defined.

Section Unscored.

Lemma points_refl (h : list ScraperResult) : Forall2 same_points h h.
Proof. induction h; constructor; [split; reflexivity | assumption]. Qed.

Lemma filter_found_skip (l1 l2 : list ScraperResult) (r : ScraperResult) :
  found r = false ->
  List.filter found (l1 ++ r :: l2) = List.filter found (l1 ++ l2).
Proof.
  intros H. rewrite !List.filter_app. cbn [List.filter]. rewrite H. reflexivity.
Qed.

Lemma hits_of_skip (cat : RiskCategory) (l1 l2 : list ScraperResult) (r : ScraperResult) :
  hit_category r <> value cat ->
  hits_of cat (l1 ++ r :: l2) = hits_of cat (l1 ++ l2).
Proof.
  intros H. unfold hits_of. rewrite !List.filter_app. cbn [List.filter].
  rewrite (bool_decide_eq_false_2 _ H), andb_false_r. reflexivity.
Qed.

Lemma recommendations_when_found (category_hits : gmap string (list ScraperResult))
    (r : ScraperResult) (found_results : list ScraperResult) :
  exists pre,
    _generate_recommendations category_hits (r :: found_results) = pre ++ general_recs.
Proof.
  unfold _generate_recommendations.
  match goal with |- context [?recs ++ general_recs] => exists recs; destruct recs end;
    reflexivity.
Qed.

End Unscored.

(** X4: a result that is not found, a failed probe included, changes
    nothing but the number of platforms checked: with it or without it
    the overall score, the risk level, the category entries and the
    recommendations are the same. *)
Theorem miss_changes_no_score (l1 l2 : list ScraperResult) (r : ScraperResult) :
  found r = false ->
  let a := analyze_findings (l1 ++ r :: l2) in
  let b := analyze_findings (l1 ++ l2) in
  ThreatScorer.overall_score a = ThreatScorer.overall_score b /\
  risk_level a = risk_level b /\
  category_scores a = category_scores b /\
  recommendations a = recommendations b.
Proof.
  intros H a b. unfold a, b, analyze_findings.
  cbn [ThreatScorer.overall_score risk_level category_scores recommendations].
  rewrite (filter_found_skip l1 l2 r H). repeat split; reflexivity.
Qed.

Lemma miss_changes_no_score_witness :
  ThreatScorer.overall_score (analyze_findings [github_hit; miss "Shodan" "INFRASTRUCTURE"]) =
  ThreatScorer.overall_score (analyze_findings [github_hit]).
Proof.
  apply (miss_changes_no_score [github_hit] [] (miss "Shodan" "INFRASTRUCTURE") eq_refl).
Defined.

(** X5: a found result whose category is none of the six values (and not
    empty) is filed under a key the category loop never reads: it adds
    nothing to any category entry, to the overall score or to the risk
    level, although it counts as an exposure and brings the general
    recommendations. *)
Theorem unfiled_hit_scores_nothing (l1 l2 : list ScraperResult) (r : ScraperResult) :
  found r = true ->
  (forall cat, hit_category r <> value cat) ->
  let a := analyze_findings (l1 ++ r :: l2) in
  let b := analyze_findings (l1 ++ l2) in
  ThreatScorer.overall_score a = ThreatScorer.overall_score b /\
  risk_level a = risk_level b /\
  category_scores a = category_scores b /\
  exists pre, recommendations a = pre ++ general_recs.
Proof.
  intros Hf Hc a b.
  destruct (scores_from_hits (l1 ++ r :: l2) (l1 ++ l2)) as (Ho & Hl & Hs).
  { intros cat. rewrite (hits_of_skip cat l1 l2 r (Hc cat)). apply points_refl. }
  split; [exact Ho |]. split; [exact Hl |]. split; [exact Hs |].
  unfold a, analyze_findings. cbn [recommendations].
  rewrite List.filter_app. cbn [List.filter]. rewrite Hf.
  destruct (List.filter found l1) as [| x xs]; cbn [app];
    apply recommendations_when_found.
Qed.

Lemma unfiled_hit_scores_nothing_witness :
  ThreatScorer.overall_score (analyze_findings [github_hit; odd_hit]) =
  ThreatScorer.overall_score (analyze_findings [github_hit]).
Proof.
  apply (unfiled_hit_scores_nothing [github_hit] [] odd_hit eq_refl).
  intros cat. destruct cat; discriminate.
Defined.

Section Recommendations.

Lemma recommendations_closed (results : list ScraperResult) :
  recommendations (analyze_findings results) =
  recs_of (hit_in results) (any_found results).
Proof.
  cbn [recommendations analyze_findings].
  unfold _generate_recommendations, extend_if, recs_of, rec_order, hit_in, any_found.
  rewrite !has_key_hits_of. cbn [flat_map rec_block].
  destruct (hits_of DATA_BREACH results), (hits_of INFRASTRUCTURE results),
    (hits_of PHISHING results), (hits_of IMPERSONATION results),
    (hits_of STALKING results), (hits_of REPUTATIONAL results),
    (List.filter found results); reflexivity.
Qed.

Lemma hit_in_any (results : list ScraperResult) (cat : RiskCategory) :
  hit_in results cat = true -> any_found results = true.
Proof.
  unfold hit_in, any_found. rewrite <- hits_for_found.
  destruct (List.filter found results); [discriminate | reflexivity].
Qed.

Lemma recs_of_blocks (hit : RiskCategory -> bool) (any : bool) :
  (forall cat, hit cat = true -> any = true) ->
  (forall cat, has_block (rec_block cat) (recs_of hit any) = hit cat) /\
  has_block general_recs (recs_of hit any) = any /\
  has_block [no_action_rec] (recs_of hit any) = negb any /\
  recs_of hit any <> [].
Proof.
  intros H.
  pose proof (H DATA_BREACH) as H1. pose proof (H INFRASTRUCTURE) as H2.
  pose proof (H PHISHING) as H3. pose proof (H IMPERSONATION) as H4.
  pose proof (H STALKING) as H5. pose proof (H REPUTATIONAL) as H6.
  unfold recs_of, rec_order. cbn [flat_map].
  destruct (hit DATA_BREACH) eqn:E1, (hit INFRASTRUCTURE) eqn:E2, (hit PHISHING) eqn:E3,
    (hit IMPERSONATION) eqn:E4, (hit STALKING) eqn:E5, (hit REPUTATIONAL) eqn:E6, any;
    try (discriminate (H1 eq_refl)); try (discriminate (H2 eq_refl));
    try (discriminate (H3 eq_refl)); try (discriminate (H4 eq_refl));
    try (discriminate (H5 eq_refl)); try (discriminate (H6 eq_refl));
    (split; [intros cat; destruct cat; rewrite ?E1, ?E2, ?E3, ?E4, ?E5, ?E6;
             vm_compute; reflexivity |]);
    (split; [vm_compute; reflexivity |]);
    (split; [vm_compute; reflexivity | discriminate]).
Qed.

Lemma has_block_incl (block recs : list string) :
  has_block block recs = true <-> (forall x, In x block -> In x recs).
Proof.
  unfold has_block. rewrite forallb_forall. split; intros H x Hx.
  - apply H, existsb_exists in Hx as (y & Hy & E). apply String.eqb_eq in E. subst y.
    exact Hy.
  - apply existsb_exists. exists x. split; [apply H, Hx | apply String.eqb_refl].
Qed.

Lemma hit_in_true (results : list ScraperResult) (cat : RiskCategory) :
  hit_in results cat = true <->
  exists r, In r results /\ found r = true /\ hit_category r = value cat.
Proof.
  unfold hit_in, hits_of. split.
  - destruct (List.filter _ results) as [| r t] eqn:E; [discriminate |]. intros _.
    assert (Hr : In r (List.filter
                         (fun r => found r && bool_decide (hit_category r = value cat))
                         results)) by (rewrite E; left; reflexivity).
    apply List.filter_In in Hr as [Hin Hb]. apply andb_true_iff in Hb as [Hf Hc].
    exists r. repeat split; [exact Hin | exact Hf | apply bool_decide_eq_true in Hc; exact Hc].
  - intros (r & Hin & Hf & Hc).
    assert (Hr : In r (List.filter
                         (fun r => found r && bool_decide (hit_category r = value cat))
                         results)).
    { apply List.filter_In. split; [exact Hin |].
      rewrite Hf, (bool_decide_eq_true_2 _ Hc). reflexivity. }
    destruct (List.filter _ results); [destruct Hr | reflexivity].
Qed.

Lemma any_found_true (results : list ScraperResult) :
  any_found results = true <-> exists r, In r results /\ found r = true.
Proof.
  unfold any_found. split.
  - destruct (List.filter found results) as [| r t] eqn:E; [discriminate |]. intros _.
    assert (Hr : In r (List.filter found results)) by (rewrite E; left; reflexivity).
    apply List.filter_In in Hr. exists r. exact Hr.
  - intros (r & Hr). apply List.filter_In in Hr.
    destruct (List.filter found results); [destruct Hr | reflexivity].
Qed.

End Recommendations.

(** X6: the recommendations are never empty.  The block of a category is
    in the list exactly when some found result is filed under that
    category; the two general recommendations are in it exactly when
    something was found; and the "no immediate actions" entry is in it
    exactly when nothing was found. *)
Theorem recommendations_follow_hits (results : list ScraperResult) :
  let recs := recommendations (analyze_findings results) in
  recs <> [] /\
  (forall cat,
     (forall x, In x (rec_block cat) -> In x recs) <->
     exists r, In r results /\ found r = true /\ hit_category r = value cat) /\
  ((forall x, In x general_recs -> In x recs) <->
   exists r, In r results /\ found r = true) /\
  (In no_action_rec recs <-> forall r, In r results -> found r = false).
Proof.
  intros recs. unfold recs. rewrite recommendations_closed.
  destruct (recs_of_blocks (hit_in results) (any_found results) (hit_in_any results))
    as (Hb & Hg & Hn & Hne).
  split; [exact Hne |]. split; [| split].
  - intros cat. rewrite <- has_block_incl, Hb. apply hit_in_true.
  - rewrite <- has_block_incl, Hg. apply any_found_true.
  - transitivity (has_block [no_action_rec]
                    (recs_of (hit_in results) (any_found results)) = true).
    + rewrite has_block_incl. split.
      * intros H x [<- | []]. exact H.
      * intros H. apply H. left. reflexivity.
    + rewrite Hn, negb_true_iff. split.
      * intros Hf r Hr. destruct (found r) eqn:E; [| reflexivity].
        assert (Ha : any_found results = true) by (apply any_found_true; eauto).
        congruence.
      * intros Hf. destruct (any_found results) eqn:E; [| reflexivity].
        apply any_found_true in E as (r & Hr & Hfr). rewrite (Hf r Hr) in Hfr.
        discriminate.
Qed.

(** ** The store: statements without faults *)

Import Database StoreSpec.

Section Steps.

Lemma bind_ok {A B} (c : Async A) (k : A -> Async B) (w w' : World) (a : A) :
  c w = (Ok a, w') -> bind c k w = k a w'.
Proof. intros H. unfold bind. rewrite H. reflexivity. Qed.


Lemma world_after_after (w : World) (s s' : DB) (evs evs' : list Event) :
  world_after (world_after w s evs) s' evs' = world_after w s' (evs ++ evs').
Proof. unfold world_after. cbn. rewrite app_assoc. reflexivity. Qed.

Lemma round_trip_quiet (ev : Event) (w : World) :
  faults w = [] -> round_trip ev w = (Ok tt, world_after w (session w) [ev]).
Proof. intros H. unfold round_trip, world_after. rewrite H. reflexivity. Qed.

Lemma modify_after (f : DB -> DB) (w : World) (s : DB) (evs : list Event) :
  modify_session f (world_after w s evs) = (Ok tt, world_after w (f s) evs).
Proof. reflexivity. Qed.

Lemma statement_quiet (ev : Event) (f : DB -> DB) (w : World) :
  faults w = [] ->
  bind (round_trip ev) (fun _ => modify_session f) w =
  (Ok tt, world_after w (f (session w)) [ev]).
Proof.
  intros H. rewrite (bind_ok _ _ _ _ _ (round_trip_quiet ev w H)). apply modify_after.
Qed.

Lemma statement_after (ev : Event) (f : DB -> DB) (w : World) (s : DB)
    (evs : list Event) :
  bind (round_trip ev) (fun _ => modify_session f) (world_after w s evs) =
  (Ok tt, world_after w (f s) (evs ++ [ev])).
Proof.
  rewrite statement_quiet by reflexivity. cbn [session world_after].
  rewrite world_after_after. reflexivity.
Qed.

Lemma commit_after (w : World) (s : DB) (evs : list Event) :
  commit (world_after w s evs) = (Ok tt, world_committed w s (evs ++ [ECommit])).
Proof.
  unfold commit.
  rewrite (bind_ok _ _ _ _ _ (round_trip_quiet ECommit (world_after w s evs) eq_refl)).
  unfold world_committed, world_after. cbn. rewrite <- app_assoc. reflexivity.
Qed.

Lemma get_task_quiet (tid : string) (w : World) :
  faults w = [] ->
  get_task tid w =
  (Ok (List.find (fun t => bool_decide (id t = tid)) (scan_tasks (session w))),
   world_after w (session w) [EGet tid]).
Proof.
  intros H. unfold get_task.
  rewrite (bind_ok _ _ _ _ _ (round_trip_quiet _ w H)). reflexivity.
Qed.

Lemma commit_quiet (w : World) :
  faults w = [] -> commit w = (Ok tt, world_committed w (session w) [ECommit]).
Proof.
  intros H. unfold commit.
  rewrite (bind_ok _ _ _ _ _ (round_trip_quiet _ w H)). reflexivity.
Qed.

(** Wiping one task: three deletes, in dependency order. *)
Lemma wipe_one_quiet (tid : string) (w : World) {A} (k : Async A) :
  faults w = [] ->
  bind (delete_findings tid)
       (fun _ => bind (delete_report tid) (fun _ => bind (delete_task tid) (fun _ => k))) w =
  k (world_after w (task_deleted tid (report_deleted tid (findings_deleted tid (session w))))
                 (wipe_events tid)).
Proof.
  intros H. unfold delete_findings, delete_report, delete_task.
  rewrite (bind_ok _ _ _ _ _ (statement_quiet _ _ w H)).
  rewrite (bind_ok _ _ _ _ _ (statement_after _ _ _ _ _)).
  rewrite (bind_ok _ _ _ _ _ (statement_after _ _ _ _ _)).
  reflexivity.
Qed.

End Steps.

Section Tables.



Lemma find_some_task (d : DB) (tid : string) (t : ScanTask) :
  List.find (fun t => bool_decide (id t = tid)) (scan_tasks d) = Some t ->
  has_task d tid.
Proof.
  intros H. apply List.find_some in H as [Ht E].
  apply bool_decide_eq_true in E. exists t. split; assumption.
Qed.



End Tables.

(** ** Wiping a task *)

Import SecureWipe.

Lemma wipe_task_data_quiet (tid : string) (w : World) :
  faults w = [] ->
  wipe_task_data tid w =
  match List.find (fun t => bool_decide (id t = tid)) (scan_tasks (committed w)) with
  | None => (Ok false, world_committed w (committed w) [EGet tid])
  | Some _ =>
      (Ok true,
       world_committed w
         (task_deleted tid (report_deleted tid (findings_deleted tid (committed w))))
         (EGet tid :: wipe_events tid ++ [ECommit]))
  end.
Proof.
  intros H. destruct w as [c s k f tr]. cbn in H. subst f.
  unfold wipe_task_data, with_session. cbn [committed clock faults trace].
  rewrite (bind_ok _ _ _ _ _
             (get_task_quiet tid {| committed := c; session := c; clock := k;
                                    faults := []; trace := tr |} eq_refl)).
  cbn [session].
  destruct (List.find _ (scan_tasks c)) as [t |]; [| reflexivity].
  rewrite wipe_one_quiet by reflexivity.
  rewrite world_after_after.
  rewrite (bind_ok _ _ _ _ _ (commit_after _ _ _)).
  unfold ret, world_committed, world_after. cbn. reflexivity.
Qed.





(** ** The retention sweep *)

Import Main RetentionSpec.

Section Purge.

Lemma filter_all {A} (l : list A) : List.filter (fun _ => true) l = l.
Proof. induction l as [| x l IH]; [reflexivity |]. cbn. rewrite IH. reflexivity. Qed.

Lemma filter_twice {A} (p q : A -> bool) (l : list A) :
  List.filter q (List.filter p l) = List.filter (fun x => p x && q x) l.
Proof.
  induction l as [| x l IH]; [reflexivity |].
  cbn [List.filter]. destruct (p x); cbn [andb List.filter]; [destruct (q x) |];
    rewrite IH; reflexivity.
Qed.

Lemma listed_snoc (ids : list string) (i x : string) :
  negb (listed (ids ++ [i]) x) = negb (listed ids x) && negb (bool_decide (x = i)).
Proof.
  unfold listed. rewrite <- negb_orb. f_equal.
  apply eq_true_iff_eq. rewrite orb_true_iff, !bool_decide_eq_true.
  rewrite elem_of_app, list_elem_of_singleton. reflexivity.
Qed.

Lemma purged_nil (d : DB) : purged [] d = d.
Proof.
  destruct d as [ts fs rs]. unfold purged, listed. cbn.
  rewrite !filter_all. reflexivity.
Qed.

Lemma purged_snoc (ids : list string) (i : string) (d : DB) :
  task_deleted i (report_deleted i (findings_deleted i (purged ids d))) =
  purged (ids ++ [i]) d.
Proof.
  unfold purged, task_deleted, report_deleted, findings_deleted. cbn.
  rewrite !filter_twice.
  f_equal; apply List.filter_ext; intros x; symmetry; apply listed_snoc.
Qed.

Lemma purged_fold (l : list ScanTask) (ids : list string) (d : DB) :
  fold_left (fun s t => task_deleted (id t) (report_deleted (id t) (findings_deleted (id t) s)))
            l (purged ids d) =
  purged (ids ++ map id l) d.
Proof.
  revert ids. induction l as [| t l IH]; intros ids.
  - cbn. rewrite app_nil_r. reflexivity.
  - cbn [fold_left map]. rewrite purged_snoc, IH, <- app_assoc. reflexivity.
Qed.

Lemma purged_fold_all (l : list ScanTask) (d : DB) :
  fold_left (fun s t => task_deleted (id t) (report_deleted (id t) (findings_deleted (id t) s)))
            l d =
  purged (map id l) d.
Proof.
  pose proof (purged_fold l [] d) as H. rewrite purged_nil in H. exact H.
Qed.

(** After a purge of the expired tasks nothing expired is left. *)
Lemma purged_expired_gone (t ttl : Z) (d : DB) (task : ScanTask) :
  In task (scan_tasks (purged (map id (expired_at t ttl d)) d)) ->
  (t - ttl * 3600 <= created_at task)%Z.
Proof.
  cbn. intros H. apply List.filter_In in H as [Hin Hl].
  destruct (Z.ltb_spec (created_at task) (t - ttl * 3600)) as [L | G]; [| exact G].
  exfalso. apply negb_true_iff, bool_decide_eq_false in Hl. apply Hl.
  apply list_elem_of_In, in_map. unfold expired_at. apply List.filter_In.
  split; [exact Hin |]. apply Z.ltb_lt. exact L.
Qed.

End Purge.

Section Cutoff.

(** The cutoff, when it is a datetime, is [ttl] hours before [t]. *)
Lemma cutoff_at_value (t ttl c : Z) :
  cutoff_at t ttl = Ok c -> c = (t - ttl * 3600)%Z.
Proof.
  unfold cutoff_at, timedelta_hours, datetime_sub. cbv zeta.
  destruct (_ || _); [discriminate |].
  destruct (_ <? _)%Z; [discriminate |].
  destruct (_ || _); [discriminate |].
  intros E. injection E as <-. reflexivity.
Qed.

Lemma cutoff_at_returns (t ttl : Z) : cutoff_at t ttl <> Hang.
Proof.
  unfold cutoff_at, timedelta_hours, datetime_sub. cbv zeta.
  destruct (_ || _); [discriminate |].
  destruct (_ <? _)%Z; [discriminate |].
  destruct (_ || _); discriminate.
Qed.

(** The sweep evaluates the cutoff before it opens a session; when that
    raises, no statement is sent. *)
Lemma wipe_expired_tasks_unfold (cfg : Config.Settings) (ttl_hours : option Z)
    (w : World) :
  wipe_expired_tasks cfg ttl_hours w =
  match cutoff_at (clock w) (ttl_of cfg ttl_hours) with
  | Ok cutoff =>
      with_session
        (bind (select_expired cutoff) (fun expired_tasks =>
         bind (wipe_each expired_tasks 0) (fun wiped_count =>
         bind commit (fun _ => ret wiped_count)))) w
  | Raise e => (Raise e, w)
  | Hang => (Hang, w)
  end.
Proof.
  unfold wipe_expired_tasks. fold (ttl_of cfg ttl_hours).
  unfold now, evaluated. unfold bind at 1. unfold bind at 1.
  destruct (cutoff_at (clock w) (ttl_of cfg ttl_hours)); reflexivity.
Qed.

End Cutoff.

Section RoundTrips.

Lemma hd_skipn (n : nat) (fs : list bool) : hd false (skipn n fs) = nth n fs false.
Proof.
  revert fs. induction n as [| n IH]; intros [| f fs]; cbn; try reflexivity. apply IH.
Qed.

Lemma tl_skipn {A} (n : nat) (l : list A) : tl (skipn n l) = skipn (S n) l.
Proof.
  revert l. induction n as [| n IH]; intros l.
  - destruct l; reflexivity.
  - destruct l as [| x l]; [reflexivity |].
    change (tl (skipn n l) = skipn (S n) l). apply IH.
Qed.

Lemma world_at_start (w : World) :
  {| committed := committed w; session := committed w; clock := clock w;
     faults := faults w; trace := trace w |} = world_at w (committed w) 0 [].
Proof. unfold world_at. cbn. rewrite app_nil_r. reflexivity. Qed.

Lemma round_trip_at (ev : Event) (w : World) (s : DB) (n : nat) (evs : list Event) :
  round_trip ev (world_at w s n evs) =
  (if nth n (faults w) false then Raise (Exception "database error") else Ok tt,
   world_at w s (S n) (evs ++ [ev])).
Proof.
  unfold round_trip, world_at. cbn [committed session clock faults trace].
  rewrite tl_skipn, <- app_assoc, <- hd_skipn.
  destruct (skipn n (faults w)) as [| [] ?]; reflexivity.
Qed.

Lemma statement_at_ok (ev : Event) (f : DB -> DB) (w : World) (s : DB) (n : nat)
    (evs : list Event) :
  nth n (faults w) false = false ->
  bind (round_trip ev) (fun _ => modify_session f) (world_at w s n evs) =
  (Ok tt, world_at w (f s) (S n) (evs ++ [ev])).
Proof. intros H. unfold bind. rewrite round_trip_at, H. reflexivity. Qed.


Lemma wipe_events_length (l : list ScanTask) :
  length (flat_map (fun t => wipe_events (id t)) l) = (3 * length l)%nat.
Proof. induction l as [| t l IH]; [reflexivity |]. cbn [flat_map length app wipe_events]. lia. Qed.

Lemma sweep_statements_length (cutoff : Z) (l : list ScanTask) :
  length (sweep_statements cutoff l) = S (3 * length l + 1).
Proof.
  unfold sweep_statements. cbn [length]. rewrite length_app, wipe_events_length.
  reflexivity.
Qed.

Lemma wipe_each_answers (expired : list ScanTask) :
  forall (n0 : nat) (w : World) (s : DB) (n : nat) (evs : list Event),
  (forall i, (i < 3 * length expired)%nat -> nth (n + i) (faults w) false = false) ->
  wipe_each expired n0 (world_at w s n evs) =
  (Ok (n0 + length expired)%nat,
   world_at w
     (fold_left (fun s t => task_deleted (id t)
                              (report_deleted (id t) (findings_deleted (id t) s)))
                expired s)
     (n + 3 * length expired)
     (evs ++ flat_map (fun t => wipe_events (id t)) expired)).
Proof.
  induction expired as [| t rest IH]; intros n0 w s n evs H.
  - cbn. rewrite !Nat.add_0_r, app_nil_r. reflexivity.
  - cbn [length] in H.
    assert (H0 : nth n (faults w) false = false)
      by (rewrite <- (Nat.add_0_r n); apply H; lia).
    assert (H1 : nth (S n) (faults w) false = false)
      by (rewrite <- (Nat.add_1_r n); apply H; lia).
    assert (H2 : nth (S (S n)) (faults w) false = false)
      by (replace (S (S n)) with (n + 2)%nat by lia; apply H; lia).
    cbn [wipe_each]. unfold delete_findings, delete_report, delete_task.
    rewrite (bind_ok _ _ _ _ _ (statement_at_ok _ _ _ _ _ _ H0)).
    rewrite (bind_ok _ _ _ _ _ (statement_at_ok _ _ _ _ _ _ H1)).
    rewrite (bind_ok _ _ _ _ _ (statement_at_ok _ _ _ _ _ _ H2)).
    rewrite IH.
    + cbn [fold_left flat_map length wipe_events app].
      f_equal; [f_equal; lia |]. f_equal; [lia |].
      rewrite <- !app_assoc. reflexivity.
    + intros i Hi. replace (S (S (S n)) + i)%nat with (n + (3 + i))%nat by lia.
      apply H. lia.
Qed.


End RoundTrips.

Section SweepRun.

Lemma select_expired_at (cutoff : Z) (w : World) (s : DB) (n : nat) (evs : list Event) :
  nth n (faults w) false = false ->
  select_expired cutoff (world_at w s n evs) =
  (Ok (List.filter (fun t => (created_at t <? cutoff)%Z) (scan_tasks s)),
   world_at w s (S n) (evs ++ [ESelectExpired cutoff])).
Proof. intros H. unfold select_expired, bind. rewrite round_trip_at, H. reflexivity. Qed.

Lemma commit_at_ok (w : World) (s : DB) (n : nat) (evs : list Event) :
  nth n (faults w) false = false ->
  commit (world_at w s n evs) =
  (Ok tt, {| committed := s; session := s; clock := clock w;
             faults := skipn (S n) (faults w); trace := trace w ++ evs ++ [ECommit] |}).
Proof. intros H. unfold commit, bind. rewrite round_trip_at, H. reflexivity. Qed.

(** A sweep the storage layer answers. *)
Lemma wipe_expired_tasks_answers (cfg : Config.Settings) (ttl_hours : option Z)
    (w : World) (cutoff : Z) :
  cutoff_at (clock w) (ttl_of cfg ttl_hours) = Ok cutoff ->
  let expired := expired_at (clock w) (ttl_of cfg ttl_hours) (committed w) in
  answers (length (sweep_statements cutoff expired)) (faults w) ->
  wipe_expired_tasks cfg ttl_hours w =
  (Ok (length expired),
   {| committed := purged (map id expired) (committed w);
      session := purged (map id expired) (committed w);
      clock := clock w;
      faults := skipn (length (sweep_statements cutoff expired)) (faults w);
      trace := trace w ++ sweep_statements cutoff expired |}).
Proof.
  intros Hc expired Ha. rewrite wipe_expired_tasks_unfold, Hc.
  pose proof (cutoff_at_value _ _ _ Hc) as ->.
  rewrite sweep_statements_length in Ha |- *.
  assert (H0 : nth 0 (faults w) false = false) by (apply Ha; lia).
  assert (H1 : forall i, (i < 3 * length expired)%nat ->
                         nth (1 + i) (faults w) false = false)
    by (intros i Hi; apply Ha; lia).
  assert (H2 : nth (1 + 3 * length expired) (faults w) false = false)
    by (apply Ha; lia).
  unfold with_session. cbv zeta. rewrite world_at_start.
  rewrite (bind_ok _ _ _ _ _ (select_expired_at _ _ _ _ _ H0)).
  fold (expired_at (clock w) (ttl_of cfg ttl_hours) (committed w)). fold expired.
  rewrite (bind_ok _ _ _ _ _ (wipe_each_answers _ _ _ _ _ _ H1)).
  rewrite (bind_ok _ _ _ _ _ (commit_at_ok _ _ _ _ H2)).
  rewrite purged_fold_all. unfold ret, sweep_statements.
  cbn [committed session clock faults trace app Nat.add length].
  replace (S (3 * length expired + 1)) with (S (S (3 * length expired))) by lia.
  reflexivity.
Qed.


Lemma answers_nil (n : nat) : answers n [].
Proof. intros i _. destruct i; reflexivity. Qed.

Lemma wipe_expired_tasks_quiet (cfg : Config.Settings) (ttl_hours : option Z)
    (w : World) :
  faults w = [] ->
  let ttl := ttl_of cfg ttl_hours in
  let expired := expired_at (clock w) ttl (committed w) in
  cutoff_at (clock w) ttl = Ok (clock w - ttl * 3600)%Z ->
  wipe_expired_tasks cfg ttl_hours w =
  (Ok (length expired),
   world_committed w (purged (map id expired) (committed w))
     (sweep_statements (clock w - ttl * 3600) expired)).
Proof.
  intros H ttl expired Hc.
  rewrite (wipe_expired_tasks_answers cfg ttl_hours w _ Hc)
    by (rewrite H; apply answers_nil).
  rewrite H, skipn_nil. reflexivity.
Qed.

End SweepRun.

Section SweepFaults.

Lemma keeps_ret {A} (a : A) : keeps (ret a).
Proof. intros w. cbn. repeat split. discriminate. Qed.

Lemma keeps_bind {A B} (c : Async A) (k : A -> Async B) :
  keeps c -> (forall a, keeps (k a)) -> keeps (bind c k).
Proof.
  intros Hc Hk w. unfold bind. destruct (Hc w) as (Hh & Hd & Ht).
  destruct (c w) as [[a | e |] w1]; cbn in *.
  - destruct (Hk a w1) as (Hh' & Hd' & Ht'). repeat split; congruence.
  - repeat split; [discriminate | assumption | assumption].
  - contradiction.
Qed.

Lemma keeps_round_trip (ev : Event) : keeps (round_trip ev).
Proof.
  intros w. unfold round_trip. destruct (faults w) as [| [|] ?]; cbn;
    repeat split; discriminate.
Qed.

Lemma keeps_modify (f : DB -> DB) : keeps (modify_session f).
Proof. intros w. cbn. repeat split. discriminate. Qed.

Lemma keeps_statement (ev : Event) (f : DB -> DB) :
  keeps (bind (round_trip ev) (fun _ => modify_session f)).
Proof. apply keeps_bind; [apply keeps_round_trip | intros _; apply keeps_modify]. Qed.

Lemma keeps_select (cutoff : Z) : keeps (select_expired cutoff).
Proof.
  unfold select_expired. apply keeps_bind; [apply keeps_round_trip | intros _].
  intros w. cbn. repeat split. discriminate.
Qed.

Lemma keeps_wipe_each (expired : list ScanTask) (n : nat) :
  keeps (SecureWipe.wipe_each expired n).
Proof.
  revert n. induction expired as [| t rest IH]; intros n; cbn [SecureWipe.wipe_each].
  - apply keeps_ret.
  - repeat (apply keeps_bind; [apply keeps_statement | intros _]). apply IH.
Qed.

(** [commit] changes the durable tables only when it returns. *)
Lemma commit_cases (w : World) :
  (commit w).1 <> Hang /\ clock (commit w).2 = clock w /\
  (forall e, (commit w).1 = Raise e -> committed (commit w).2 = committed w).
Proof.
  unfold commit, bind, round_trip.
  destruct (faults w) as [| [|] ?]; cbn; repeat split; discriminate.
Qed.

(** A sweep returns or raises; when it raises, nothing of it is
    committed. *)
Lemma wipe_expired_tasks_cases (cfg : Config.Settings) (ttl_hours : option Z)
    (w : World) :
  exists o w', SecureWipe.wipe_expired_tasks cfg ttl_hours w = (o, w') /\
    o <> Hang /\ clock w' = clock w /\
    (forall e, o = Raise e -> committed w' = committed w).
Proof.
  rewrite wipe_expired_tasks_unfold.
  destruct (cutoff_at (clock w) (ttl_of cfg ttl_hours)) as [cutoff | e0 |] eqn:Hc;
    [| eexists _, _; split; [reflexivity |]; repeat split; discriminate
     | exfalso; exact (cutoff_at_returns _ _ Hc)].
  unfold with_session.
  pose (w0 := {| committed := committed w; session := committed w; clock := clock w;
                 faults := faults w; trace := trace w |}).
  fold w0. cbv zeta.
  unfold bind at 1.
  destruct (keeps_select cutoff w0) as (Hh & Hd & Ht).
  destruct (select_expired cutoff w0) as [[expired | e |] wa]; cbn in Hh, Hd, Ht;
    [| eexists _, _; split; [reflexivity |]; cbn; repeat split;
       first [discriminate | congruence | intros; congruence]
     | contradiction].
  unfold bind at 1.
  destruct (keeps_wipe_each expired 0 wa) as (Hh' & Hd' & Ht').
  destruct (SecureWipe.wipe_each expired 0 wa) as [[n | e |] wb]; cbn in Hh', Hd', Ht';
    [| eexists _, _; split; [reflexivity |]; cbn; repeat split;
       first [discriminate | congruence | intros; congruence]
     | contradiction].
  unfold bind at 1.
  destruct (commit_cases wb) as (Hh'' & Ht'' & Hd'').
  destruct (commit wb) as [[[] | e |] wc]; cbn in Hh'', Hd'', Ht'';
    [| eexists _, _; split; [reflexivity |]; cbn; repeat split;
       first [discriminate | congruence
             | intros ? _; rewrite (Hd'' e eq_refl); congruence]
     | contradiction].
  eexists _, _. split; [reflexivity |]. cbn.
  repeat split; first [discriminate | congruence].
Qed.

(** One turn of the auto-wipe loop always comes back: a failed sweep is
    swallowed, and the loop sleeps an hour. *)
Lemma auto_wipe_turn_run (cfg : Config.Settings) (w : World) :
  _auto_wipe_turn cfg w =
  (Ok tt, slept 3600 (SecureWipe.wipe_expired_tasks cfg None w).2).
Proof.
  unfold _auto_wipe_turn, try_except. unfold bind at 1. unfold bind at 1.
  destruct (wipe_expired_tasks_cases cfg None w) as (o & w' & E & Hh & _).
  rewrite E. destruct o as [n | e |]; [reflexivity | reflexivity | contradiction].
Qed.

End SweepFaults.




(** ** Further properties of the wipe *)

Section WipeOne.

Lemma wipe_task_data_tables (tid : string) (w : World) :
  faults w = [] ->
  committed (wipe_task_data tid w).2 =
  match List.find (fun t => bool_decide (id t = tid)) (scan_tasks (committed w)) with
  | None => committed w
  | Some _ => task_deleted tid (report_deleted tid (findings_deleted tid (committed w)))
  end.
Proof.
  intros H. rewrite (wipe_task_data_quiet tid w H).
  destruct (List.find _ (scan_tasks (committed w))); reflexivity.
Qed.

End WipeOne.

(** X7: a wipe the storage layer answers touches the rows of its own
    task only: every task, finding and report of another id is in the
    tables afterwards exactly when it was before.  When the task row does
    not exist the wipe deletes nothing at all, not even findings or
    reports that carry the id. *)
Theorem wipe_task_data_touches_one_task (tid : string) (w : World) :
  faults w = [] ->
  let after := committed (wipe_task_data tid w).2 in
  (forall t, id t <> tid ->
     (In t (scan_tasks after) <-> In t (scan_tasks (committed w)))) /\
  (forall f, task_id f <> tid ->
     (In f (findings after) <-> In f (findings (committed w)))) /\
  (forall r, report_task_id r <> tid ->
     (In r (threat_reports after) <-> In r (threat_reports (committed w)))) /\
  (~ has_task (committed w) tid -> after = committed w).
Proof.
  intros H after. unfold after. rewrite (wipe_task_data_tables tid w H).
  destruct (List.find _ (scan_tasks (committed w))) as [t0 |] eqn:E.
  - repeat split; try (intros Hin; cbn in Hin; apply List.filter_In in Hin; apply Hin).
    + intros Hin. cbn. apply List.filter_In. split; [exact Hin |].
      apply negb_true_iff, bool_decide_eq_false. assumption.
    + intros Hin. cbn. apply List.filter_In. split; [exact Hin |].
      apply negb_true_iff, bool_decide_eq_false. assumption.
    + intros Hin. cbn. apply List.filter_In. split; [exact Hin |].
      apply negb_true_iff, bool_decide_eq_false. assumption.
    + intros Hn. exfalso. apply Hn. exact (find_some_task _ _ _ E).
  - repeat split; intros Hin; exact Hin.
Qed.

Lemma wipe_task_data_touches_one_task_witness :
  In (sample_finding "t2" "GitHub")
     (findings (committed (wipe_task_data "t1" (world_of sample_db 100 [])).2)).
Proof.
  destruct (wipe_task_data_touches_one_task "t1" (world_of sample_db 100 []) eq_refl)
    as (_ & Hf & _).
  refine (proj2 (Hf (sample_finding "t2" "GitHub") _) _).
  - discriminate.
  - right. left. reflexivity.
Defined.

(** X8: whatever the storage layer does, a wipe is all or nothing.  It
    returns or raises; when it returns True the three deletes are durable
    together; in every other case (the task is unknown, or a statement or
    the commit failed) the durable tables are exactly what they were. *)
Theorem wipe_task_data_all_or_nothing (tid : string) (w : World) :
  let run := wipe_task_data tid w in
  (run.1 = Ok true /\
   committed run.2 =
     task_deleted tid (report_deleted tid (findings_deleted tid (committed w)))) \/
  ((run.1 = Ok false \/ exists e, run.1 = Raise e) /\ committed run.2 = committed w).
Proof.
  cbv zeta. destruct w as [c s k f tr].
  unfold wipe_task_data, with_session. cbn [committed clock faults trace].
  unfold get_task, delete_findings, delete_report, delete_task, commit.
  destruct f as [| [] f]; cbn;
    [destruct (List.find _ (scan_tasks c)); cbn; [left | right]; split; eauto
    | right; split; eauto |].
  destruct (List.find _ (scan_tasks c)); cbn; [| right; split; eauto].
  destruct f as [| [] f]; cbn; [left; split; reflexivity | right; split; eauto |].
  destruct f as [| [] f]; cbn; [left; split; reflexivity | right; split; eauto |].
  destruct f as [| [] f]; cbn; [left; split; reflexivity | right; split; eauto |].
  destruct f as [| [] f]; cbn; [left; split; reflexivity | right; split; eauto |].
  left; split; reflexivity.
Qed.

(** ** Further properties of the sweep *)

Section SweepAny.

Lemma same_id_same_task (l : list ScanTask) (t t' : ScanTask) :
  NoDup (map id l) -> In t l -> In t' l -> id t = id t' -> t = t'.
Proof.
  induction l as [| x l IH]; intros Hnd Ht Ht' E; [destruct Ht |].
  cbn [map] in Hnd. apply NoDup_cons in Hnd as [Hx Hnd].
  destruct Ht as [-> | Ht], Ht' as [-> | Ht'].
  - reflexivity.
  - exfalso. apply Hx. rewrite E. apply list_elem_of_In, in_map, Ht'.
  - exfalso. apply Hx. rewrite <- E. apply list_elem_of_In, in_map, Ht.
  - apply IH; assumption.
Qed.

Lemma expired_listed (t0 ttl : Z) (d : DB) (t : ScanTask) :
  NoDup (map id (scan_tasks d)) -> In t (scan_tasks d) ->
  listed (map id (expired_at t0 ttl d)) (id t) = (created_at t <? t0 - ttl * 3600)%Z.
Proof.
  intros Hnd Ht. unfold listed. apply eq_true_iff_eq.
  rewrite bool_decide_eq_true, list_elem_of_In, in_map_iff. unfold expired_at. split.
  - intros (t' & E & Hin). apply List.filter_In in Hin as [Hin Hlt].
    rewrite (same_id_same_task _ t t' Hnd Ht Hin (eq_sym E)). exact Hlt.
  - intros Hlt. exists t. split; [reflexivity |]. apply List.filter_In. split; assumption.
Qed.

End SweepAny.

(** X9: a sweep the storage layer answers, with the configured TTL or an
    explicit one whose cutoff is a datetime, removes the expired tasks and
    nothing else.  With task ids unique, the tasks left are exactly those
    created at or after the cutoff, in their order, and every finding and
    report of such a task is still there. *)
Theorem sweep_keeps_fresh_tasks (cfg : Config.Settings) (ttl_hours : option Z)
    (w : World) :
  faults w = [] ->
  cutoff_at (clock w) (ttl_of cfg ttl_hours) =
    Ok (clock w - ttl_of cfg ttl_hours * 3600)%Z ->
  NoDup (map id (scan_tasks (committed w))) ->
  let cutoff := (clock w - ttl_of cfg ttl_hours * 3600)%Z in
  let after := committed (SecureWipe.wipe_expired_tasks cfg ttl_hours w).2 in
  scan_tasks after =
    List.filter (fun t => negb (created_at t <? cutoff)%Z) (scan_tasks (committed w)) /\
  forall t, In t (scan_tasks (committed w)) -> (cutoff <= created_at t)%Z ->
    (forall f, In f (findings (committed w)) -> task_id f = id t ->
               In f (findings after)) /\
    (forall r, In r (threat_reports (committed w)) -> report_task_id r = id t ->
               In r (threat_reports after)).
Proof.
  intros H Hcut Hnd cutoff after. unfold after.
  rewrite (wipe_expired_tasks_quiet cfg ttl_hours w H Hcut).
  cbn [snd committed world_committed]. split.
  - cbn [scan_tasks purged]. apply filter_ext_in. intros t Ht.
    rewrite (expired_listed _ _ _ t Hnd Ht). reflexivity.
  - intros t Ht Hfresh.
    assert (L : listed (map id (expired_at (clock w) (ttl_of cfg ttl_hours) (committed w)))
                  (id t) = false).
    { rewrite (expired_listed _ _ _ t Hnd Ht). apply Z.ltb_ge. exact Hfresh. }
    split.
    + intros f Hf E. cbn [findings purged]. apply List.filter_In.
      split; [exact Hf |]. rewrite E, L. reflexivity.
    + intros r Hr E. cbn [threat_reports purged]. apply List.filter_In.
      split; [exact Hr |]. rewrite E, L. reflexivity.
Qed.

Lemma sample_db_ids : NoDup (map id (scan_tasks sample_db)).
Proof. refine (bool_decide_unpack _ _). vm_compute. exact I. Qed.

Lemma sweep_keeps_fresh_tasks_witness :
  scan_tasks (committed (SecureWipe.wipe_expired_tasks Config.settings (Some 0%Z)
                           (world_of sample_db 5 [])).2) =
  List.filter (fun t => negb (created_at t <? 5 - 0 * 3600)%Z) (scan_tasks sample_db).
Proof.
  destruct (sweep_keeps_fresh_tasks Config.settings (Some 0%Z) (world_of sample_db 5 [])
              eq_refl eq_refl sample_db_ids) as [H _].
  exact H.
Defined.

(** X10: a second sweep right after a sweep, the storage layer answering
    and the cutoff being a datetime, finds nothing to do: it returns 0 and
    leaves the tables as the first sweep left them. *)
Theorem sweep_twice (cfg : Config.Settings) (ttl_hours : option Z) (w : World) :
  faults w = [] ->
  cutoff_at (clock w) (ttl_of cfg ttl_hours) =
    Ok (clock w - ttl_of cfg ttl_hours * 3600)%Z ->
  let first := SecureWipe.wipe_expired_tasks cfg ttl_hours w in
  let second := SecureWipe.wipe_expired_tasks cfg ttl_hours first.2 in
  second.1 = Ok 0%nat /\ committed second.2 = committed first.2.
Proof.
  intros H Hcut. cbv zeta.
  rewrite (wipe_expired_tasks_quiet cfg ttl_hours w H Hcut). cbn [snd].
  rewrite wipe_expired_tasks_quiet by (first [reflexivity | exact Hcut]).
  cbn [clock committed world_committed fst snd].
  assert (E : expired_at (clock w) (ttl_of cfg ttl_hours)
                (purged (map id (expired_at (clock w) (ttl_of cfg ttl_hours) (committed w)))
                        (committed w)) = []).
  { destruct (expired_at (clock w) (ttl_of cfg ttl_hours) (purged _ _)) as [| t l] eqn:E;
      [reflexivity |].
    assert (Ht : In t (expired_at (clock w) (ttl_of cfg ttl_hours)
                         (purged (map id (expired_at (clock w) (ttl_of cfg ttl_hours)
                                            (committed w))) (committed w))))
      by (rewrite E; left; reflexivity).
    unfold expired_at at 1 in Ht. apply List.filter_In in Ht as [Hin Hlt].
    apply purged_expired_gone in Hin. apply Z.ltb_lt in Hlt. lia. }
  rewrite E. cbn [length map]. rewrite purged_nil. split; reflexivity.
Qed.

Lemma sweep_twice_witness :
  (SecureWipe.wipe_expired_tasks Config.settings None
     (SecureWipe.wipe_expired_tasks Config.settings None
        (world_of sample_db 200000 [])).2).1 = Ok 0%nat.
Proof.
  destruct (sweep_twice Config.settings None (world_of sample_db 200000 []) eq_refl
              eq_refl) as [H _].
  exact H.
Defined.

(** ** The retention loop under storage faults *)

Section NoNewRows.

Lemma sub_db_refl (d : DB) : sub_db d d.
Proof. repeat split; apply incl_refl. Qed.

Lemma sub_db_trans (d1 d2 d3 : DB) : sub_db d1 d2 -> sub_db d2 d3 -> sub_db d1 d3.
Proof.
  intros (A1 & A2 & A3) (B1 & B2 & B3).
  repeat split; eapply incl_tran; eassumption.
Qed.

Lemma adds_no_row_ret {A} (a : A) : adds_no_row (ret a).
Proof. intros w d Hc Hs. split; assumption. Qed.

Lemma adds_no_row_bind {A B} (c : Async A) (k : A -> Async B) :
  adds_no_row c -> (forall a, adds_no_row (k a)) -> adds_no_row (bind c k).
Proof.
  intros Hc Hk w d H1 H2. unfold bind.
  destruct (Hc w d H1 H2) as [H1' H2'].
  destruct (c w) as [[a | e |] w']; cbn [snd] in *.
  - apply Hk; assumption.
  - split; assumption.
  - split; assumption.
Qed.

Lemma adds_no_row_round_trip (ev : Event) : adds_no_row (round_trip ev).
Proof.
  intros w d Hc Hs. unfold round_trip.
  destruct (faults w) as [| [] fs]; split; assumption.
Qed.

Lemma adds_no_row_modify (f : DB -> DB) :
  (forall s, sub_db (f s) s) -> adds_no_row (modify_session f).
Proof.
  intros Hf w d Hc Hs. split; [exact Hc |].
  cbn. eapply sub_db_trans; [apply Hf | exact Hs].
Qed.

Lemma adds_no_row_commit : adds_no_row commit.
Proof.
  unfold commit. apply adds_no_row_bind; [apply adds_no_row_round_trip |].
  intros _ w d Hc Hs. split; exact Hs.
Qed.

Lemma sub_db_deleted (tid : string) (s : DB) :
  sub_db (findings_deleted tid s) s /\ sub_db (report_deleted tid s) s /\
  sub_db (task_deleted tid s) s.
Proof.
  repeat split; cbn; first [apply incl_refl | apply incl_filter].
Qed.

Lemma adds_no_row_wipe_each (expired : list ScanTask) (n : nat) :
  adds_no_row (SecureWipe.wipe_each expired n).
Proof.
  revert n. induction expired as [| t rest IH]; intros n; cbn [SecureWipe.wipe_each].
  - apply adds_no_row_ret.
  - unfold delete_findings, delete_report, delete_task.
    repeat (apply adds_no_row_bind;
            [apply adds_no_row_bind;
             [apply adds_no_row_round_trip
             | intros _; apply adds_no_row_modify; intros s; apply sub_db_deleted]
            | intros _]).
    apply IH.
Qed.

Lemma sweep_adds_no_row (cfg : Config.Settings) (ttl_hours : option Z) (w : World) :
  sub_db (committed (SecureWipe.wipe_expired_tasks cfg ttl_hours w).2) (committed w).
Proof.
  rewrite wipe_expired_tasks_unfold.
  destruct (cutoff_at (clock w) (ttl_of cfg ttl_hours)) as [cutoff | e |];
    [| apply sub_db_refl ..].
  unfold with_session. cbn [committed clock faults trace].
  match goal with |- context [bind ?c ?k ?w0] =>
    assert (H : adds_no_row (bind c k));
    [| destruct (H w0 (committed w) (sub_db_refl _) (sub_db_refl _)) as [Hc _];
       destruct (bind c k w0) as [r w1]; exact Hc]
  end.
  apply adds_no_row_bind.
  { unfold select_expired. apply adds_no_row_bind; [apply adds_no_row_round_trip |].
    intros _. apply adds_no_row_bind; [| intros d; apply adds_no_row_ret].
    intros w0 d Hc Hs. split; assumption. }
  intros expired. apply adds_no_row_bind; [apply adds_no_row_wipe_each |].
  intros n. apply adds_no_row_bind; [apply adds_no_row_commit | intros _; apply adds_no_row_ret].
Qed.

Lemma auto_wipe_loop_run (cfg : Config.Settings) (n : nat) :
  forall w,
  (_auto_wipe_loop cfg n w).1 = Ok tt /\
  clock (_auto_wipe_loop cfg n w).2 = (clock w + 3600 * Z.of_nat n)%Z /\
  sub_db (committed (_auto_wipe_loop cfg n w).2) (committed w).
Proof.
  induction n as [| n IH]; intros w.
  - cbn. repeat split; [lia | apply incl_refl ..].
  - assert (E1 : _auto_wipe_loop cfg (S n) w =
                 _auto_wipe_loop cfg n
                   (slept 3600 (SecureWipe.wipe_expired_tasks cfg None w).2)).
    { cbn [_auto_wipe_loop]. unfold bind at 1. rewrite auto_wipe_turn_run. reflexivity. }
    rewrite E1.
    destruct (IH (slept 3600 (SecureWipe.wipe_expired_tasks cfg None w).2))
      as (H1 & H2 & H3).
    split; [exact H1 |]. split.
    + rewrite H2. cbn [clock slept].
      destruct (wipe_expired_tasks_cases cfg None w) as (o & w' & E & _ & Hc & _).
      rewrite E. cbn [snd]. rewrite Hc. lia.
    + eapply sub_db_trans; [exact H3 |]. cbn [committed slept].
      apply sweep_adds_no_row.
Qed.

End NoNewRows.

(** X11: the retention loop outlives any behaviour of the storage layer:
    any number of turns come back without an exception, each turn
    advances the clock by an hour, and no turn adds or alters a row:
    every task, finding and report in the tables afterwards was there
    before. *)
Theorem auto_wipe_loop_survives (cfg : Config.Settings) (n : nat) (w : World) :
  let run := _auto_wipe_loop cfg n w in
  run.1 = Ok tt /\
  clock run.2 = (clock w + 3600 * Z.of_nat n)%Z /\
  incl (scan_tasks (committed run.2)) (scan_tasks (committed w)) /\
  incl (findings (committed run.2)) (findings (committed w)) /\
  incl (threat_reports (committed run.2)) (threat_reports (committed w)).
Proof. exact (auto_wipe_loop_run cfg n w). Qed.

(** ** The per-probe runner and the fan-out *)

Import Manager ManagerSpec.

(** The runner returns a result on every path. *)
Lemma run_single_returns (cfg : Config.Settings) (net : Network) (s : BaseScraper)
    (query query_type : string) :
  _run_single_scraper cfg net s query query_type = Ok (result_of cfg net s query query_type).
Proof.
  unfold _run_single_scraper, wait_for_check, result_of.
  destruct (net s query query_type); reflexivity.
Qed.

Lemma result_of_platform (cfg : Config.Settings) (net : Network) (s : BaseScraper)
    (query query_type : string) :
  Base.platform (result_of cfg net s query query_type) = platform_name s.
Proof. unfold result_of. destruct (net s query query_type); reflexivity. Qed.

Section Gather.

Variable f : BaseScraper -> Base.ScraperResult.
Variable run : BaseScraper -> outcome Base.ScraperResult.
Hypothesis run_ok : forall s, run s = Ok (f s).
Variable scrapers : list BaseScraper.
Variable permits : nat.
Hypothesis permits_pos : (1 <= permits)%nat.

Lemma acquire_pending (p : Pool) : pending (acquire permits p) = pending p.
Proof.
  unfold pending, acquire. cbn [running waiting].
  rewrite <- app_assoc, take_drop. reflexivity.
Qed.

Lemma acquire_ok (p : Pool) : pool_ok f scrapers p -> pool_ok f scrapers (acquire permits p).
Proof.
  unfold pool_ok. rewrite acquire_pending. intros H. exact H.
Qed.

Lemma acquire_runs (p : Pool) : pending p <> [] -> running (acquire permits p) <> [].
Proof.
  unfold pending, acquire. cbn [running].
  destruct (running p) as [| r rs]; [| discriminate].
  cbn [app length]. rewrite Nat.sub_0_r.
  destruct (waiting p) as [| t ts]; [intros H; contradiction |].
  intros _. destruct permits as [| k]; [lia | discriminate].
Qed.

(** A task that finishes leaves a well-formed pool, its slot filled. *)
Lemma finish_ok (p : Pool) (i idx : nat) (s : BaseScraper) :
  pool_ok f scrapers p ->
  running p !! i = Some (idx, s) ->
  pool_ok f scrapers
    {| waiting := waiting p; running := delete i (running p);
       slots := <[idx := Some (f s)]> (slots p) |}.
Proof.
  intros (Hlen & Hnd & Hin & Hsl) Hi.
  pose proof (take_drop_middle _ _ _ Hi) as Hmid.
  pose proof (lookup_lt_Some _ _ _ Hi) as Hlt.
  set (l1 := take i (running p)) in *. set (l2 := drop (S i) (running p)) in *.
  assert (Hl1 : length l1 = i) by (unfold l1; rewrite length_take; lia).
  assert (Hdel : delete i (running p) = l1 ++ l2).
  { rewrite <- Hmid. rewrite <- Hl1 at 1. apply delete_middle. }
  assert (Hp : pending p = l1 ++ (idx, s) :: (l2 ++ waiting p)).
  { unfold pending. rewrite <- Hmid, <- app_assoc. reflexivity. }
  unfold pool_ok, pending in *. cbn [running waiting slots].
  rewrite Hdel, <- app_assoc.
  rewrite Hp in Hnd, Hin, Hsl.
  rewrite fmap_app, fmap_cons in Hnd, Hsl. cbn [fst] in Hnd, Hsl.
  apply NoDup_app in Hnd as (Hnd1 & Hdisj & Hnd2).
  apply NoDup_cons in Hnd2 as (Hnot2 & Hnd2).
  assert (Hnot1 : idx ∉ l1.*1).
  { intros Hx. apply (Hdisj idx Hx). left. }
  assert (Hs : scrapers !! idx = Some s).
  { apply Hin. apply elem_of_app. right. left. }
  repeat split.
  - rewrite length_insert. exact Hlen.
  - rewrite fmap_app. apply NoDup_app. repeat split; [exact Hnd1 | | exact Hnd2].
    intros x Hx Hx'. apply (Hdisj x Hx). right. exact Hx'.
  - intros j t Hj. apply Hin. apply elem_of_app in Hj as [Hj | Hj];
      apply elem_of_app; [left; exact Hj | right; right; exact Hj].
  - intros j t Hj. rewrite fmap_app.
    destruct (decide (idx = j)) as [<- | Hne].
    + rewrite list_lookup_insert_eq
        by (rewrite Hlen; apply (lookup_lt_Some _ _ _ Hs)).
      rewrite Hs in Hj. injection Hj as <-.
      rewrite bool_decide_eq_false_2; [reflexivity |].
      intros Hx. apply elem_of_app in Hx as [Hx | Hx]; contradiction.
    + rewrite list_lookup_insert_ne by exact Hne.
      rewrite (Hsl j t Hj).
      rewrite (bool_decide_ext (j ∈ l1.*1 ++ idx :: (l2 ++ waiting p).*1)
                               (j ∈ l1.*1 ++ (l2 ++ waiting p).*1)); [reflexivity |].
      rewrite !elem_of_app, elem_of_cons.
      split.
      * intros [H | [H | H]]; [left; exact H | congruence | right; exact H].
      * intros [H | H]; [left; exact H | right; right; exact H].
Qed.

Lemma gather_loop_finishes (turns : nat) (sched : list nat) (p : Pool) :
  pool_ok f scrapers p ->
  length (pending p) = turns ->
  exists p', gather_loop run permits turns sched p = Ok p' /\
             pool_ok f scrapers p' /\ pending p' = [].
Proof.
  revert sched p. induction turns as [| turns IH]; intros sched p Hok Hlen.
  - exists p. cbn [gather_loop]. split; [reflexivity | split; [exact Hok |]].
    destruct (pending p); [reflexivity | discriminate].
  - cbn [gather_loop].
    pose proof (acquire_ok p Hok) as Hok'.
    assert (Hne : running (acquire permits p) <> []).
    { apply acquire_runs. intros E. rewrite E in Hlen. discriminate. }
    set (q := acquire permits p) in *.
    set (i := (hd 0%nat sched mod length (running q))%nat).
    assert (Hi : (i < length (running q))%nat).
    { apply Nat.mod_upper_bound. destruct (running q); [contradiction | discriminate]. }
    destruct (lookup_lt_is_Some_2 _ _ Hi) as [[idx s] Hl].
    rewrite Hl, run_ok.
    apply IH.
    + apply finish_ok; assumption.
    + unfold pending. cbn [running waiting].
      rewrite length_app, length_delete by (eexists; exact Hl).
      assert (Hq : length (pending q) = S turns)
        by (unfold q; rewrite acquire_pending; exact Hlen).
      unfold pending in Hq. rewrite length_app in Hq. lia.
Qed.

Lemma collect_filled (l : list BaseScraper) :
  collect ((fun s => Some (f s)) <$> l) = Some (f <$> l).
Proof.
  induction l as [| s l IH]; [reflexivity |].
  cbn [fmap list_fmap collect]. cbn in IH. rewrite IH. reflexivity.
Qed.

(** Whatever the completion order, [gather] returns one result per
    scraper, in submission order. *)
Lemma gather_returns (sched : list nat) :
  gather run permits sched scrapers = Ok (f <$> scrapers).
Proof.
  unfold gather.
  set (p0 := {| waiting := imap (fun i s => (i, s)) scrapers; running := [];
                slots := replicate (length scrapers) None |}).
  assert (Hfst : (imap (fun i s => (i, s)) scrapers).*1 = seq 0 (length scrapers)).
  { apply list_eq. intros j. rewrite list_lookup_fmap, list_lookup_imap.
    destruct (scrapers !! j) as [s |] eqn:E; cbn.
    - symmetry. apply lookup_seq. split; [reflexivity | apply (lookup_lt_Some _ _ _ E)].
    - symmetry. apply lookup_seq_ge. apply lookup_ge_None. exact E. }
  assert (Hok : pool_ok f scrapers p0).
  { unfold pool_ok, pending, p0. cbn [running waiting slots app]. rewrite Hfst.
    repeat split.
    - apply length_replicate.
    - apply NoDup_seq.
    - intros i s Hin. apply elem_of_lookup_imap in Hin as (j & t & E & Hj).
      injection E as -> ->. exact Hj.
    - intros j s Hj. pose proof (lookup_lt_Some _ _ _ Hj) as Hlt.
      rewrite lookup_replicate_2 by exact Hlt.
      rewrite bool_decide_eq_true_2; [reflexivity |].
      apply elem_of_seq. lia. }
  destruct (gather_loop_finishes (length scrapers) sched p0 Hok) as (p' & E & Hok' & Hdone).
  { unfold pending, p0. cbn [running waiting app]. apply length_imap. }
  rewrite E. unfold pending in Hdone.
  apply app_eq_nil in Hdone as [Hr Hw]. rewrite Hr, Hw.
  destruct Hok' as (Hlen & _ & _ & Hsl).
  assert (Hs : slots p' = (fun s => Some (f s)) <$> scrapers).
  { apply list_eq. intros j. rewrite list_lookup_fmap.
    destruct (scrapers !! j) as [s |] eqn:Ej; cbn.
    - rewrite (Hsl j s Ej). unfold pending. rewrite Hr, Hw. reflexivity.
    - apply lookup_ge_None. rewrite Hlen. apply lookup_ge_None. exact Ej. }
  rewrite Hs, collect_filled. reflexivity.
Qed.

End Gather.

(** ** [run_scan] when the storage layer answers *)

Section ScanQuiet.

Lemma get_task_qw (tid : string) (c s : DB) (k : Z) (tr : list Event) :
  get_task tid (quiet_world c s k tr) =
  (Ok (find_task tid s), quiet_world c s k (tr ++ [EGet tid])).
Proof. reflexivity. Qed.

Lemma modify_qw (f : DB -> DB) (c s : DB) (k : Z) (tr : list Event) :
  modify_session f (quiet_world c s k tr) = (Ok tt, quiet_world c (f s) k tr).
Proof. reflexivity. Qed.

Lemma commit_qw (c s : DB) (k : Z) (tr : list Event) :
  commit (quiet_world c s k tr) = (Ok tt, quiet_world s s k (tr ++ [ECommit])).
Proof. reflexivity. Qed.

Lemma with_session_qw {A} (body : Async A) (a : A) (c s c' s' : DB) (k k' : Z)
    (tr tr' : list Event) :
  body (quiet_world c c k tr) = (Ok a, quiet_world c' s' k' tr') ->
  with_session body (quiet_world c s k tr) = (Ok a, quiet_world c' c' k' tr').
Proof.
  intros H. unfold with_session. cbn [committed clock faults trace quiet_world].
  change {| committed := c; session := c; clock := k; faults := []; trace := tr |}
    with (quiet_world c c k tr).
  rewrite H. reflexivity.
Qed.

Lemma mark_running_qw (tid : string) (c s : DB) (k : Z) (tr : list Event) :
  exists tr',
    with_session
      (bind (get_task tid) (fun task =>
         match task with
         | Some _ =>
             bind (update_task tid (fun t => set_progress 0 (set_status "running" t)))
                  (fun _ => commit)
         | None => ret tt
         end))
      (quiet_world c s k tr) =
    (Ok tt, quiet_world (scan_started tid c) (scan_started tid c) k tr').
Proof.
  unfold scan_started.
  destruct (find_task tid c) as [t |] eqn:E; eexists; eapply with_session_qw;
    rewrite (bind_ok _ _ _ _ _ (get_task_qw _ _ _ _ _)), E.
  - unfold update_task. rewrite (bind_ok _ _ _ _ _ (modify_qw _ _ _ _ _)).
    apply commit_qw.
  - reflexivity.
Qed.

Lemma store_findings_qw (tid : string) (total : nat) (results : list Base.ScraperResult) :
  forall (i : nat) (c s : DB) (k : Z) (tr : list Event),
  exists tr',
    store_findings tid total i results (quiet_world c s k tr) =
    (Ok tt, quiet_world c (stored tid total i results s) k tr').
Proof.
  induction results as [| r rest IH]; intros i c s k tr.
  - exists tr. reflexivity.
  - cbn [store_findings stored]. unfold add_finding.
    rewrite (bind_ok _ _ _ _ _ (modify_qw _ _ _ _ _)).
    rewrite (bind_ok _ _ _ _ _ (get_task_qw _ _ _ _ _)).
    destruct (find_task tid (finding_added (to_finding tid r) s)) as [t |].
    + unfold update_task. rewrite (bind_ok _ _ _ _ _ (modify_qw _ _ _ _ _)). apply IH.
    + unfold ret at 1. unfold bind at 1. apply IH.
Qed.

Lemma store_block_qw (tid : string) (total : nat) (results : list Base.ScraperResult)
    (c s : DB) (k : Z) (tr : list Event) :
  exists tr',
    with_session (bind (store_findings tid total 0 results) (fun _ => commit))
                 (quiet_world c s k tr) =
    (Ok tt, quiet_world (stored tid total 0 results c) (stored tid total 0 results c) k tr').
Proof.
  destruct (store_findings_qw tid total results 0%nat c c k tr) as [tr1 H1].
  eexists. eapply with_session_qw.
  rewrite (bind_ok _ _ _ _ _ H1). apply commit_qw.
Qed.

Lemma report_block_qw (tid : string) (results : list Base.ScraperResult)
    (c s : DB) (k : Z) (tr : list Event) :
  exists tr',
    _generate_threat_report tid results (quiet_world c s k tr) =
    (Ok tt, quiet_world (report_added (report_of tid results) c)
                        (report_added (report_of tid results) c) k tr').
Proof.
  eexists. unfold _generate_threat_report. eapply with_session_qw.
  unfold add_report. rewrite (bind_ok _ _ _ _ _ (modify_qw _ _ _ _ _)).
  apply commit_qw.
Qed.

Lemma mark_completed_qw (tid : string) (c s : DB) (k : Z) (tr : list Event) :
  exists tr',
    with_session
      (bind (get_task tid) (fun task =>
         match task with
         | Some _ =>
             bind now (fun t_now =>
               bind (update_task tid
                       (fun t => set_completed_at t_now
                                   (set_progress 100 (set_status "completed" t))))
                    (fun _ => commit))
         | None => ret tt
         end))
      (quiet_world c s k tr) =
    (Ok tt, quiet_world (scan_completed tid k c) (scan_completed tid k c) k tr').
Proof.
  unfold scan_completed.
  destruct (find_task tid c) as [t |] eqn:E; eexists; eapply with_session_qw;
    rewrite (bind_ok _ _ _ _ _ (get_task_qw _ _ _ _ _)), E.
  - unfold now at 1. unfold bind at 1. cbn [clock quiet_world].
    unfold update_task. rewrite (bind_ok _ _ _ _ _ (modify_qw _ _ _ _ _)).
    apply commit_qw.
  - reflexivity.
Qed.

Lemma semaphore_permits (value : Z) :
  (1 <= value)%Z -> Semaphore value = Ok (Z.to_nat value) /\ (1 <= Z.to_nat value)%nat.
Proof.
  intros H. unfold Semaphore.
  destruct (Z.ltb_spec value 0); [lia |]. split; [reflexivity | lia].
Qed.

Lemma run_scan_with_qw (cfg : Config.Settings) (net : Network) (sched : list nat)
    (scrapers : list BaseScraper) (tid query query_type : string)
    (c s : DB) (k : Z) (tr : list Event) :
  (1 <= Config.MAX_CONCURRENT_SCRAPERS cfg)%Z ->
  let results := (fun s => result_of cfg net s query query_type) <$> scrapers in
  exists tr',
    run_scan_with cfg net sched scrapers tid query query_type (quiet_world c s k tr) =
    (Ok tt, quiet_world (scanned tid k results c) (scanned tid k results c) k tr').
Proof.
  intros HC results.
  destruct (semaphore_permits _ HC) as [Hsem Hpos].
  unfold run_scan_with.
  destruct (mark_running_qw tid c s k tr) as [tr1 H1].
  rewrite (bind_ok _ _ _ _ _ H1).
  unfold lift at 1. unfold bind at 1. rewrite Hsem.
  unfold lift at 1. unfold bind at 1.
  rewrite (gather_returns (fun s => result_of cfg net s query query_type)
             _ (fun s => run_single_returns cfg net s query query_type) scrapers
             (Z.to_nat (Config.MAX_CONCURRENT_SCRAPERS cfg)) Hpos sched).
  fold results.
  assert (Hlen : length scrapers = length results) by (unfold results; rewrite length_fmap; reflexivity).
  rewrite Hlen.
  destruct (store_block_qw tid (length results) results (scan_started tid c)
              (scan_started tid c) k tr1) as [tr2 H2].
  rewrite (bind_ok _ _ _ _ _ H2).
  destruct (report_block_qw tid results
              (stored tid (length results) 0 results (scan_started tid c))
              (stored tid (length results) 0 results (scan_started tid c)) k tr2)
    as [tr3 H3].
  rewrite (bind_ok _ _ _ _ _ H3).
  apply mark_completed_qw.
Qed.

Lemma scan_started_findings (tid : string) (d : DB) :
  findings (scan_started tid d) = findings d.
Proof. unfold scan_started. destruct (find_task tid d); reflexivity. Qed.

Lemma scan_completed_findings (tid : string) (k : Z) (d : DB) :
  findings (scan_completed tid k d) = findings d.
Proof. unfold scan_completed. destruct (find_task tid d); reflexivity. Qed.

Lemma stored_findings (tid : string) (total : nat) (results : list Base.ScraperResult) :
  forall (i : nat) (d : DB),
  findings (stored tid total i results d) = findings d ++ (to_finding tid <$> results).
Proof.
  induction results as [| r rest IH]; intros i d.
  - cbn. rewrite app_nil_r. reflexivity.
  - cbn [stored]. rewrite IH.
    destruct (find_task tid (finding_added (to_finding tid r) d));
      cbn [findings tasks_updated finding_added]; rewrite <- app_assoc; reflexivity.
Qed.

Lemma scanned_findings (tid : string) (k : Z) (results : list Base.ScraperResult)
    (d : DB) :
  findings (scanned tid k results d) = findings d ++ (to_finding tid <$> results).
Proof.
  unfold scanned. rewrite scan_completed_findings. cbn [findings report_added].
  rewrite stored_findings, scan_started_findings. reflexivity.
Qed.

End ScanQuiet.

(** ** [run_scan] under storage faults: what it never writes *)

Section NoFailed.

Lemma none_failed_ret {A} (a : A) : marks_none_failed (ret a).
Proof. intros w Hc Hs. split; assumption. Qed.

Lemma none_failed_lift {A} (o : outcome A) : marks_none_failed (lift o).
Proof. intros w Hc Hs. split; assumption. Qed.

Lemma none_failed_bind {A B} (c : Async A) (k : A -> Async B) :
  marks_none_failed c -> (forall a, marks_none_failed (k a)) ->
  marks_none_failed (bind c k).
Proof.
  intros Hc Hk w H1 H2. unfold bind.
  destruct (Hc w H1 H2) as [H1' H2'].
  destruct (c w) as [[a | e |] w']; cbn [snd] in *.
  - apply Hk; assumption.
  - split; assumption.
  - split; assumption.
Qed.

Lemma none_failed_round_trip (ev : Event) : marks_none_failed (round_trip ev).
Proof.
  intros w Hc Hs. unfold round_trip.
  destruct (faults w) as [| [] fs]; split; assumption.
Qed.

Lemma none_failed_now : marks_none_failed now.
Proof. intros w Hc Hs. split; assumption. Qed.

Lemma none_failed_modify (f : DB -> DB) :
  (forall d, no_failed d -> no_failed (f d)) -> marks_none_failed (modify_session f).
Proof. intros Hf w Hc Hs. split; [exact Hc | apply Hf; exact Hs]. Qed.

Lemma none_failed_commit : marks_none_failed commit.
Proof.
  unfold commit. apply none_failed_bind; [apply none_failed_round_trip |].
  intros _ w Hc Hs. split; exact Hs.
Qed.

Lemma none_failed_get_task (tid : string) : marks_none_failed (get_task tid).
Proof.
  unfold get_task. apply none_failed_bind; [apply none_failed_round_trip |].
  intros _. apply none_failed_bind; [| intros d; apply none_failed_ret].
  intros w Hc Hs. split; assumption.
Qed.

Lemma none_failed_with_session {A} (body : Async A) (w : World) :
  marks_none_failed body ->
  no_failed (committed w) ->
  no_failed (committed (with_session body w).2) /\
  no_failed (session (with_session body w).2).
Proof.
  intros Hb Hc. unfold with_session.
  match goal with |- context [body ?w0] => destruct (Hb w0 Hc Hc) as [H _];
    destruct (body w0) as [r w1] end.
  split; exact H.
Qed.

Lemma none_failed_block {A} (body : Async A) :
  marks_none_failed body -> marks_none_failed (with_session body).
Proof. intros Hb w Hc _. apply none_failed_with_session; assumption. Qed.

Lemma none_failed_update (tid : string) (f : ScanTask -> ScanTask) :
  (forall t, status t <> "failed" -> status (f t) <> "failed") ->
  marks_none_failed (update_task tid f).
Proof.
  intros Hf. apply none_failed_modify. intros d H.
  unfold no_failed in *. cbn [scan_tasks tasks_updated].
  apply List.Forall_map. revert H. apply List.Forall_impl.
  intros t Ht. destruct (bool_decide (id t = tid)); [apply Hf; exact Ht | exact Ht].
Qed.

Lemma none_failed_store (tid : string) (total : nat) (results : list Base.ScraperResult) :
  forall i, marks_none_failed (store_findings tid total i results).
Proof.
  induction results as [| r rest IH]; intros i; cbn [store_findings].
  - apply none_failed_ret.
  - apply none_failed_bind; [apply none_failed_modify; intros d H; exact H |].
    intros _. apply none_failed_bind; [apply none_failed_get_task |].
    intros task. apply none_failed_bind; [| intros _; apply IH].
    destruct task; [| apply none_failed_ret].
    apply none_failed_update. intros t Ht. exact Ht.
Qed.

Lemma none_failed_after_block {A B} (body : Async A) (k : A -> Async B) (w : World) :
  marks_none_failed body -> (forall a, marks_none_failed (k a)) ->
  no_failed (committed w) ->
  no_failed (committed (bind (with_session body) k w).2).
Proof.
  intros Hb Hk Hc.
  destruct (none_failed_with_session body w Hb Hc) as [H1 H2].
  unfold bind. destruct (with_session body w) as [[a | e |] w']; cbn [snd] in *.
  - apply Hk; assumption.
  - exact H1.
  - exact H1.
Qed.

Lemma run_scan_marks_none_failed (cfg : Config.Settings) (net : Network) (sched : list nat)
    (scrapers : list BaseScraper) (tid q qt : string) (w : World) :
  no_failed (committed w) ->
  no_failed (committed (run_scan_with cfg net sched scrapers tid q qt w).2).
Proof.
  intros Hc. unfold run_scan_with. apply none_failed_after_block; [| | exact Hc].
  - apply none_failed_bind; [apply none_failed_get_task |].
    intros [t |]; [| apply none_failed_ret].
    apply none_failed_bind; [| intros _; apply none_failed_commit].
    apply none_failed_update. intros t0 _. discriminate.
  - intros _.
    apply none_failed_bind; [apply none_failed_lift |]. intros permits.
    apply none_failed_bind; [apply none_failed_lift |]. intros results.
    apply none_failed_bind.
    { apply none_failed_block. apply none_failed_bind; [apply none_failed_store |].
      intros _. apply none_failed_commit. }
    intros _. apply none_failed_bind.
    { unfold _generate_threat_report. apply none_failed_block.
      apply none_failed_bind; [apply none_failed_modify; intros d H; exact H |].
      intros _. apply none_failed_commit. }
    intros _. apply none_failed_block.
    apply none_failed_bind; [apply none_failed_get_task |].
    intros [t |]; [| apply none_failed_ret].
    apply none_failed_bind; [apply none_failed_now |]. intros t_now.
    apply none_failed_bind; [| intros _; apply none_failed_commit].
    apply none_failed_update. intros t0 _. discriminate.
Qed.

(** Without a permit no task ever enters the semaphore: [gather] never
    returns. *)
Lemma gather_without_permits (run : BaseScraper -> outcome Base.ScraperResult)
    (sched : list nat) (s : BaseScraper) (scrapers : list BaseScraper) :
  gather run 0 sched (s :: scrapers) = Hang.
Proof. reflexivity. Qed.

End NoFailed.

(** ** The claims on the orchestrator *)

Local Open Scope string_scope.
Local Open Scope list_scope.

Lemma all_scrapers_distinct : NoDup (platform_name <$> _all_scrapers).
Proof. refine (bool_decide_unpack _ _). vm_compute. exact I. Qed.

(** C3: the per-probe runner returns a result on every path, for the
    platform of its probe; a timeout or an exception of the probe comes
    back as a result with [found = False] and the cause in [error].  With
    a concurrency cap of at least one and a storage layer that answers,
    [run_scan] over N scrapers, whatever the probes do and in whatever
    order they finish, collects N results in submission order, returns,
    and adds exactly one finding per scraper to the table, for the
    scraper's platform; the registered scrapers have pairwise distinct
    platforms. *)
Theorem scan_persists_one_finding_per_probe
    (cfg : Config.Settings) (net : Network) (sched : list nat)
    (scrapers : list BaseScraper) (tid q qt : string) (w : World) :
  let run := fun s => _run_single_scraper cfg net s q qt in
  let results := (fun s => result_of cfg net s q qt) <$> scrapers in
  let after := run_scan_with cfg net sched scrapers tid q qt w in
  (forall s, exists r, run s = Ok r /\ r = result_of cfg net s q qt /\
                       Base.platform r = platform_name s) /\
  (forall s, net s q qt = TimesOut ->
     Base.found (result_of cfg net s q qt) = false /\
     Base.error (result_of cfg net s q qt) =
       Some ("Timeout after " +:+ PyStr.str_int (Config.SCRAPER_TIMEOUT cfg) +:+ "s")) /\
  (forall s msg, net s q qt = Fails msg ->
     Base.found (result_of cfg net s q qt) = false /\
     Base.error (result_of cfg net s q qt) = Some msg) /\
  NoDup (platform_name <$> _all_scrapers) /\
  ((1 <= Config.MAX_CONCURRENT_SCRAPERS cfg)%Z ->
   faults w = [] ->
   gather run (Z.to_nat (Config.MAX_CONCURRENT_SCRAPERS cfg)) sched scrapers = Ok results /\
   length results = length scrapers /\
   after.1 = Ok tt /\
   findings (committed after.2) = findings (committed w) ++ (to_finding tid <$> results) /\
   Database.platform <$> (to_finding tid <$> results) = platform_name <$> scrapers).
Proof.
  intros run results after.
  split; [| split; [| split; [| split]]].
  - intros s. exists (result_of cfg net s q qt).
    split; [apply run_single_returns | split; [reflexivity | apply result_of_platform]].
  - intros s H. unfold result_of. rewrite H. split; reflexivity.
  - intros s msg H. unfold result_of. rewrite H. split; reflexivity.
  - exact all_scrapers_distinct.
  - intros HC Hq.
    destruct (semaphore_permits _ HC) as [_ Hpos].
    split; [| split; [| split; [| split]]].
    + apply (gather_returns (fun s => result_of cfg net s q qt) run
               (fun s => run_single_returns cfg net s q qt) scrapers _ Hpos).
    + unfold results. apply length_fmap.
    + unfold after. destruct w as [c s k f tr]. cbn in Hq. subst f.
      destruct (run_scan_with_qw cfg net sched scrapers tid q qt c s k tr HC) as [tr' E].
      change {| committed := c; session := s; clock := k; faults := []; trace := tr |}
        with (quiet_world c s k tr).
      rewrite E. reflexivity.
    + unfold after. destruct w as [c s k f tr]. cbn in Hq. subst f.
      destruct (run_scan_with_qw cfg net sched scrapers tid q qt c s k tr HC) as [tr' E].
      change {| committed := c; session := s; clock := k; faults := []; trace := tr |}
        with (quiet_world c s k tr).
      rewrite E. cbn [snd committed quiet_world]. apply scanned_findings.
    + unfold results. rewrite <- !list_fmap_compose. apply list_fmap_ext.
      intros i s _. cbn. apply result_of_platform.
Qed.

Lemma scan_persists_one_finding_per_probe_witness :
  length (findings (committed
    (run_scan Config.settings flaky_net [3; 1; 4; 1; 5]%nat "t1" "a@b.c" "email"
       (world_of (fresh_db "t1") 1000 [])).2)) = 20%nat.
Proof.
  destruct (scan_persists_one_finding_per_probe Config.settings flaky_net
              [3; 1; 4; 1; 5]%nat _all_scrapers "t1" "a@b.c" "email"
              (world_of (fresh_db "t1") 1000 [])) as (_ & _ & _ & _ & H).
  destruct (H ltac:(cbn; lia) eq_refl) as (_ & _ & _ & Hf & _).
  unfold run_scan. rewrite Hf. rewrite length_app, !length_fmap. reflexivity.
Defined.

(** C4, as the spec words it, does not hold: the findings table has no
    error column.  When every probe times out, every result carries the
    timeout in [error], and yet the scan leaves exactly the tables it
    leaves when every probe reports that the account does not exist. *)
Lemma timed_out_finding_is_absent_finding :
  let w := world_of (fresh_db "t1") 1000 [] in
  let timed_out := run_scan Config.settings timeout_net [] "t1" "a@b.c" "email" w in
  let absent := run_scan Config.settings quiet_net [] "t1" "a@b.c" "email" w in
  Base.error (result_of Config.settings timeout_net github "a@b.c" "email")
    = Some "Timeout after 30s" /\
  Base.error (result_of Config.settings quiet_net github "a@b.c" "email") = None /\
  timed_out.1 = Ok tt /\ absent.1 = Ok tt /\
  length (findings (committed timed_out.2)) = 20%nat /\
  committed timed_out.2 = committed absent.2.
Proof.
  cbv zeta.
  split; [vm_compute; reflexivity |].
  split; [vm_compute; reflexivity |].
  split; [vm_compute; reflexivity |].
  split; [vm_compute; reflexivity |].
  split; [vm_compute; reflexivity |].
  vm_compute; reflexivity.
Qed.

(** C4, amended: for a probe of the scan that times out or raises, the
    result handed to the orchestrator has [found = False] and the cause
    in [error] (for a timeout, the text "Timeout after <n>s"); the
    finding persisted for it has [found = 0], no url and no data, and is
    the very row persisted for a probe that reports absence: the error
    is not stored. *)
Theorem failed_probe_finding
    (cfg : Config.Settings) (net : Network) (sched : list nat)
    (scrapers : list BaseScraper) (tid q qt : string) (w : World)
    (s : BaseScraper) (cause : string) :
  (1 <= Config.MAX_CONCURRENT_SCRAPERS cfg)%Z ->
  faults w = [] ->
  s ∈ scrapers ->
  net s q qt = TimesOut /\
    cause = "Timeout after " +:+ PyStr.str_int (Config.SCRAPER_TIMEOUT cfg) +:+ "s" \/
  net s q qt = Fails cause ->
  let r := result_of cfg net s q qt in
  let after := run_scan_with cfg net sched scrapers tid q qt w in
  _run_single_scraper cfg net s q qt = Ok r /\
  Base.found r = false /\
  Base.error r = Some cause /\
  Database.found (to_finding tid r) = 0%Z /\
  Database.url (to_finding tid r) = None /\
  Database.data_found (to_finding tid r) = None /\
  to_finding tid r = to_finding tid (_not_found s) /\
  to_finding tid r ∈ findings (committed after.2).
Proof.
  intros HC Hq Hs Hnet r after.
  assert (Hr : r = _error s cause).
  { unfold r, result_of. destruct Hnet as [[-> ->] | ->]; reflexivity. }
  split; [apply run_single_returns |].
  rewrite Hr. repeat split.
  destruct w as [c s0 k f tr]. cbn in Hq. subst f.
  destruct (run_scan_with_qw cfg net sched scrapers tid q qt c s0 k tr HC) as [tr' E].
  unfold after.
  change {| committed := c; session := s0; clock := k; faults := []; trace := tr |}
    with (quiet_world c s0 k tr).
  rewrite E. cbn [snd committed quiet_world]. rewrite scanned_findings.
  apply elem_of_app. right. rewrite <- Hr.
  apply (list_elem_of_fmap_2 (to_finding tid ∘ (fun s => result_of cfg net s q qt))) in Hs.
  rewrite list_fmap_compose in Hs. exact Hs.
Qed.

Lemma failed_probe_finding_witness :
  to_finding "t1" (result_of Config.settings flaky_net github "a@b.c" "email") =
  to_finding "t1" (_not_found github).
Proof.
  apply (failed_probe_finding Config.settings flaky_net [] _all_scrapers
           "t1" "a@b.c" "email" (world_of (fresh_db "t1") 1000 [])
           github "Timeout after 30s").
  - cbn. lia.
  - reflexivity.
  - apply list_elem_of_In. do 7 right. left. reflexivity.
  - left. split; reflexivity.
Defined.

(** C5: a storage fault during a scan does not put the task in status
    "failed".  Whatever the probes and the storage layer do, [run_scan]
    puts no task in status "failed".  When the first statement of the
    block that stores the findings fails, [run_scan] raises, nothing of
    the scan is stored, and the task stays in status "running". *)
Theorem storage_fault_leaves_task_running :
  (forall cfg net sched scrapers tid q qt w,
     no_failed (committed w) ->
     no_failed (committed (run_scan_with cfg net sched scrapers tid q qt w).2)) /\
  let w := world_of (fresh_db "t1") 1000 [false; false; true] in
  let after := run_scan Config.settings quiet_net [] "t1" "a@b.c" "email" w in
  status_of "t1" w = Some "pending" /\
  after.1 = Raise (Exception "database error") /\
  trace after.2 = [EGet "t1"; ECommit; EGet "t1"] /\
  status_of "t1" after.2 = Some "running" /\
  findings (committed after.2) = [] /\
  threat_reports (committed after.2) = [].
Proof.
  split; [intros; apply run_scan_marks_none_failed; assumption |].
  cbv zeta.
  split; [vm_compute; reflexivity |].
  split; [vm_compute; reflexivity |].
  split; [vm_compute; reflexivity |].
  split; [vm_compute; reflexivity |].
  split; vm_compute; reflexivity.
Qed.

Lemma storage_fault_leaves_task_running_witness :
  no_failed (committed
    (run_scan Config.settings quiet_net [] "t1" "a@b.c" "email"
       (world_of (fresh_db "t1") 1000 [false; false; true])).2).
Proof.
  apply (proj1 storage_fault_leaves_task_running).
  repeat constructor. discriminate.
Defined.

(** ** Further properties of the orchestrator *)

Import ScanSpec.

Section Progress.

Lemma trunc_mono (x y : Q) : 0 <= x -> x <= y -> (trunc x <= trunc y)%Z.
Proof.
  intros H0 Hxy. unfold trunc.
  assert (Hy : 0 <= y) by (eapply Qle_trans; eassumption).
  apply Qle_bool_iff in H0, Hy. rewrite H0, Hy. apply Qfloor_resp_le, Hxy.
Qed.

Lemma ratio_mono (a b total : nat) :
  (0 < total)%nat -> (a <= b)%nat ->
  fdiv (inject_Z (Z.of_nat a)) (inject_Z (Z.of_nat total)) <=
  fdiv (inject_Z (Z.of_nat b)) (inject_Z (Z.of_nat total)).
Proof.
  intros Ht Hab. apply fdiv_mono_l.
  - change 0 with (inject_Z 0). rewrite <- Zlt_Qlt. lia.
  - rewrite <- Zle_Qle. lia.
Qed.

Lemma ratio_nonneg (a total : nat) :
  (0 < total)%nat -> 0 <= fdiv (inject_Z (Z.of_nat a)) (inject_Z (Z.of_nat total)).
Proof.
  intros Ht. apply fdiv_nonneg.
  - change 0 with (inject_Z 0). rewrite <- Zle_Qle. lia.
  - change 0 with (inject_Z 0). rewrite <- Zlt_Qlt. lia.
Qed.

Lemma ratio_one (total : nat) :
  (0 < total)%nat -> fdiv (inject_Z (Z.of_nat total)) (inject_Z (Z.of_nat total)) = 1.
Proof.
  intros Ht. unfold fdiv.
  rewrite (fl_wd _ 1); [reflexivity |].
  apply Qmult_inv_r. intros E.
  assert (H : (Z.of_nat total = 0)%Z) by (apply (inject_Z_injective _ 0%Z); exact E).
  lia.
Qed.

Lemma progress_of_mono (i j total : nat) :
  (0 < total)%nat -> (i <= j)%nat -> (progress_of i total <= progress_of j total)%Z.
Proof.
  intros Ht Hij. unfold progress_of. apply trunc_mono.
  - apply fmul_nonneg; [apply ratio_nonneg, Ht | q_compute].
  - apply fmul_mono_l; [q_compute |]. apply ratio_mono; [exact Ht | lia].
Qed.

Lemma progress_of_last (total : nat) :
  (0 < total)%nat -> progress_of (total - 1) total = 100%Z.
Proof.
  intros Ht. unfold progress_of.
  replace (total - 1 + 1)%nat with total by lia.
  rewrite (ratio_one total Ht). vm_compute. reflexivity.
Qed.

Lemma progress_of_first (total : nat) : (0 < total)%nat -> (0 <= progress_of 0 total)%Z.
Proof.
  intros Ht. unfold progress_of.
  change 0%Z with (trunc 0). apply trunc_mono; [apply Qle_refl |].
  apply fmul_nonneg; [apply ratio_nonneg, Ht | q_compute].
Qed.

End Progress.

(** X12: the progress written while the findings are stored never goes
    back and stays within 0 and 100: for [total] results it is
    non-decreasing from one result to the next, and it is exactly 100
    with the last one. *)
Theorem progress_never_goes_back (i j total : nat) :
  (i <= j)%nat -> (j < total)%nat ->
  (0 <= progress_of i total <= progress_of j total)%Z /\
  (progress_of j total <= 100)%Z /\
  progress_of (total - 1) total = 100%Z.
Proof.
  intros Hij Hj. assert (Ht : (0 < total)%nat) by lia.
  split; [split |]; [| apply progress_of_mono; assumption | split].
  - eapply Z.le_trans; [apply (progress_of_first total Ht) |].
    apply progress_of_mono; [exact Ht | lia].
  - rewrite <- (progress_of_last total Ht). apply progress_of_mono; [exact Ht | lia].
  - apply progress_of_last, Ht.
Qed.

Lemma progress_never_goes_back_witness :
  (0 <= progress_of 6 20 <= progress_of 13 20)%Z.
Proof.
  apply (progress_never_goes_back 6 13 20); lia.
Defined.

Section EndState.

Lemma updated_if_found (tid : string) (f : ScanTask -> ScanTask) (d : DB) :
  scan_tasks (match find_task tid d with
              | Some _ => tasks_updated tid f d
              | None => d
              end) =
  map (fun t => if bool_decide (id t = tid) then f t else t) (scan_tasks d).
Proof.
  destruct (find_task tid d) as [t0 |] eqn:E; [reflexivity |].
  unfold find_task in E. symmetry.
  rewrite <- (map_id (scan_tasks d)) at 2. apply map_ext_in. intros t Ht.
  pose proof (List.find_none _ _ E t Ht) as N. cbn in N. rewrite N. reflexivity.
Qed.

Lemma in_progress_map (tid : string) (f : ScanTask -> ScanTask) (l : list ScanTask) :
  (forall t, id (f t) = id t /\ query (f t) = query t /\
             Database.query_type (f t) = Database.query_type t /\
             created_at (f t) = created_at t) ->
  Forall2 (in_progress tid)
          (map (fun t => if bool_decide (id t = tid) then f t else t) l) l.
Proof.
  intros Hf. induction l as [| t l IH]; [constructor |].
  cbn [map]. constructor; [| exact IH].
  destruct (bool_decide (id t = tid)) eqn:E; [| left; reflexivity].
  right. apply bool_decide_eq_true in E. split; [exact E | apply Hf].
Qed.

Lemma in_progress_trans (tid : string) (l1 l2 l3 : list ScanTask) :
  Forall2 (in_progress tid) l1 l2 -> Forall2 (in_progress tid) l2 l3 ->
  Forall2 (in_progress tid) l1 l3.
Proof.
  intros H. revert l3. induction H as [| a b l1 l2 Hab _ IH]; intros l3 H23.
  - inversion H23. constructor.
  - inversion H23 as [| b' c l2' l3' Hbc H' ]; subst. constructor; [| apply IH; assumption].
    destruct Hab as [-> | (Hb & A1 & A2 & A3 & A4)]; [exact Hbc |].
    destruct Hbc as [<- | (Hc & B1 & B2 & B3 & B4)].
    + right. repeat split; assumption.
    + right. repeat split; congruence.
Qed.

Lemma started_tasks (tid : string) (d : DB) :
  Forall2 (in_progress tid) (scan_tasks (scan_started tid d)) (scan_tasks d).
Proof.
  unfold scan_started. rewrite updated_if_found. apply in_progress_map.
  intros t. repeat split.
Qed.

Lemma stored_tasks (tid : string) (total : nat) (results : list Base.ScraperResult) :
  forall (i : nat) (d : DB),
  Forall2 (in_progress tid) (scan_tasks (stored tid total i results d)) (scan_tasks d).
Proof.
  induction results as [| r rest IH]; intros i d; cbn [stored].
  - apply Forall2_same_length_lookup_2; [reflexivity |].
    intros j x y Hx Hy. left. congruence.
  - eapply in_progress_trans; [apply IH |].
    rewrite updated_if_found. cbn [scan_tasks finding_added].
    apply in_progress_map. intros t. repeat split.
Qed.

Lemma stored_reports (tid : string) (total : nat) (results : list Base.ScraperResult) :
  forall (i : nat) (d : DB),
  threat_reports (stored tid total i results d) = threat_reports d.
Proof.
  induction results as [| r rest IH]; intros i d; cbn [stored]; [reflexivity |].
  rewrite IH. destruct (find_task tid (finding_added (to_finding tid r) d)); reflexivity.
Qed.

Lemma completed_tasks (tid : string) (k : Z) (d' : DB) (l : list ScanTask) :
  Forall2 (in_progress tid) (scan_tasks d') l ->
  scan_tasks (scan_completed tid k d') =
  map (fun t => if bool_decide (id t = tid) then finished k t else t) l.
Proof.
  intros H. unfold scan_completed. rewrite updated_if_found.
  induction H as [| t' t l' l Ht _ IH]; [reflexivity |].
  cbn [map]. rewrite IH. f_equal.
  destruct Ht as [-> | (Hid & A1 & A2 & A3 & A4)].
  - destruct (bool_decide (id t = tid)); reflexivity.
  - rewrite A1, (bool_decide_eq_true_2 _ Hid).
    unfold finished, set_completed_at, set_progress, set_status. cbn.
    rewrite A1, A2, A3, A4. reflexivity.
Qed.

Lemma scanned_tasks (tid : string) (k : Z) (results : list Base.ScraperResult) (d : DB) :
  scan_tasks (scanned tid k results d) =
  map (fun t => if bool_decide (id t = tid) then finished k t else t) (scan_tasks d).
Proof.
  unfold scanned. apply completed_tasks. cbn [scan_tasks report_added].
  eapply in_progress_trans; [apply stored_tasks | apply started_tasks].
Qed.

Lemma scanned_reports (tid : string) (k : Z) (results : list Base.ScraperResult) (d : DB) :
  threat_reports (scanned tid k results d) = threat_reports d ++ [report_of tid results].
Proof.
  unfold scanned, scan_completed.
  destruct (find_task tid _); cbn [threat_reports tasks_updated report_added];
    rewrite stored_reports; unfold scan_started; destruct (find_task tid d); reflexivity.
Qed.

End EndState.

(** X13: a scan that the storage layer answers, under a cap of at least
    one, ends with its task completed: the task row of the scan has
    status "completed", progress 100 and the time of completion, every
    other task row is untouched, and exactly one report, the scorer's
    report on the collected results, is appended to the reports.  A scan
    of an id without a task row changes no task. *)
Theorem run_scan_completes_task
    (cfg : Config.Settings) (net : Network) (sched : list nat)
    (scrapers : list BaseScraper) (tid q qt : string) (w : World) :
  (1 <= Config.MAX_CONCURRENT_SCRAPERS cfg)%Z ->
  faults w = [] ->
  let results := (fun s => result_of cfg net s q qt) <$> scrapers in
  let after := committed (run_scan_with cfg net sched scrapers tid q qt w).2 in
  scan_tasks after =
    map (fun t => if bool_decide (id t = tid) then finished (clock w) t else t)
        (scan_tasks (committed w)) /\
  threat_reports after = threat_reports (committed w) ++ [report_of tid results].
Proof.
  intros HC Hq results after.
  destruct w as [c s k f tr]. cbn in Hq. subst f.
  destruct (run_scan_with_qw cfg net sched scrapers tid q qt c s k tr HC) as [tr' E].
  unfold after.
  change {| committed := c; session := s; clock := k; faults := []; trace := tr |}
    with (quiet_world c s k tr).
  rewrite E. cbn [snd committed quiet_world clock]. fold results.
  split; [apply scanned_tasks | apply scanned_reports].
Qed.

Lemma run_scan_completes_task_witness :
  scan_tasks (committed
    (run_scan Config.settings flaky_net [2; 0; 1]%nat "t1" "a@b.c" "email"
       (world_of (fresh_db "t1") 1000 [])).2) =
  [finished 1000 (pending_task "t1")].
Proof.
  destruct (run_scan_completes_task Config.settings flaky_net [2; 0; 1]%nat _all_scrapers
              "t1" "a@b.c" "email" (world_of (fresh_db "t1") 1000 [])) as [H _].
  - cbn. lia.
  - reflexivity.
  - exact H.
Defined.

(** ** [run_scan] under storage faults: what it stores *)

Section Rows.

Lemma keeps_rows_ret {A} (a : A) : keeps_rows (ret a).
Proof. intros w F R H. exact H. Qed.

Lemma keeps_rows_bind {A B} (c : Async A) (k : A -> Async B) :
  keeps_rows c -> (forall a, keeps_rows (k a)) -> keeps_rows (bind c k).
Proof.
  intros Hc Hk w F R H. unfold bind. pose proof (Hc w F R H) as H'.
  destruct (c w) as [[a | e |] w']; cbn [snd] in *; [apply Hk |..]; exact H'.
Qed.

Lemma keeps_rows_round_trip (ev : Event) : keeps_rows (round_trip ev).
Proof.
  intros w F R H. unfold round_trip. destruct (faults w) as [| [] fs]; exact H.
Qed.

Lemma keeps_rows_get_task (tid : string) : keeps_rows (get_task tid).
Proof.
  unfold get_task. apply keeps_rows_bind; [apply keeps_rows_round_trip |].
  intros _. apply keeps_rows_bind; [| intros d; apply keeps_rows_ret].
  intros w F R H. exact H.
Qed.

Lemma keeps_rows_update (tid : string) (f : ScanTask -> ScanTask) :
  keeps_rows (update_task tid f).
Proof. intros w F R H. exact H. Qed.

Lemma keeps_rows_commit : keeps_rows commit.
Proof.
  unfold commit. apply keeps_rows_bind; [apply keeps_rows_round_trip |].
  intros _ w F R (_ & Hf & _ & Hr). repeat split; assumption.
Qed.

Lemma keeps_rows_now : keeps_rows now.
Proof. intros w F R H. exact H. Qed.

Lemma block_keeps_rows {A} (body : Async A) (w : World) (F : list Finding)
    (R : list ThreatReport) :
  keeps_rows body -> durable_rows F R w -> durable_rows F R (with_session body w).2.
Proof.
  intros Hb [Hf Hr]. unfold with_session.
  match goal with |- context [body ?w0] =>
    assert (H0 : rows_are F R w0) by (repeat split; assumption);
    pose proof (Hb w0 F R H0) as (Hf' & _ & Hr' & _);
    destruct (body w0) as [r w1] end.
  split; assumption.
Qed.

Lemma mark_running_keeps_rows (tid : string) :
  keeps_rows
    (bind (get_task tid) (fun task =>
       match task with
       | Some _ =>
           bind (update_task tid (fun t => set_progress 0 (set_status "running" t)))
                (fun _ => commit)
       | None => ret tt
       end)).
Proof.
  apply keeps_rows_bind; [apply keeps_rows_get_task |].
  intros [t |]; [| apply keeps_rows_ret].
  apply keeps_rows_bind; [apply keeps_rows_update | intros _; apply keeps_rows_commit].
Qed.

Lemma mark_completed_keeps_rows (tid : string) :
  keeps_rows
    (bind (get_task tid) (fun task =>
       match task with
       | Some _ =>
           bind now (fun t_now =>
             bind (update_task tid
                     (fun t => set_completed_at t_now
                                 (set_progress 100 (set_status "completed" t))))
                  (fun _ => commit))
       | None => ret tt
       end)).
Proof.
  apply keeps_rows_bind; [apply keeps_rows_get_task |].
  intros [t |]; [| apply keeps_rows_ret].
  apply keeps_rows_bind; [apply keeps_rows_now | intros t_now].
  apply keeps_rows_bind; [apply keeps_rows_update | intros _; apply keeps_rows_commit].
Qed.

Lemma appends_ret {A} (a : A) : appends [] (ret a).
Proof. intros w. cbn. rewrite app_nil_r. repeat split. Qed.

Lemma appends_bind {A B} (G1 G2 : list Finding) (c : Async A) (k : A -> Async B) :
  appends G1 c -> (forall a, appends G2 (k a)) -> appends (G1 ++ G2) (bind c k).
Proof.
  intros Hc Hk w. unfold bind. destruct (Hc w) as (H1 & H2 & H3).
  destruct (c w) as [[a | e |] w']; cbn [fst snd] in *.
  - destruct (Hk a w') as (K1 & K2 & K3).
    split; [congruence |]. split; [congruence |].
    intros b Hb. rewrite (K3 b Hb), (H3 a eq_refl), app_assoc. reflexivity.
  - repeat split; [assumption .. |]. intros b Hb. discriminate Hb.
  - repeat split; [assumption .. |]. intros b Hb. discriminate Hb.
Qed.

Lemma appends_round_trip (ev : Event) : appends [] (round_trip ev).
Proof.
  intros w. unfold round_trip.
  destruct (faults w) as [| [] fs]; cbn; rewrite ?app_nil_r; repeat split;
    intros a Ha; discriminate Ha.
Qed.

Lemma appends_get_task (tid : string) : appends [] (get_task tid).
Proof.
  unfold get_task. apply (appends_bind [] []); [apply appends_round_trip |].
  intros _. apply (appends_bind [] []); [| intros d; apply appends_ret].
  intros w. cbn. rewrite app_nil_r. repeat split.
Qed.

Lemma appends_update (tid : string) (f : ScanTask -> ScanTask) :
  appends [] (update_task tid f).
Proof. intros w. cbn. rewrite app_nil_r. repeat split. Qed.

Lemma appends_add_finding (f : Finding) : appends [f] (add_finding f).
Proof. intros w. cbn. repeat split. Qed.

(** The loop that stores the findings touches the open session only; if
    it comes to its end, every finding is in the session. *)
Lemma appends_store_findings (tid : string) (total : nat)
    (results : list Base.ScraperResult) :
  forall i, appends (to_finding tid <$> results) (store_findings tid total i results).
Proof.
  induction results as [| r rest IH]; intros i; cbn [store_findings].
  - apply appends_ret.
  - change (to_finding tid <$> r :: rest)
      with ([to_finding tid r] ++ ([] ++ ([] ++ (to_finding tid <$> rest)))).
    apply appends_bind; [apply appends_add_finding | intros _].
    apply appends_bind; [apply appends_get_task | intros task].
    apply appends_bind; [| intros _; apply IH].
    destruct task; [apply appends_update | apply appends_ret].
Qed.

End Rows.

Section AllOrNothing.

Lemma store_block_cases (tid : string) (total : nat) (results : list Base.ScraperResult)
    (w : World) (o : outcome unit) (w' : World) :
  with_session (bind (store_findings tid total 0 results) (fun _ => commit)) w = (o, w') ->
  (o = Ok tt /\
   durable_rows (findings (committed w) ++ (to_finding tid <$> results))
                (threat_reports (committed w)) w') \/
  (o <> Ok tt /\ committed w' = committed w).
Proof.
  unfold with_session.
  set (w0 := {| committed := committed w; session := committed w; clock := clock w;
                faults := faults w; trace := trace w |}).
  destruct (appends_store_findings tid total results 0%nat w0) as (H1 & H2 & H3).
  unfold bind at 1.
  destruct (store_findings tid total 0 results w0) as [[[] | e |] w1]; cbn [fst snd] in *.
  - specialize (H3 tt eq_refl). unfold commit, bind, round_trip, durable_rows.
    destruct (faults w1) as [| [] fs]; cbn; intros E; injection E as <- <-; cbn.
    + left. split; [reflexivity |]. rewrite H3, H2. split; reflexivity.
    + right. split; [discriminate | exact H1].
    + left. split; [reflexivity |]. rewrite H3, H2. split; reflexivity.
  - intros E; injection E as <- <-. right. split; [discriminate | exact H1].
  - intros E; injection E as <- <-. right. split; [discriminate | exact H1].
Qed.

Lemma report_block_cases (tid : string) (results : list Base.ScraperResult) (w : World)
    (o : outcome unit) (w' : World) :
  _generate_threat_report tid results w = (o, w') ->
  (o = Ok tt /\
   durable_rows (findings (committed w))
                (threat_reports (committed w) ++ [report_of tid results]) w') \/
  (o <> Ok tt /\ committed w' = committed w).
Proof.
  change (_generate_threat_report tid results)
    with (with_session (bind (add_report (report_of tid results)) (fun _ => commit))).
  generalize (report_of tid results). intros rep.
  unfold with_session, add_report, modify_session,
    get_session, set_session, commit, round_trip, bind, durable_rows.
  cbn [committed session clock faults trace].
  destruct (faults w) as [| [] fs]; cbn; intros E; injection E as <- <-; cbn.
  - left. split; [reflexivity | split; reflexivity].
  - right. split; [discriminate | reflexivity].
  - left. split; [reflexivity | split; reflexivity].
Qed.

Lemma gather_results (f : BaseScraper -> Base.ScraperResult)
    (run : BaseScraper -> outcome Base.ScraperResult) (permits : nat) (sched : list nat)
    (scrapers : list BaseScraper) (rs : list Base.ScraperResult) :
  (forall s, run s = Ok (f s)) ->
  gather run permits sched scrapers = Ok rs -> rs = f <$> scrapers.
Proof.
  intros Hrun E. destruct permits as [| n].
  - destruct scrapers as [| s l]; [| discriminate E].
    cbn in E. injection E as <-. reflexivity.
  - rewrite (gather_returns f run Hrun scrapers (S n) ltac:(lia) sched) in E.
    injection E as <-. reflexivity.
Qed.

Lemma run_scan_rows (cfg : Config.Settings) (net : Network) (sched : list nat)
    (scrapers : list BaseScraper) (tid q qt : string) (w : World)
    (o : outcome unit) (w' : World) :
  run_scan_with cfg net sched scrapers tid q qt w = (o, w') ->
  let results := (fun s => result_of cfg net s q qt) <$> scrapers in
  let F := findings (committed w) in
  let R := threat_reports (committed w) in
  (o <> Ok tt /\ durable_rows F R w') \/
  (o <> Ok tt /\ durable_rows (F ++ (to_finding tid <$> results)) R w') \/
  durable_rows (F ++ (to_finding tid <$> results)) (R ++ [report_of tid results]) w'.
Proof.
  intros E results F R. unfold run_scan_with in E.
  unfold bind at 1 in E.
  match type of E with context [with_session ?b w] =>
    pose proof (block_keeps_rows b w F R (mark_running_keeps_rows tid)
                  (conj eq_refl eq_refl)) as D1;
    destruct (with_session b w) as [[[] | e |] w1] end; cbn [snd] in D1;
    [| injection E as <- <-; left; split; [discriminate | exact D1] ..].
  unfold lift at 1 in E. unfold bind at 1 in E.
  destruct (Semaphore (Config.MAX_CONCURRENT_SCRAPERS cfg)) as [permits | e |];
    [| injection E as <- <-; left; split; [discriminate | exact D1] ..].
  unfold lift at 1 in E. unfold bind at 1 in E.
  destruct (gather _ permits sched scrapers) as [rs | e |] eqn:EG;
    [| injection E as <- <-; left; split; [discriminate | exact D1] ..].
  apply (gather_results (fun s => result_of cfg net s q qt)) in EG;
    [| intros s; apply run_single_returns].
  fold results in EG. subst rs.
  destruct D1 as [D1f D1r].
  unfold bind at 1 in E.
  destruct (with_session _ w1) as [o3 w3] eqn:E3.
  apply store_block_cases in E3 as [[-> D3] | [N3 C3]].
  2:{ left. destruct o3 as [[] | e |]; [contradiction | injection E as <- <- ..];
        (split; [discriminate | split; congruence]). }
  rewrite D1f, D1r in D3. destruct D3 as [D3f D3r].
  unfold bind at 1 in E.
  destruct (_generate_threat_report tid results w3) as [o4 w4] eqn:E4.
  apply report_block_cases in E4 as [[-> D4] | [N4 C4]].
  2:{ right. left. destruct o4 as [[] | e |]; [contradiction | injection E as <- <- ..];
        (split; [discriminate | split; congruence]). }
  rewrite D3f, D3r in D4.
  right. right.
  pose proof (block_keeps_rows _ w4 _ _ (mark_completed_keeps_rows tid) D4) as D5.
  rewrite E in D5. exact D5.
Qed.

End AllOrNothing.

(** X14: whatever the storage layer does and whatever the cap is, the
    rows of a scan are stored all or nothing.  The findings table ends
    either as it was or with all the findings of the scan appended, one
    per scraper in submission order, never with a part of them; the
    report is stored only after the findings; and when [run_scan] returns
    normally, all the findings and the report are stored. *)
Theorem run_scan_stores_all_or_nothing
    (cfg : Config.Settings) (net : Network) (sched : list nat)
    (scrapers : list BaseScraper) (tid q qt : string) (w : World) :
  let results := (fun s => result_of cfg net s q qt) <$> scrapers in
  let run := run_scan_with cfg net sched scrapers tid q qt w in
  let F := findings (committed w) in
  let R := threat_reports (committed w) in
  let F' := findings (committed run.2) in
  let R' := threat_reports (committed run.2) in
  (run.1 <> Ok tt /\ F' = F /\ R' = R) \/
  (run.1 <> Ok tt /\ F' = F ++ (to_finding tid <$> results) /\ R' = R) \/
  (F' = F ++ (to_finding tid <$> results) /\ R' = R ++ [report_of tid results]).
Proof.
  cbv zeta.
  destruct (run_scan_with cfg net sched scrapers tid q qt w) as [o w'] eqn:E.
  exact (run_scan_rows cfg net sched scrapers tid q qt w o w' E).
Qed.

(** X15: the cap is not validated.  With [MAX_CONCURRENT_SCRAPERS] below
    zero the semaphore cannot be built and [run_scan] raises; with a cap
    of zero no probe is ever admitted and [run_scan] never returns.  In
    both cases, with a storage layer that answers, the task has already
    been marked "running" and nothing else is ever written: it is left
    in that status, without findings and without a report. *)
Theorem run_scan_without_permits
    (cfg : Config.Settings) (net : Network) (sched : list nat)
    (s : BaseScraper) (scrapers : list BaseScraper) (tid q qt : string) (w : World) :
  faults w = [] ->
  (Config.MAX_CONCURRENT_SCRAPERS cfg <= 0)%Z ->
  let run := run_scan_with cfg net sched (s :: scrapers) tid q qt w in
  run.1 = (if (Config.MAX_CONCURRENT_SCRAPERS cfg <? 0)%Z
           then Raise (Exception "Semaphore initial value must be >= 0")
           else Hang) /\
  committed run.2 = scan_started tid (committed w).
Proof.
  intros Hq HC. cbv zeta. destruct w as [c s0 k f tr]. cbn in Hq. subst f.
  change {| committed := c; session := s0; clock := k; faults := []; trace := tr |}
    with (quiet_world c s0 k tr).
  unfold run_scan_with.
  destruct (mark_running_qw tid c s0 k tr) as [tr1 H1].
  rewrite (bind_ok _ _ _ _ _ H1).
  unfold lift at 1. unfold bind at 1. unfold Semaphore.
  destruct (Z.ltb_spec (Config.MAX_CONCURRENT_SCRAPERS cfg) 0) as [L | G].
  - split; reflexivity.
  - assert (E : Config.MAX_CONCURRENT_SCRAPERS cfg = 0%Z) by lia. rewrite E.
    unfold lift at 1. unfold bind at 1.
    change (Z.to_nat 0) with 0%nat. rewrite gather_without_permits.
    split; reflexivity.
Qed.

Lemma run_scan_without_permits_witness :
  status_of "t1"
    (run_scan {| Config.DATA_TTL_HOURS := 24; Config.SCRAPER_TIMEOUT := 30;
                 Config.MAX_CONCURRENT_SCRAPERS := 0 |}
       quiet_net [] "t1" "a@b.c" "email" (world_of (fresh_db "t1") 1000 [])).2
  = Some "running".
Proof.
  unfold status_of.
  destruct (run_scan_without_permits
              {| Config.DATA_TTL_HOURS := 24; Config.SCRAPER_TIMEOUT := 30;
                 Config.MAX_CONCURRENT_SCRAPERS := 0 |}
              quiet_net [] (scraper "Facebook" "https://www.facebook.com" "IMPERSONATION")
              (tl _all_scrapers) "t1" "a@b.c" "email" (world_of (fresh_db "t1") 1000 [])
              eq_refl ltac:(cbn; lia)) as [_ H].
  unfold run_scan. change _all_scrapers
    with (scraper "Facebook" "https://www.facebook.com" "IMPERSONATION" :: tl _all_scrapers).
  rewrite H. reflexivity.
Defined.

(** ** How high a scan of the registered scrapers can score *)

Section Ceiling.

Import RiskCategories ThreatScorer.

Lemma platform_score_le_10 (hit : Base.ScraperResult) : platform_score hit <= lit 10.0.
Proof. unfold platform_score. apply fmin_le_r. Qed.

Lemma tens_from_mono_l (k : nat) (s s' : Q) : s <= s' -> tens_from s k <= tens_from s' k.
Proof.
  revert s s'. induction k as [| k IH]; intros s s' H; [exact H |].
  cbn [tens_from]. apply IH, fadd_mono; [exact H | apply Qle_refl].
Qed.

Lemma tens_from_float (k : nat) (s : Q) : fl s = s -> fl (tens_from s k) = tens_from s k.
Proof.
  revert s. induction k as [| k IH]; intros s H; [exact H |].
  cbn [tens_from]. apply IH, fadd_float.
Qed.

Lemma tens_from_succ (k : nat) (s : Q) :
  fl s = s -> tens_from s k <= tens_from s (S k).
Proof.
  intros H. cbn [tens_from]. apply tens_from_mono_l, fadd_ge_l; [exact H | q_compute].
Qed.

Lemma tens_from_mono (k k' : nat) (s : Q) :
  fl s = s -> (k <= k')%nat -> tens_from s k <= tens_from s k'.
Proof.
  intros H Hk. induction Hk as [| k' _ IH]; [apply Qle_refl |].
  eapply Qle_trans; [exact IH | apply tens_from_succ, H].
Qed.

Lemma sum_from_le_tens (hits : list Base.ScraperResult) (s s' : Q) :
  s <= s' -> sum_from s hits <= tens_from s' (length hits).
Proof.
  revert s s'. induction hits as [| h t IH]; intros s s' H; [exact H |].
  cbn [sum_from fold_left length tens_from]. apply IH.
  apply fadd_mono; [exact H | apply platform_score_le_10].
Qed.

Lemma most_mono (k k' : nat) : (k <= k')%nat -> most k <= most k'.
Proof.
  intros H. destruct k as [| k].
  - destruct k' as [| k']; [apply Qle_refl |]. cbn [most]. unfold scaled.
    apply fmin_nonneg; [| q_compute].
    apply fmul_nonneg; [| q_compute].
    apply fdiv_nonneg; [| q_compute].
    eapply Qle_trans; [| apply (tens_from_mono 0 (S k') (lit 0.0) (lit_float _)); lia].
    q_compute.
  - destruct k' as [| k']; [lia |]. cbn [most]. apply scaled_mono.
    apply tens_from_mono; [apply lit_float | exact H].
Qed.

Lemma normalized_le_most (hits : list Base.ScraperResult) (k : nat) :
  (length hits <= k)%nat -> normalized_of hits <= most k.
Proof.
  intros H. eapply Qle_trans; [| apply most_mono, H].
  destruct hits as [| h t]; [apply Qle_refl |].
  cbn [normalized_of length most]. apply scaled_mono.
  apply (sum_from_le_tens (h :: t) (lit 0.0) (lit 0.0)), Qle_refl.
Qed.

Lemma hits_of_registered (may : BaseScraper -> bool)
    (f : BaseScraper -> Base.ScraperResult) (cat : RiskCategory)
    (scrapers : list BaseScraper) :
  (forall s, In s scrapers -> Base.found (f s) = true -> may s = true) ->
  (forall s, In s scrapers -> hit_category (f s) = scraper_category s) ->
  (length (hits_of cat (f <$> scrapers)) <=
   length (List.filter
             (fun s => may s && bool_decide (scraper_category s = value cat)) scrapers))%nat.
Proof.
  intros Hmay Hcat. unfold hits_of.
  induction scrapers as [| s l IH]; [apply Nat.le_refl |].
  cbn [fmap list_fmap List.filter].
  assert (IH' := IH (fun x Hx => Hmay x (or_intror Hx)) (fun x Hx => Hcat x (or_intror Hx))).
  rewrite (Hcat s (or_introl eq_refl)).
  destruct (Base.found (f s)) eqn:Ef.
  - rewrite (Hmay s (or_introl eq_refl) Ef). cbn [andb].
    destruct (bool_decide (scraper_category s = value cat)); cbn [length]; [| exact IH'].
    apply le_n_S, IH'.
  - cbn [andb]. destruct (may s && bool_decide (scraper_category s = value cat));
      cbn [length]; [apply Nat.le_le_succ_r |]; exact IH'.
Qed.

Lemma result_category (cfg : Config.Settings) (net : Network) (s : BaseScraper)
    (q qt : string) :
  Base.risk_category (result_of cfg net s q qt) = scraper_category s.
Proof. unfold result_of. destruct (net s q qt); reflexivity. Qed.

Lemma registered_categories (s : BaseScraper) :
  In s _all_scrapers -> scraper_category s <> "".
Proof.
  revert s. apply List.Forall_forall.
  unfold _all_scrapers. repeat (apply List.Forall_cons; [discriminate |]).
  apply List.Forall_nil.
Qed.

(** The overall score of a scan is at most what the registered scrapers
    that can find something would give with 10 points each. *)
Lemma scan_score_ceiling (may : BaseScraper -> bool) (cfg : Config.Settings)
    (net : Network) (q qt : string) :
  (forall s, In s _all_scrapers ->
             Base.found (result_of cfg net s q qt) = true -> may s = true) ->
  ThreatScorer.overall_score
    (analyze_findings ((fun s => result_of cfg net s q qt) <$> _all_scrapers)) <=
  overall_of (weighted_total (fun cat => most (registered may cat))) 100.
Proof.
  intros Hmay. rewrite overall_closed. apply overall_of_mono, weighted_total_mono.
  intros cat. unfold cat_normalized. rewrite hits_for_found.
  apply normalized_le_most. unfold registered.
  apply hits_of_registered; [exact Hmay |].
  intros s Hs. unfold hit_category. rewrite result_category.
  destruct (decide (scraper_category s = "")) as [E | _]; [| reflexivity].
  exfalso. exact (registered_categories s Hs E).
Qed.

Lemma risk_level_of_score (results : list Base.ScraperResult) :
  risk_level (analyze_findings results) =
  _risk_level (ThreatScorer.overall_score (analyze_findings results)).
Proof.
  unfold analyze_findings. cbn [risk_level ThreatScorer.overall_score]. reflexivity.
Qed.

Lemma level_below (score bound : Q) :
  score <= bound -> bound < 75 -> In (_risk_level score) ["low"; "medium"; "high"].
Proof.
  intros H Hb. unfold _risk_level, fge.
  destruct (Qle_bool 75 score) eqn:E75.
  - apply Qle_bool_iff in E75. exfalso.
    apply (Qlt_irrefl 75). eapply Qle_lt_trans; [exact E75 |].
    eapply Qle_lt_trans; [exact H | exact Hb].
  - destruct (Qle_bool 50 score); [right; right; left; reflexivity |].
    destruct (Qle_bool 25 score); [right; left; reflexivity | left; reflexivity].
Qed.

End Ceiling.

(** X16: whatever the probes answer, the report on a scan of the
    registered scrapers has an overall score of at most 53.3, so its risk
    level is "low", "medium" or "high" and never "critical": four of the
    six categories have too few registered scrapers to reach their
    ceiling. *)
Theorem scan_never_critical (cfg : Config.Settings) (net : Network) (q qt : string) :
  let results := (fun s => result_of cfg net s q qt) <$> _all_scrapers in
  let report := ThreatScorer.analyze_findings results in
  ThreatScorer.overall_score report <= 53.3 /\
  In (ThreatScorer.risk_level report) ["low"; "medium"; "high"].
Proof.
  cbv zeta.
  assert (H : ThreatScorer.overall_score
                (ThreatScorer.analyze_findings
                   ((fun s => result_of cfg net s q qt) <$> _all_scrapers)) <=
              ThreatScorer.overall_of
                (weighted_total (fun cat => most (registered (fun _ => true) cat))) 100).
  { apply scan_score_ceiling. intros s _ _. reflexivity. }
  split.
  - eapply Qle_trans; [exact H | q_compute].
  - rewrite risk_level_of_score. eapply level_below; [exact H | q_compute].
Qed.

(** ** A wipe after a scan *)

Section ScanThenWipe.

Lemma filter_finished (tid : string) (k : Z) (l : list ScanTask) :
  List.filter (fun t => negb (bool_decide (id t = tid)))
              (map (fun t => if bool_decide (id t = tid) then finished k t else t) l) =
  List.filter (fun t => negb (bool_decide (id t = tid))) l.
Proof.
  induction l as [| t l IH]; [reflexivity |].
  cbn [map List.filter]. destruct (bool_decide (id t = tid)) eqn:E.
  - cbn [id finished]. rewrite E. cbn [negb]. exact IH.
  - rewrite E. cbn [negb]. rewrite IH. reflexivity.
Qed.

Lemma filter_scan_findings (tid : string) (results : list Base.ScraperResult)
    (F : list Finding) :
  List.filter (fun f => negb (bool_decide (task_id f = tid)))
              (F ++ (to_finding tid <$> results)) =
  List.filter (fun f => negb (bool_decide (task_id f = tid))) F.
Proof.
  rewrite List.filter_app.
  assert (E : List.filter (fun f => negb (bool_decide (task_id f = tid)))
                          (to_finding tid <$> results) = []).
  { induction results as [| r l IH]; [reflexivity |].
    cbn [fmap list_fmap List.filter task_id to_finding].
    rewrite (bool_decide_eq_true_2 _ eq_refl). exact IH. }
  rewrite E, app_nil_r. reflexivity.
Qed.

Lemma find_finished (tid : string) (k : Z) (l : list ScanTask) :
  List.find (fun t => bool_decide (id t = tid)) l <> None ->
  List.find (fun t => bool_decide (id t = tid))
            (map (fun t => if bool_decide (id t = tid) then finished k t else t) l) <> None.
Proof.
  induction l as [| t l IH]; [intros H; exact H |].
  cbn [map List.find]. destruct (bool_decide (id t = tid)) eqn:E.
  - cbn [id finished]. rewrite E. discriminate.
  - rewrite E. exact IH.
Qed.

End ScanThenWipe.

(** X19: a wipe undoes a scan.  When the storage layer answers, wiping a
    task after its scan has run returns True and leaves the tables
    exactly as wiping it before the scan would have: nothing the scan
    stored for the task survives, and no other row is touched. *)
Theorem wipe_undoes_scan
    (cfg : Config.Settings) (net : Network) (sched : list nat)
    (scrapers : list BaseScraper) (tid q qt : string) (w : World) :
  (1 <= Config.MAX_CONCURRENT_SCRAPERS cfg)%Z ->
  faults w = [] ->
  has_task (committed w) tid ->
  let scan := run_scan_with cfg net sched scrapers tid q qt w in
  let wipe := SecureWipe.wipe_task_data tid scan.2 in
  scan.1 = Ok tt /\ wipe.1 = Ok true /\
  committed wipe.2 = committed (SecureWipe.wipe_task_data tid w).2.
Proof.
  intros HC Hq Ht. cbv zeta.
  assert (Hfind : List.find (fun t => bool_decide (id t = tid)) (scan_tasks (committed w))
                  <> None).
  { destruct Ht as (t & Hin & Hid). intros N.
    pose proof (List.find_none _ _ N t Hin) as B. cbn in B.
    rewrite (bool_decide_eq_true_2 _ Hid) in B. discriminate B. }
  rewrite (wipe_task_data_quiet tid w Hq).
  destruct w as [c s k f tr]. cbn in Hq. subst f. cbn [committed] in *.
  destruct (run_scan_with_qw cfg net sched scrapers tid q qt c s k tr HC) as [tr' E].
  change {| committed := c; session := s; clock := k; faults := []; trace := tr |}
    with (quiet_world c s k tr).
  rewrite E. cbn [fst snd]. split; [reflexivity |].
  rewrite wipe_task_data_quiet by reflexivity. cbn [committed quiet_world].
  rewrite scanned_tasks.
  pose proof (find_finished tid k _ Hfind) as Hf'.
  destruct (List.find _ (map _ (scan_tasks c))) as [t1 |]; [| contradiction].
  destruct (List.find _ (scan_tasks c)) as [t0 |]; [| contradiction].
  cbn [fst snd committed world_committed]. split; [reflexivity |].
  unfold task_deleted, report_deleted, findings_deleted.
  cbn [scan_tasks findings threat_reports].
  rewrite scanned_tasks, scanned_findings, scanned_reports.
  rewrite filter_finished, filter_scan_findings.
  rewrite List.filter_app. cbn [List.filter report_task_id report_of].
  rewrite (bool_decide_eq_true_2 _ eq_refl). cbn [negb]. rewrite app_nil_r.
  reflexivity.
Qed.

Lemma wipe_undoes_scan_witness :
  committed
    (SecureWipe.wipe_task_data "t1"
       (run_scan Config.settings flaky_net [] "t1" "a@b.c" "email"
          (world_of (fresh_db "t1") 1000 [])).2).2 =
  committed (SecureWipe.wipe_task_data "t1" (world_of (fresh_db "t1") 1000 [])).2.
Proof.
  refine (proj2 (proj2 (wipe_undoes_scan Config.settings flaky_net [] _all_scrapers
                          "t1" "a@b.c" "email" (world_of (fresh_db "t1") 1000 [])
                          _ eq_refl _))).
  - cbn. lia.
  - exists (pending_task "t1"). split; [left; reflexivity | reflexivity].
Defined.

(** ** How the scrapers start *)

Import Scrapers ScrapersSpec.

Section Starts.

Variable keys : Keys.
Variable email_hash : string -> string.

Lemma registry_instances : instance <$> all_classes = _all_scrapers.
Proof. reflexivity. Qed.

Lemma class_of_instance (c : ScraperClass) : class_of (instance c) = Some c.
Proof. destruct c; reflexivity. Qed.

Lemma start_answers (c : ScraperClass) (q qt : string) (b : CheckBehaviour) :
  check_start keys email_hash c q qt = Answers b ->
  b = ReturnsNotFound \/ exists msg, b = ReturnsError msg.
Proof.
  unfold check_start.
  destruct c; destruct (is_email qt); cbn [negb];
    try (intros E; injection E as <-; left; reflexivity);
    try discriminate.
  - destruct (String.eqb (HIBP_API_KEY keys) ""); [| discriminate].
    intros E; injection E as <-. right. eexists. reflexivity.
  - destruct (String.eqb (SHODAN_API_KEY keys) "");
      [intros E; injection E as <-; right; eexists; reflexivity |].
    destruct (contains_char "@" q); [| intros E; injection E as <-; left; reflexivity].
    destruct (_ || _); [| discriminate].
    intros E; injection E as <-. left. reflexivity.
  - destruct (String.eqb (SHODAN_API_KEY keys) ""); [| discriminate].
    intros E; injection E as <-. right. eexists. reflexivity.
Qed.

Lemma start_awaits (c : ScraperClass) (q qt : string) (req : Request) :
  check_start keys email_hash c q qt = Awaits req ->
  sends (is_email qt) c = true /\
  (c = HIBPScraper -> HIBP_API_KEY keys <> "") /\
  (c = ShodanScraper ->
     SHODAN_API_KEY keys <> "" /\
     (is_email qt = true -> ~ In (last_part "@" q) common_providers)).
Proof.
  unfold check_start.
  destruct c; destruct (is_email qt) eqn:Em; cbn [negb sends];
    try discriminate;
    try (intros _; split; [reflexivity | split; discriminate]).
  - destruct (String.eqb (HIBP_API_KEY keys) "") eqn:K; [discriminate |].
    intros _. split; [reflexivity |]. split; [| discriminate].
    intros _ E. rewrite E in K. discriminate K.
  - destruct (String.eqb (SHODAN_API_KEY keys) "") eqn:K; [discriminate |].
    destruct (contains_char "@" q); [| discriminate].
    destruct (String.eqb (last_part "@" q) "" || _) eqn:P; [discriminate |].
    intros _. split; [reflexivity |]. split; [discriminate |].
    intros _. split; [intros E; rewrite E in K; discriminate K |].
    intros _ Hin. apply orb_false_iff in P as [_ P].
    assert (T : existsb (String.eqb (last_part "@" q)) common_providers = true).
    { apply existsb_exists. exists (last_part "@" q).
      split; [exact Hin | apply String.eqb_refl]. }
    unfold common_providers in T. rewrite T in P. discriminate P.
  - destruct (String.eqb (SHODAN_API_KEY keys) "") eqn:K; [discriminate |].
    intros _. split; [reflexivity |]. split; [discriminate |].
    intros _. split; [intros E; rewrite E in K; discriminate K | discriminate].
Qed.

End Starts.

(** X17: which services a query can reach.  A [check] sends a request
    for an email query only in the classes GitHub, HaveIBeenPwned,
    Dehashed, Shodan and Gravatar, and for any other query type in every
    class but HaveIBeenPwned and Gravatar.  HaveIBeenPwned and Shodan
    send nothing without their API key, and Shodan sends nothing for an
    address at gmail.com, yahoo.com, hotmail.com or outlook.com. *)
Theorem first_request_gating (keys : Keys) (email_hash : string -> string)
    (c : ScraperClass) (q qt : string) (req : Request) :
  check_start keys email_hash c q qt = Awaits req ->
  (qt = "email" ->
     In c [GitHubScraper; HIBPScraper; DehashedScraper; ShodanScraper; GravatarScraper]) /\
  (qt <> "email" -> c <> HIBPScraper /\ c <> GravatarScraper) /\
  (c = HIBPScraper -> HIBP_API_KEY keys <> "") /\
  (c = ShodanScraper ->
     SHODAN_API_KEY keys <> "" /\
     (qt = "email" -> ~ In (last_part "@" q) common_providers)).
Proof.
  intros H. destruct (start_awaits keys email_hash c q qt req H) as (Hs & Hk & Hsh).
  split; [| split; [| split; [exact Hk |]]].
  - intros ->. change (is_email "email") with true in Hs.
    destruct c; try discriminate Hs; cbn; tauto.
  - intros Hne. assert (E : is_email qt = false).
    { unfold is_email. apply String.eqb_neq. exact Hne. }
    rewrite E in Hs. split; intros ->; discriminate Hs.
  - intros Hc. destruct (Hsh Hc) as [K P]. split; [exact K |].
    intros ->. apply P. reflexivity.
Qed.

Lemma first_request_gating_witness :
  In HIBPScraper
     [GitHubScraper; HIBPScraper; DehashedScraper; ShodanScraper; GravatarScraper].
Proof.
  refine (proj1 (first_request_gating both_keys sample_hash HIBPScraper "a@b.c" "email"
                   _ eq_refl) eq_refl).
Defined.

Section LiveCeiling.

Import RiskCategories ThreatScorer.

Lemma level_below_50 (score bound : Q) :
  score <= bound -> bound < 50 -> In (_risk_level score) ["low"; "medium"].
Proof.
  intros H Hb. unfold _risk_level, fge.
  assert (N : forall t, 50 <= t -> Qle_bool t score = false).
  { intros t Ht. destruct (Qle_bool t score) eqn:E; [| reflexivity].
    apply Qle_bool_iff in E. exfalso. apply (Qlt_irrefl 50).
    eapply Qle_lt_trans; [exact Ht |]. eapply Qle_lt_trans; [exact E |].
    eapply Qle_lt_trans; [exact H | exact Hb]. }
  rewrite (N 75) by q_compute. rewrite (N 50) by q_compute.
  destruct (Qle_bool 25 score); [right; left; reflexivity | left; reflexivity].
Qed.

Lemma live_found (cfg : Config.Settings) (keys : Keys) (email_hash : string -> string)
    (rest : ScraperClass -> Request -> CheckBehaviour) (q qt : string) (s : BaseScraper) :
  In s _all_scrapers ->
  Base.found (result_of cfg (live_net keys email_hash rest) s q qt) = true ->
  may_find (is_email qt) s = true.
Proof.
  intros Hs. rewrite <- registry_instances in Hs.
  apply list_elem_of_In, list_elem_of_fmap in Hs as (c & -> & _).
  unfold result_of, live_net, may_find. rewrite class_of_instance. unfold check.
  destruct (check_start keys email_hash c q qt) as [b | req] eqn:E.
  - destruct (start_answers keys email_hash c q qt b E) as [-> | [msg ->]];
      cbn; discriminate.
  - intros _. apply (start_awaits keys email_hash c q qt req E).
Qed.

Lemma no_hits_unregistered (may : BaseScraper -> bool) (cfg : Config.Settings)
    (net : Network) (q qt : string) (cat : RiskCategory) :
  (forall s, In s _all_scrapers ->
             Base.found (result_of cfg net s q qt) = true -> may s = true) ->
  registered may cat = 0%nat ->
  hits_of cat ((fun s => result_of cfg net s q qt) <$> _all_scrapers) = [].
Proof.
  intros Hmay H0.
  assert (L : (length (hits_of cat ((fun s => result_of cfg net s q qt) <$> _all_scrapers))
               <= registered may cat)%nat).
  { unfold registered. apply hits_of_registered; [exact Hmay |].
    intros s Hs. unfold hit_category. rewrite result_category.
    destruct (decide (scraper_category s = "")) as [E | _]; [| reflexivity].
    exfalso. exact (registered_categories s Hs E). }
  rewrite H0 in L. destruct (hits_of cat _); [reflexivity | cbn in L; lia].
Qed.

End LiveCeiling.

(** X18: with the registered scrapers running their own code, no scan is
    ever rated "high" or "critical".  Whatever the services answer, the
    overall score is at most 43.3, and at most 30.0 for an email query,
    for which no result is ever filed under IMPERSONATION, PHISHING or
    STALKING: the scrapers of these categories answer "not found" to an
    email query without sending a request. *)
Theorem scan_never_high (cfg : Config.Settings) (keys : Keys)
    (email_hash : string -> string) (rest : ScraperClass -> Request -> CheckBehaviour)
    (q qt : string) :
  let results :=
    (fun s => result_of cfg (live_net keys email_hash rest) s q qt) <$> _all_scrapers in
  let report := ThreatScorer.analyze_findings results in
  ThreatScorer.overall_score report <= 43.3 /\
  In (ThreatScorer.risk_level report) ["low"; "medium"] /\
  (qt = "email" ->
   ThreatScorer.overall_score report <= 30.0 /\
   hits_of RiskCategories.IMPERSONATION results = [] /\
   hits_of RiskCategories.PHISHING results = [] /\
   hits_of RiskCategories.STALKING results = []).
Proof.
  cbv zeta.
  pose proof (scan_score_ceiling (may_find (is_email qt)) cfg
                (live_net keys email_hash rest) q qt
                (live_found cfg keys email_hash rest q qt)) as H.
  assert (B : ThreatScorer.overall_of
                (weighted_total (fun cat => most (registered (may_find (is_email qt)) cat)))
                100 <= 43.3).
  { destruct (is_email qt); q_compute. }
  split; [eapply Qle_trans; [exact H | exact B] |].
  split.
  - rewrite risk_level_of_score. eapply level_below_50; [exact H |].
    eapply Qle_lt_trans; [exact B | q_compute].
  - intros ->. change (is_email "email") with true in H.
    split; [eapply Qle_trans; [exact H | q_compute] |].
    repeat split;
      apply (no_hits_unregistered (may_find true) cfg _ q "email" _
               (live_found cfg keys email_hash rest q "email"));
      vm_compute; reflexivity.
Qed.

Lemma scan_never_high_witness :
  ThreatScorer.overall_score
    (ThreatScorer.analyze_findings
       ((fun s => result_of Config.settings (live_net both_keys sample_hash all_found)
                    s "a@b.c" "email") <$> _all_scrapers)) <= 30.0.
Proof.
  refine (proj1 (proj2 (proj2 (scan_never_high Config.settings both_keys sample_hash
                                 all_found "a@b.c" "email")) eq_refl)).
Defined.

(** ** The search endpoint *)

Import Api ApiSpec.

Section Search.

Lemma start_search_qw (new_id : string) (request : Schemas.SearchRequest)
    (background_tasks : list ScanCall) (c s : DB) (k : Z) (tr : list Event) :
  exists response,
    start_search new_id request background_tasks (quiet_world c s k tr) =
    (Ok (response, background_tasks ++ [new_call new_id request]),
     quiet_world (task_added (new_task new_id request k) c)
                 (task_added (new_task new_id request k) c) k
                 ((tr ++ [ECommit]) ++ [EGet new_id])) /\
    Schemas.task_id response = new_id /\ Schemas.status response = "pending".
Proof. eexists. split; [reflexivity | split; reflexivity]. Qed.

Lemma finish_new_task (tid : string) (k : Z) (t : ScanTask) (l : list ScanTask) :
  id t = tid ->
  (forall t', In t' l -> id t' <> tid) ->
  map (fun t => if bool_decide (id t = tid) then finished k t else t) (l ++ [t]) =
  l ++ [finished k t].
Proof.
  intros Hid Hfresh. rewrite map_app. cbn [map].
  rewrite (bool_decide_eq_true_2 _ Hid). f_equal.
  rewrite <- (map_id l) at 2. apply map_ext_in. intros t' Ht'.
  rewrite (bool_decide_eq_false_2 _ (Hfresh t' Ht')). reflexivity.
Qed.

End Search.

(** X20: from the request to the finished scan.  With a storage layer
    that answers, a cap of at least one and a fresh id, [start_search]
    stores the task in status "pending" with the stripped query, answers
    with the id, and queues one call of [run_scan] with the id, the
    stripped query and the query type; running the queued call leaves
    that task completed, one finding per registered scraper and one
    report appended, and every older row as it was. *)
Theorem search_then_scan
    (cfg : Config.Settings) (net : Network) (sched : list nat)
    (new_id : string) (request : Schemas.SearchRequest) (w : World) :
  (1 <= Config.MAX_CONCURRENT_SCRAPERS cfg)%Z ->
  faults w = [] ->
  (forall t, In t (scan_tasks (committed w)) -> id t <> new_id) ->
  let started := start_search new_id request [] w in
  let query := PyText.strip (Schemas.query request) in
  let results :=
    (fun s => result_of cfg net s query (Schemas.query_type request)) <$> _all_scrapers in
  exists response,
    started.1 = Ok (response, [new_call new_id request]) /\
    Schemas.task_id response = new_id /\
    Schemas.status response = "pending" /\
    committed started.2 =
      task_added (new_task new_id request (clock w)) (committed w) /\
    let scan := run_call cfg net sched (new_call new_id request) started.2 in
    scan.1 = Ok tt /\
    scan_tasks (committed scan.2) =
      scan_tasks (committed w)
      ++ [finished (clock w) (new_task new_id request (clock w))] /\
    findings (committed scan.2) =
      findings (committed w) ++ (to_finding new_id <$> results) /\
    threat_reports (committed scan.2) =
      threat_reports (committed w) ++ [report_of new_id results].
Proof.
  intros HC Hq Hfresh. cbv zeta.
  destruct w as [c s k f tr]. cbn in Hq. subst f. cbn [committed clock] in *.
  change {| committed := c; session := s; clock := k; faults := []; trace := tr |}
    with (quiet_world c s k tr).
  destruct (start_search_qw new_id request [] c s k tr) as (response & E & H1 & H2).
  exists response. rewrite E. cbn [fst snd committed quiet_world app].
  split; [reflexivity |]. split; [exact H1 |]. split; [exact H2 |].
  split; [reflexivity |].
  unfold run_call, run_scan. cbn [call_task_id call_query call_query_type new_call].
  destruct (run_scan_with_qw cfg net sched _all_scrapers new_id
              (PyText.strip (Schemas.query request)) (Schemas.query_type request)
              (task_added (new_task new_id request k) c)
              (task_added (new_task new_id request k) c) k
              ((tr ++ [ECommit]) ++ [EGet new_id]) HC) as [tr' E'].
  rewrite E'. cbn [fst snd committed quiet_world].
  split; [reflexivity |].
  rewrite scanned_tasks, scanned_findings, scanned_reports.
  cbn [scan_tasks findings threat_reports task_added].
  split; [| split; reflexivity].
  apply finish_new_task; [reflexivity | exact Hfresh].
Qed.

Lemma search_then_scan_witness :
  exists response,
    (start_search "t9" sample_request [] (world_of sample_db 500 [])).1 =
    Ok (response, [new_call "t9" sample_request]).
Proof.
  destruct (search_then_scan Config.settings flaky_net [] "t9" sample_request
              (world_of sample_db 500 [])) as (response & H & _).
  - cbn. lia.
  - reflexivity.
  - intros t [<- | [<- | []]]; discriminate.
  - exists response. exact H.
Defined.

(** X21: a scan is queued only for a task whose row is durable, but not
    for every such row.  Whatever the storage layer does, [start_search]
    either fails at the commit, with no row stored; or fails at the
    reload that follows the commit, and then the row is durable in status
    "pending" although no scan has been queued for it; or returns, with
    the row durable and the call queued.  The second case arises whenever
    the commit goes through and the reload fails. *)
Theorem start_search_queues_after_commit (new_id : string)
    (request : Schemas.SearchRequest) (background_tasks : list ScanCall) (w : World) :
  let run := start_search new_id request background_tasks w in
  let row := task_added (new_task new_id request (clock w)) (committed w) in
  ((run.1 = Raise (Exception "database error") /\ committed run.2 = committed w) \/
   (run.1 = Raise (Exception "database error") /\ committed run.2 = row) \/
   (exists response,
      run.1 = Ok (response, background_tasks ++ [new_call new_id request]) /\
      committed run.2 = row)) /\
  (forall fs, faults w = false :: true :: fs ->
     run.1 = Raise (Exception "database error") /\ committed run.2 = row).
Proof.
  cbv zeta. destruct w as [c s k f tr].
  unfold start_search, with_session, now, add_task, refresh, modify_session, get_session,
    set_session, commit, round_trip, bind, ret.
  cbn [committed session clock faults trace].
  destruct f as [| [] f]; cbn.
  - split; [right; right; eexists; split; reflexivity | intros fs H; discriminate H].
  - split; [left; split; reflexivity | intros fs H; discriminate H].
  - destruct f as [| [] f]; cbn.
    + split; [right; right; eexists; split; reflexivity | intros fs H; discriminate H].
    + split; [right; left; split; reflexivity | intros fs H; split; reflexivity].
    + split; [right; right; eexists; split; reflexivity | intros fs H; discriminate H].
Qed.

Section Blank.

Lemma blanks_bytes (n : nat) : list_ascii_of_string (blanks n) = repeat " "%char n.
Proof. induction n as [| n IH]; [reflexivity |]. cbn. rewrite IH. reflexivity. Qed.

Lemma blanks_len (n : nat) : PyText.len (blanks n) = n.
Proof.
  unfold PyText.len. rewrite blanks_bytes.
  induction n as [| n IH]; [reflexivity |].
  change (repeat " "%char (S n)) with (" "%char :: repeat " "%char n).
  cbn [List.filter].
  change (negb ((128 <=? nat_of_ascii " ")%nat && (nat_of_ascii " " <=? 191)%nat))
    with true.
  cbn [length]. rewrite IH. reflexivity.
Qed.

Lemma blanks_strip (n : nat) : PyText.strip (blanks n) = "".
Proof.
  unfold PyText.strip. rewrite blanks_bytes.
  assert (E : PyText.lstrip_bytes (repeat " "%char n) = []).
  { induction n as [| n IH]; [reflexivity |].
    change (repeat " "%char (S n)) with (" "%char :: repeat " "%char n).
    cbn [PyText.lstrip_bytes]. change (PyText.space1 " ") with true. exact IH. }
  rewrite E. reflexivity.
Qed.

End Blank.

(** X22: the length constraint is checked on the raw query and the task
    stores the stripped one.  A query of 1 to 255 blanks passes the
    validation of [SearchRequest], and [start_search] stores and queues
    it as the empty string, for which [FacebookScraper.check], like every
    scraper that appends the query to its base URL, requests the root
    page of the site. *)
Theorem blank_query_is_scanned (n : nat) (new_id query_type : string)
    (keys : Keys) (email_hash : string -> string) :
  (1 <= n <= 255)%nat ->
  query_type = "username" ->
  let request := {| Schemas.query := blanks n; Schemas.query_type := query_type |} in
  Schemas.SearchRequest_valid request = true /\
  new_call new_id request =
    {| call_task_id := new_id; call_query := ""; call_query_type := "username" |} /\
  check_start keys email_hash FacebookScraper
    (call_query (new_call new_id request)) (call_query_type (new_call new_id request)) =
  Awaits (get "https://www.facebook.com/").
Proof.
  intros Hn ->. cbv zeta. unfold Schemas.SearchRequest_valid, new_call.
  cbn [Schemas.query Schemas.query_type call_query call_query_type].
  rewrite blanks_len, blanks_strip.
  split; [| split; reflexivity].
  destruct Hn as [H1 H2].
  apply Nat.leb_le in H1, H2. rewrite H1, H2. reflexivity.
Qed.

Lemma blank_query_is_scanned_witness :
  Schemas.SearchRequest_valid
    {| Schemas.query := blanks 3; Schemas.query_type := "username" |} = true.
Proof.
  refine (proj1 (blank_query_is_scanned 3 "t9" "username" both_keys sample_hash _ eq_refl)).
  lia.
Defined.
